(** * Maestra live SDK: resampler, capture sources, client and demultiplexer

    A shallow embedding of the audio resampling code of the web demo
    ([Resampler.process] of the AudioWorklet and the [resample] fallback of
    the ScriptProcessor path), of [WebSocketClient] (message demultiplexer,
    connection timer, [sendAudio], [close]), of [MaestraClient] and of the
    capture sources, with the properties of the specification stated and
    settled against them; then of the construction of the two clients, of
    the PCM conversion of the microphone source and of the listeners and
    the caption formatter of [VmixProcessor], with further properties of
    the code.

    Conventions of the embedding.
    - A JavaScript number is an exact rational ([Q]); counters that only ever
      hold integers ([writeIndex], [currentFrame], loop indices) are [Z].
      The rounding of IEEE doubles and of [Float32Array] stores is not
      modelled: two sample sequences that agree "within floating-point
      tolerance" are sequences that agree in [Q]. Where the code rounds a
      product to an integer ([Math.ceil(length * ratio)] in the fallback
      [resample]) the exact value and the one computed in doubles can
      differ by one; what is stated about that length is stated for rates
      whose ratio is a power of two, where both agree.
    - A [while] loop is a [Fixpoint] on a fuel argument that returns [None]
      only when the fuel runs out while the loop condition still holds; the
      callers pass the exact number of iterations and totality is proved.
    - An emitted event or an invoked callback is an entry of a log, in the
      order of the calls. Callbacks and listeners are taken to return
      normally (in particular an ['error'] listener is registered, as
      [MaestraClient] does on its socket client, so that [emit('error')]
      does not throw).
    - What the environment does (the socket opens, a message or a chunk of
      audio arrives, a timer expires) is a call of the handler the code
      installed for it. *)

From stdpp Require Import base gmap list strings.
From Stdlib Require Import Ascii String ZArith QArith Qround Lqa Lia List Bool.
Import ListNotations.

(** ** Part 1: the resamplers of the web demo *)

Module Resampler.
Local Open Scope Q_scope.

(** [a < b] on JavaScript numbers. *)
Definition Qltb (x y : Q) : bool :=
  (Qnum x * QDen y <? Qnum y * QDen x)%Z.

(** [new Float32Array(n)]: [n] zeros. *)
Definition Float32Array (n : Z) : list Q := repeat 0 (Z.to_nat n).

(** [a[i] = x] on a typed array: a store outside the array is dropped. *)
Fixpoint array_set (a : list Q) (i : nat) (x : Q) : list Q :=
  match a, i with
  | [], _ => []
  | _ :: t, O => x :: t
  | h :: t, S j => h :: array_set t j x
  end.

(** [a.slice(0, n)]. *)
Definition slice0 (a : list Q) (n : nat) : list Q := firstn n a.

Definition Math_ceil (x : Q) : Z := Qceiling x.

(** Number of iterations the tick loop of input sample [i] makes when it is
    entered at [writeIndex]: the ticks below [(i + 1) / fromSampleRate]. *)
Definition ticks_fuel (fromSampleRate toSampleRate : Q) (i writeIndex : Z) : nat :=
  Z.to_nat (Qceiling (inject_Z (i + 1) / fromSampleRate * toSampleRate) - writeIndex).

(** *** [resample(audioBuffer, fromSampleRate, toSampleRate)], the
    ScriptProcessor fallback *)

Section Resample.
Variables fromSampleRate toSampleRate : Q.

(** The inner [while] of [resample] for input sample [i]. *)
Fixpoint resample_while (fuel : nat) (i : Z) (lastSample nextSample : Q)
    (result : list Q) (writeIndex : Z) : option (list Q * Z) :=
  let highResTime := inject_Z i / fromSampleRate in
  let nextHighResTime := inject_Z (i + 1) / fromSampleRate in
  if Qltb (inject_Z writeIndex / toSampleRate) nextHighResTime then
    match fuel with
    | O => None
    | S fuel' =>
        let lowResTime := inject_Z writeIndex / toSampleRate in
        if Qltb lowResTime highResTime then
          resample_while fuel' i lastSample nextSample result (writeIndex + 1)
        else
          let timeDiff := lowResTime - highResTime in
          let sampleTimeDiff := 1 / fromSampleRate in
          let result' :=
            array_set result (Z.to_nat writeIndex)
              (lastSample + (nextSample - lastSample) * (timeDiff / sampleTimeDiff)) in
          resample_while fuel' i lastSample nextSample result' (writeIndex + 1)
    end
  else Some (result, writeIndex).

(** The [for] loop of [resample] from index [i] on. *)
Fixpoint resample_for (samples : list Q) (i : Z) (lastSample nextSample : Q)
    (result : list Q) (writeIndex : Z) : option (list Q) :=
  match samples with
  | [] => Some result
  | x :: rest =>
      let lastSample := nextSample in
      let nextSample := x in
      match resample_while (ticks_fuel fromSampleRate toSampleRate i writeIndex)
              i lastSample nextSample result writeIndex with
      | None => None
      | Some (result', writeIndex') =>
          resample_for rest (i + 1) lastSample nextSample result' writeIndex'
      end
  end.

Definition resample (audioBuffer : list Q) : option (list Q) :=
  if Qeq_bool fromSampleRate toSampleRate then Some audioBuffer
  else
    let ratio := toSampleRate / fromSampleRate in
    let newLength := Math_ceil (inject_Z (Z.of_nat (length audioBuffer)) * ratio) in
    resample_for audioBuffer 0%Z 0 0 (Float32Array newLength) 0%Z.

(** [scriptProcessor.onaudioprocess] over a run of blocks: every block goes
    through [resample] on its own and the result is sent. *)
Fixpoint onaudioprocess_all (blocks : list (list Q)) : option (list (list Q)) :=
  match blocks with
  | [] => Some []
  | b :: rest =>
      match resample b, onaudioprocess_all rest with
      | Some r, Some rs => Some (r :: rs)
      | _, _ => None
      end
  end.

End Resample.

(** *** [Resampler.process], the AudioWorklet processor *)

Record Resampler := mkResampler {
  lastSample : Q;
  nextSample : Q;
  writeIndex : Z
}.

(** [constructor()]. *)
Definition Resampler_new : Resampler := mkResampler 0 0 0%Z.

Section Process.
Variables fromSampleRate toSampleRate : Q.

(** The inner [while] of [process] for the input sample at global frame
    [frame = currentFrame + i]. [cwi] is [currentWriteIndex]. The
    [continue] taken when [sampleTimeDiff === 0] leaves [writeIndex] as it
    is. *)
Fixpoint process_while (fuel : nat) (frame : Z) (this : Resampler)
    (result : list Q) (cwi : nat) : option (Resampler * list Q * nat) :=
  let highResTime := inject_Z frame / fromSampleRate in
  let nextHighResTime := inject_Z (frame + 1) / fromSampleRate in
  if Qltb (inject_Z (writeIndex this) / toSampleRate) nextHighResTime then
    match fuel with
    | O => None
    | S fuel' =>
        let lowResTime := inject_Z (writeIndex this) / toSampleRate in
        if Qltb lowResTime highResTime then
          process_while fuel' frame
            (mkResampler (lastSample this) (nextSample this) (writeIndex this + 1))
            result cwi
        else
          let timeDiff := lowResTime - highResTime in
          let sampleTimeDiff := 1 / fromSampleRate in
          if Qeq_bool sampleTimeDiff 0 then process_while fuel' frame this result cwi
          else
            let result' :=
              array_set result cwi
                (lastSample this
                 + (nextSample this - lastSample this) * (timeDiff / sampleTimeDiff)) in
            process_while fuel' frame
              (mkResampler (lastSample this) (nextSample this) (writeIndex this + 1))
              result' (S cwi)
    end
  else Some (this, result, cwi).

(** The [for] loop of [process] from global frame [frame] on. *)
Fixpoint process_for (input : list Q) (frame : Z) (this : Resampler)
    (result : list Q) (cwi : nat) : option (Resampler * list Q * nat) :=
  match input with
  | [] => Some (this, result, cwi)
  | x :: rest =>
      let this1 := mkResampler (nextSample this) x (writeIndex this) in
      match process_while (ticks_fuel fromSampleRate toSampleRate frame (writeIndex this1))
              frame this1 result cwi with
      | None => None
      | Some (this2, result', cwi') => process_for rest (frame + 1) this2 result' cwi'
      end
  end.

(** [process(inputs, ...)] on the block [input = inputs[0][0]] that starts
    at global frame [currentFrame]: the new processor state and the samples
    posted to the port ([[]] when nothing is posted). (Without an input
    channel, [process] returns at once and nothing changes.) *)
Definition process (currentFrame : Z) (this : Resampler) (input : list Q)
    : option (Resampler * list Q) :=
  let ratio := toSampleRate / fromSampleRate in
  let newLength := (Math_ceil (inject_Z (Z.of_nat (length input)) * ratio) + 1)%Z in
  match process_for input currentFrame this (Float32Array newLength) 0%nat with
  | None => None
  | Some (this', result, currentWriteIndex) =>
      if (0 <? currentWriteIndex)%nat
      then Some (this', slice0 result currentWriteIndex)
      else Some (this', [])
  end.

(** The audio thread calls [process] once per block; [currentFrame] is the
    global index of the first frame of the block, so it advances by the
    length of each block. The result is the final state and the
    concatenation of what was posted. *)
Fixpoint process_all (currentFrame : Z) (this : Resampler) (blocks : list (list Q))
    : option (Resampler * list Q) :=
  match blocks with
  | [] => Some (this, [])
  | b :: rest =>
      match process currentFrame this b with
      | None => None
      | Some (this1, out1) =>
          match process_all (currentFrame + Z.of_nat (length b)) this1 rest with
          | None => None
          | Some (this2, out2) => Some (this2, out1 ++ out2)
          end
      end
  end.

End Process.

(** Two sample sequences agree: same length, equal samples. *)
Definition same_samples (a b : list Q) : Prop := Forall2 Qeq a b.

(** *** The output of [process] as a function of the sample stream

    [ticks] and [stream] say which samples [process] emits, without the
    result buffer; the theorems relate [process] to them. *)

Section Stream.
Variables fromSampleRate toSampleRate : Q.

(** The first output tick that is not before input frame [frame]. *)
Definition tick_limit (frame : Z) : Z :=
  Qceiling (inject_Z frame / fromSampleRate * toSampleRate).

(** The samples emitted for the [n] ticks from [w] on while the input
    sample of frame [frame] is current. *)
Fixpoint ticks (n : nat) (frame : Z) (last next : Q) (w : Z) : list Q :=
  match n with
  | O => []
  | S n' =>
      if Qltb (inject_Z w / toSampleRate) (inject_Z frame / fromSampleRate)
      then ticks n' frame last next (w + 1)
      else
        (last + (next - last)
                * ((inject_Z w / toSampleRate - inject_Z frame / fromSampleRate)
                   / (1 / fromSampleRate)))
        :: ticks n' frame last next (w + 1)
  end.

(** The processor state and the samples emitted after the input [input]
    whose first sample is frame [frame]. *)
Fixpoint stream (input : list Q) (frame : Z) (this : Resampler) : Resampler * list Q :=
  match input with
  | [] => (this, [])
  | x :: rest =>
      let n := ticks_fuel fromSampleRate toSampleRate frame (writeIndex this) in
      let r := stream rest (frame + 1)
                 (mkResampler (nextSample this) x (writeIndex this + Z.of_nat n)) in
      (fst r, ticks n frame (nextSample this) x (writeIndex this) ++ snd r)
  end.

End Stream.

(** Consecutive stores [result[cwi++] = x] for the samples of [out]. *)
Fixpoint write_all (result : list Q) (cwi : nat) (out : list Q) : list Q :=
  match out with
  | [] => result
  | x :: rest => write_all (array_set result cwi x) (S cwi) rest
  end.

End Resampler.

(** ** Part 2: JavaScript values and [WebSocketClient] *)

Module JS.

#[local] Set Warnings "-register-all".

(** A JavaScript value as [JSON.parse] produces it, together with
    [undefined], which reading a missing property yields. An object is the
    list of its own properties. Strings are strings of 8-bit characters. *)
Inductive value :=
| VUndefined
| VNull
| VBool (b : bool)
| VNum (q : Q)
| VStr (s : string)
| VArr (l : list value)
| VObj (fields : list (string * value)).

(** [!!v]. *)
Definition truthy (v : value) : bool :=
  match v with
  | VUndefined | VNull => false
  | VBool b => b
  | VNum q => negb (Qeq_bool q 0)
  | VStr s => negb (String.eqb s EmptyString)
  | VArr _ | VObj _ => true
  end.

(** [a || b]. *)
Definition or_else (a b : value) : value := if truthy a then a else b.

Definition nullish (v : value) : bool :=
  match v with
  | VUndefined | VNull => true
  | _ => false
  end.

Fixpoint assoc (fields : list (string * value)) (k : string) : value :=
  match fields with
  | [] => VUndefined
  | (k', v) :: rest => if String.eqb k' k then v else assoc rest k
  end.

(** [v.k] for a [v] that is neither [null] nor [undefined] (reading a
    property of those throws a TypeError, see [nullish]) and for the property
    names the client reads, none of which a number, boolean, string or array
    has. *)
Definition field (v : value) (k : string) : value :=
  match v with
  | VObj fields => assoc fields k
  | _ => VUndefined
  end.

(** [v === s] for a string literal [s]. *)
Definition is_string (v : value) (s : string) : bool :=
  match v with
  | VStr t => String.eqb t s
  | _ => false
  end.

(** [v === n] for a number literal [n]. *)
Definition is_number (v : value) (n : Q) : bool :=
  match v with
  | VNum q => Qeq_bool q n
  | _ => false
  end.

(** [v === false]. *)
Definition is_false (v : value) : bool :=
  match v with
  | VBool false => true
  | _ => false
  end.

(** [v === null]. *)
Definition is_null (v : value) : bool :=
  match v with
  | VNull => true
  | _ => false
  end.

Definition lower_ascii (c : ascii) : ascii :=
  let n := nat_of_ascii c in
  if (65 <=? n)%nat && (n <=? 90)%nat then ascii_of_nat (n + 32) else c.

(** [s.toLowerCase()]. *)
Fixpoint toLowerCase (s : string) : string :=
  match s with
  | EmptyString => EmptyString
  | String c rest => String (lower_ascii c) (toLowerCase rest)
  end.

(** [s.includes(keyword)]. *)
Fixpoint includes (s keyword : string) : bool :=
  String.prefix keyword s
  || match s with
     | EmptyString => false
     | String _ rest => includes rest keyword
     end.

Definition is_whitespace (c : ascii) : bool :=
  let n := nat_of_ascii c in
  ((9 <=? n)%nat && (n <=? 13)%nat) || (n =? 32)%nat.

(** [s.trim().length === 0]. *)
Fixpoint is_blank (s : string) : bool :=
  match s with
  | EmptyString => true
  | String c rest => is_whitespace c && is_blank rest
  end.

End JS.

Module WS.
Import JS.

Inductive ReadyState := CONNECTING | OPEN | CLOSING | CLOSED.

(** The [ws] socket object the client holds. *)
Record WebSocket := mkWebSocket { readyState : ReadyState }.

(** [socket.close()]: the closing handshake starts unless the socket is
    already closing or closed. *)
Definition WebSocket_close (s : WebSocket) : WebSocket :=
  match readyState s with
  | CONNECTING | OPEN => mkWebSocket CLOSING
  | CLOSING => mkWebSocket CLOSING
  | CLOSED => mkWebSocket CLOSED
  end.

(** The [Error] objects the client builds or catches. *)
Inductive error :=
| SyntaxError                          (* thrown by JSON.parse *)
| TypeError                            (* property of null, call of a non-function *)
| WaitError (message : value)          (* new Error(data.message) *)
| AuthenticationError                  (* 'Connection failed: Authentication error. ...' *)
| ConnectionFailed (errorMessage : value)  (* `Connection failed: ${errorMessage}` *)
| ConnectionTimeout                    (* 'Connection failed: Timeout waiting for server response. ...' *)
| InvalidApiKey                        (* 'Connection failed: Invalid or missing API key. ...' *)
| SocketError                          (* the argument of socket.onerror *)
| AlreadyTranscribing                  (* 'Already transcribing. Stop current transcription first.' *)
| NotConnected.                        (* 'Not connected or server not ready. ...' *)

(** What goes out on the socket. *)
Inductive frame :=
| ConfigFrame (options : list (string * value))   (* JSON.stringify(options) *)
| AudioFrame (audioData : list Q).

(** The log: callbacks invoked, events emitted, calls into the socket and
    settlements of the promise of [connect], in program order. *)
Inductive event :=
| CallbackOnTranscription (data : value)
| CallbackOnLanguageDetected (language : value)
| CallbackOnError (e : error)
| CallbackOnClose
| CallbackOnReady
| Emit_binaryData
| Emit_error (e : error)
| Emit_ready
| Emit_languageDetected (language : value)
| Emit_disconnect
| Emit_segments (currentInterim : list value)
| Emit_translatedSegments (segments : value)
| Emit_finalizedSegment (segment : value)
| Emit_finalizedTranslatedSegment (segment : value)
| Emit_finalizedSegmentAudioURL (audio_url : value)
| Emit_transcription (data : value)
| SocketNew
| SocketSend (f : frame)
| SocketClose
| PromiseResolve
| PromiseReject (e : error).

(** The fields of a [WebSocketClient] that its methods read or write, and
    [timers], the pending timers of the event loop that this client armed. *)
Record WebSocketClient := mkClient {
  uuid : string;
  sourceLanguage : value;
  targetLanguage : value;
  apiKey : value;
  saveToDashboard : value;
  voiceId : value;
  useVad : bool;
  socket : option WebSocket;
  isServerReady : bool;
  connectionTimer : option nat;
  timers : gset nat;
  next_timer : nat
}.

Definition set_socket (this : WebSocketClient) (s : option WebSocket) :=
  mkClient (uuid this) (sourceLanguage this) (targetLanguage this) (apiKey this)
    (saveToDashboard this) (voiceId this) (useVad this)
    s (isServerReady this) (connectionTimer this) (timers this) (next_timer this).

Definition set_isServerReady (this : WebSocketClient) (b : bool) :=
  mkClient (uuid this) (sourceLanguage this) (targetLanguage this) (apiKey this)
    (saveToDashboard this) (voiceId this) (useVad this)
    (socket this) b (connectionTimer this) (timers this) (next_timer this).

Definition set_sourceLanguage (this : WebSocketClient) (v : value) :=
  mkClient (uuid this) v (targetLanguage this) (apiKey this)
    (saveToDashboard this) (voiceId this) (useVad this)
    (socket this) (isServerReady this) (connectionTimer this) (timers this)
    (next_timer this).

(** [this.connectionTimer = setTimeout(...)]. *)
Definition arm_connectionTimer (this : WebSocketClient) :=
  mkClient (uuid this) (sourceLanguage this) (targetLanguage this) (apiKey this)
    (saveToDashboard this) (voiceId this) (useVad this)
    (socket this) (isServerReady this) (Some (next_timer this))
    ({[ next_timer this ]} ∪ timers this) (S (next_timer this)).

(** [if (this.connectionTimer) { clearTimeout(this.connectionTimer);
    this.connectionTimer = null; }]. *)
Definition clear_connectionTimer (this : WebSocketClient) :=
  match connectionTimer this with
  | Some t =>
      mkClient (uuid this) (sourceLanguage this) (targetLanguage this) (apiKey this)
        (saveToDashboard this) (voiceId this) (useVad this)
        (socket this) (isServerReady this) None (timers this ∖ {[ t ]})
        (next_timer this)
  | None => this
  end.

Definition authKeywords : list string :=
  ["unauthorized"; "authentication"; "invalid api key"; "api key";
   "forbidden"; "access denied"; "invalid token"; "invalid key";
   "authentication failed"; "invalid credentials"; "token expired";
   "key not found"; "permission denied"]%string.

(** [_isAuthenticationError(errorMessage, data)]; [None] is the TypeError of
    [errorMessage.toLowerCase()] on something that is not a string. *)
Definition _isAuthenticationError (errorMessage data : value) : option bool :=
  if negb (truthy errorMessage) then Some false
  else
    match errorMessage with
    | VStr s =>
        let message := toLowerCase s in
        let isAuthError := existsb (fun keyword => includes message keyword) authKeywords in
        if is_number (field data "status_code") 401
           || is_number (field data "status_code") 403
        then Some true
        else Some isAuthError
    | _ => None
    end.

(** [close()]. *)
Definition close (this : WebSocketClient) : WebSocketClient * list event :=
  let this1 := clear_connectionTimer this in
  match socket this1 with
  | Some s =>
      (set_isServerReady (set_socket this1 (Some (WebSocket_close s))) false,
       [SocketClose])
  | None => (set_isServerReady this1 false, [])
  end.

(** [data.segments.filter(segment => segment.completed === false)]; [None]
    is the TypeError of reading [completed] of a [null] element. *)
Fixpoint filter_interim (segments : list value) : option (list value) :=
  match segments with
  | [] => Some []
  | segment :: rest =>
      if nullish segment then None
      else
        match filter_interim rest with
        | None => None
        | Some kept =>
            if is_false (field segment "completed") then Some (segment :: kept)
            else Some kept
        end
  end.

(** The outcome of the [try] block of [_handleMessage]. *)
Inductive completion :=
| Return (this : WebSocketClient) (log : list event)
| Throw (this : WebSocketClient) (log : list event) (e : error).

(** The part of the [try] block after the disconnect check. *)
Definition handle_results (this : WebSocketClient) (data : value) : completion :=
  let segments_log :=
    if truthy (field data "segments") then
      match field data "segments" with
      | VArr l =>
          match filter_interim l with
          | Some currentInterim =>
              if (0 <? length currentInterim)%nat
              then Some [Emit_segments currentInterim]
              else Some []
          | None => None
          end
      | _ => None                    (* data.segments.filter is not a function *)
      end
    else Some [] in
  match segments_log with
  | None => Throw this [] TypeError
  | Some log1 =>
      Return this
        (log1
         ++ (if truthy (field data "translated_segments")
             then [Emit_translatedSegments (field data "translated_segments")] else [])
         ++ (if truthy (field data "segment")
             then [Emit_finalizedSegment (field data "segment")] else [])
         ++ (if truthy (field data "translated_segment")
             then [Emit_finalizedTranslatedSegment (field data "translated_segment")]
             else [])
         ++ (if is_string (field data "type") "audio"
             then [Emit_finalizedSegmentAudioURL (field data "audio_url")] else [])
         ++ [CallbackOnTranscription data; Emit_transcription data])
  end.

(** The [try] block of [_handleMessage] once [JSON.parse] has returned
    [data]. *)
Definition handle_data (this : WebSocketClient) (data : value) : completion :=
  if nullish data then Throw this [] TypeError            (* data.uid *)
  else if truthy (field data "uid") && negb (is_string (field data "uid") (uuid this))
  then Return this []
  else if is_string (field data "status") "WAIT" then
    let error := WaitError (field data "message") in
    Return this [CallbackOnError error; Emit_error error]
  else if is_string (field data "status") "ERROR" || truthy (field data "error") then
    let errorMessage :=
      or_else (or_else (field data "message") (field data "error")) (VStr "Unknown error") in
    let this1 := clear_connectionTimer this in
    match _isAuthenticationError errorMessage data with
    | None => Throw this1 [] TypeError
    | Some isAuth =>
        let error := if isAuth then AuthenticationError else ConnectionFailed errorMessage in
        Return this1 [CallbackOnError error; Emit_error error]
    end
  else if negb (isServerReady this) then
    Return (clear_connectionTimer (set_isServerReady this true))
      [CallbackOnReady; Emit_ready]
  else if is_null (sourceLanguage this) && truthy (field data "language") then
    Return (set_sourceLanguage this (field data "language"))
      [CallbackOnLanguageDetected (field data "language");
       Emit_languageDetected (field data "language")]
  else if is_string (field data "message") "DISCONNECT" then
    let (this1, log) := close this in
    Return this1 ([CallbackOnClose; Emit_disconnect] ++ log)
  else handle_results this data.

(** [event.data] of an inbound message: an [ArrayBuffer], or anything else,
    given with what [JSON.parse] makes of it ([None]: it throws a
    SyntaxError). *)
Inductive MessageData :=
| ArrayBuffer
| Text (parsed : option value).

(** [_handleMessage(event)]. *)
Definition _handleMessage (this : WebSocketClient) (data : MessageData)
    : WebSocketClient * list event :=
  match data with
  | ArrayBuffer => (this, [Emit_binaryData])
  | Text parsed =>
      let outcome :=
        match parsed with
        | None => Throw this [] SyntaxError
        | Some data => handle_data this data
        end in
      match outcome with
      | Return this1 log => (this1, log)
      | Throw this1 log error => (this1, log ++ [CallbackOnError error; Emit_error error])
      end
  end.

(** [_validateApiKey()]. *)
Definition _validateApiKey (this : WebSocketClient) : bool :=
  if negb (truthy (apiKey this)) then false
  else
    match apiKey this with
    | VStr s => negb (is_blank s)
    | _ => false
    end.

(** [connect()] up to the creation of the socket (the URL is taken to be
    well formed, so [new WebSocket] does not throw). The handlers installed
    on the socket are [socket_onopen], [socket_onclose], [socket_onerror]
    and [_handleMessage]. *)
Definition connect (this : WebSocketClient) : WebSocketClient * list event :=
  if negb (_validateApiKey this) then
    (this, [CallbackOnError InvalidApiKey; Emit_error InvalidApiKey;
            PromiseReject InvalidApiKey])
  else (set_socket this (Some (mkWebSocket CONNECTING)), [SocketNew]).

(** The [options] record built in [socket.onopen]; [JSON.stringify] drops
    the properties that are [undefined]. *)
Definition handshake_options (this : WebSocketClient) : list (string * value) :=
  [("uid", VStr (uuid this));
   ("authorization",
     match apiKey this with
     | VStr key => if truthy (apiKey this) then VStr ("Bearer " ++ key) else VUndefined
     | _ => VUndefined
     end);
   ("use_vad", VBool (useVad this))]%string
  ++ (if nullish (sourceLanguage this) then []
      else [("sourceLanguage"%string, sourceLanguage this)])
  ++ (if nullish (targetLanguage this) then []
      else [("targetLanguage"%string, targetLanguage this)])
  ++ (if nullish (saveToDashboard this) then []
      else [("saveToDashboard"%string, saveToDashboard this)])
  ++ [("translationEnabled"%string, VBool (negb (nullish (targetLanguage this))));
      ("voiceOverEnabled"%string, VBool (negb (nullish (voiceId this))))]
  ++ (if nullish (voiceId this) then [] else [("voiceId"%string, voiceId this)]).

(** [socket.onopen]: the socket is open by now; the configuration record is
    sent and the connection timer is armed. *)
Definition socket_onopen (this : WebSocketClient) : WebSocketClient * list event :=
  (arm_connectionTimer (set_socket this (Some (mkWebSocket OPEN))),
   [SocketSend (ConfigFrame (handshake_options this)); PromiseResolve]).

(** [socket.onclose]. *)
Definition socket_onclose (this : WebSocketClient) : WebSocketClient * list event :=
  (set_socket this (Some (mkWebSocket CLOSED)), [CallbackOnClose]).

(** [socket.onerror]. *)
Definition socket_onerror (this : WebSocketClient) : WebSocketClient * list event :=
  (this, [CallbackOnError SocketError; PromiseReject SocketError]).

(** The callback given to [setTimeout] in [socket.onopen], run by the event
    loop when the pending timer [t] expires; an expired timer is no longer
    pending. *)
Definition connectionTimer_fired (this : WebSocketClient) (t : nat)
    : WebSocketClient * list event :=
  let this0 :=
    mkClient (uuid this) (sourceLanguage this) (targetLanguage this) (apiKey this)
      (saveToDashboard this) (voiceId this) (useVad this)
      (socket this) (isServerReady this) (connectionTimer this)
      (timers this ∖ {[ t ]}) (next_timer this) in
  if negb (isServerReady this0) then
    let (this1, log) := close this0 in
    (this1,
     [CallbackOnError ConnectionTimeout; Emit_error ConnectionTimeout]
     ++ log ++ [PromiseReject ConnectionTimeout])
  else (this0, []).

(** [sendAudio(audioData)]. *)
Definition sendAudio (this : WebSocketClient) (audioData : list Q)
    : WebSocketClient * list event :=
  match socket this with
  | Some s =>
      match readyState s with
      | OPEN =>
          if isServerReady this then (this, [SocketSend (AudioFrame audioData)])
          else (this, [])
      | _ => (this, [])
      end
  | None => (this, [])
  end.

(** Messages delivered in socket order. *)
Fixpoint handle_all (this : WebSocketClient) (messages : list MessageData)
    : WebSocketClient * list event :=
  match messages with
  | [] => (this, [])
  | m :: rest =>
      let (this1, log1) := _handleMessage this m in
      let (this2, log2) := handle_all this1 rest in
      (this2, log1 ++ log2)
  end.

End WS.

(** ** Part 3: capture sources and [MaestraClient] *)

Module Capture.

(** What a capture source does to the outside: calls of its callbacks and
    of the stream, process or device it owns. *)
Inductive effect :=
| OnAudio (audioData : list Q)       (* this.onAudioCallback(...) *)
| OnError                            (* this.onErrorCallback(...) *)
| StreamEnd                          (* audioStream.end() *)
| Kill_SIGTERM                       (* ffmpegProcess.kill('SIGTERM') *)
| StopRecording                      (* microphone.stopRecording() *)
| ResamplerDestroy.                  (* resampler.destroy() *)

(** [StreamInputProcessor]: [audioStream] is [null] or a PassThrough. *)
Record StreamInputProcessor := mkStreamInput {
  si_isProcessing : bool;
  si_audioStream : bool
}.

(** [FfmpegProcessor] and its subclasses ([FileProcessor], [HlsProcessor],
    [RtmpsProcessor], [RtspProcessor], [SrtProcessor]), which only override
    [_getInputOptions]: [ffmpegProcess] is [null] or a command. *)
Record FfmpegProcessor := mkFfmpeg {
  ff_isProcessing : bool;
  ff_ffmpegProcess : bool
}.

(** [MicrophoneProcessor]: [microphone] (with [micStream]) and [resampler]
    are [null] or set. *)
Record MicrophoneProcessor := mkMicrophone {
  mic_isProcessing : bool;
  mic_microphone : bool;
  mic_resampler : bool
}.

Inductive processor :=
| StreamInput (p : StreamInputProcessor)
| Ffmpeg (p : FfmpegProcessor)
| Microphone (p : MicrophoneProcessor).

(** [start()] of each capture source when the stream, the ffmpeg command
    or the microphone and its converter are obtained without error. *)
Definition start (p : processor) : processor :=
  match p with
  | StreamInput s => if si_isProcessing s then p else StreamInput (mkStreamInput true true)
  | Ffmpeg f => if ff_isProcessing f then p else Ffmpeg (mkFfmpeg true true)
  | Microphone m =>
      if mic_isProcessing m then p else Microphone (mkMicrophone true true true)
  end.

(** [stop()] of each capture source. *)
Definition stop (p : processor) : processor * list effect :=
  match p with
  | StreamInput s =>
      (StreamInput (mkStreamInput false false),
       if si_audioStream s then [StreamEnd] else [])
  | Ffmpeg f =>
      (Ffmpeg (mkFfmpeg false false),
       if ff_ffmpegProcess f then [Kill_SIGTERM] else [])
  | Microphone m =>
      (Microphone (mkMicrophone false false false),
       (if mic_microphone m then [StopRecording] else [])
       ++ (if mic_resampler m then [ResamplerDestroy] else []))
  end.

(** [StreamInputProcessor.pushAudio(audioChunk)]: the chunk pushed into the
    PassThrough comes out of its ['data'] handler, which calls
    [onAudioCallback]. *)
Definition pushAudio (s : StreamInputProcessor) (audioChunk : list Q) : list effect :=
  if si_isProcessing s && si_audioStream s then [OnAudio audioChunk] else [].

(** A chunk of audio reaching the capture source [p] from outside: a call
    of [pushAudio], a chunk on the pipe of the ffmpeg process (its ['data']
    handler calls [onAudioCallback] unconditionally), a chunk of the
    microphone stream ([this.resampler.simple] throws when [resampler] is
    [null], and the [catch] calls [onErrorCallback]). [resampled] stands for
    the result of the external libsamplerate converter. *)
Definition chunk_arrives (resampled : list Q -> list Q) (p : processor)
    (chunk : list Q) : list effect :=
  match p with
  | StreamInput s => pushAudio s chunk
  | Ffmpeg _ => [OnAudio chunk]
  | Microphone m => if mic_resampler m then [OnAudio (resampled chunk)] else [OnError]
  end.

End Capture.

Module Maestra.
Import JS WS.

(** The events [MaestraClient] emits. *)
Inductive maestra_event :=
| ready
| error (e : WS.error)
| disconnect
| language_detected (language : value)
| interim_transcription (segments : list value)
| interim_translation (segments : value)
| finalized_transcription (segment : value)
| finalized_translation (segment : value)
| finalized_segment_audio_url (audioURL : value)
| transcription_started
| transcription_stopped.

(** The listeners installed by [_initWebSocketClient] (the playback started
    for an audio URL is left out). *)
Definition forward (e : WS.event) : list maestra_event :=
  match e with
  | Emit_ready => [ready]
  | Emit_error err => [error err]
  | Emit_disconnect => [disconnect]
  | Emit_languageDetected l => [language_detected l]
  | Emit_segments s => [interim_transcription s]
  | Emit_translatedSegments s => [interim_translation s]
  | Emit_finalizedSegment s => [finalized_transcription s]
  | Emit_finalizedTranslatedSegment s => [finalized_translation s]
  | Emit_finalizedSegmentAudioURL u => [finalized_segment_audio_url u]
  | _ => []
  end.

(** The log of a [MaestraClient]: its own events, what its socket client
    logs, what its capture source does. *)
Inductive entry :=
| Emit (e : maestra_event)
| Ws (e : WS.event)
| Cap (e : Capture.effect).

Record MaestraClient := mkMaestra {
  websocketClient : option WebSocketClient;
  streamProcessor : option Capture.processor;
  isTranscribing : bool
}.

(** An inbound socket message seen at the level of [MaestraClient]: the
    socket client handles it and its events are re-emitted. *)
Definition on_message (this : MaestraClient) (m : MessageData)
    : MaestraClient * list maestra_event :=
  match websocketClient this with
  | Some ws =>
      let (ws1, log) := _handleMessage ws m in
      (mkMaestra (Some ws1) (streamProcessor this) (isTranscribing this),
       flat_map forward log)
  | None => (this, [])
  end.

(** The [onAudioCallback] that [transcribe] installs on the capture
    source. *)
Definition onAudioCallback (this : MaestraClient) (audioData : list Q)
    : MaestraClient * list entry :=
  match websocketClient this with
  | Some ws =>
      let (ws1, log) := sendAudio ws audioData in
      (mkMaestra (Some ws1) (streamProcessor this) (isTranscribing this), map Ws log)
  | None => (this, [])
  end.

(** [transcribe(streamProcessor)]: the callbacks are installed on the
    capture source ([onAudioCallback] above) and the source is started. *)
Definition transcribe (this : MaestraClient) (p : Capture.processor)
    : MaestraClient * list entry :=
  if isTranscribing this then (this, [Emit (error AlreadyTranscribing)])
  else
    match websocketClient this with
    | Some ws =>
        if isServerReady ws
        then (mkMaestra (Some ws) (Some (Capture.start p)) true,
              [Emit transcription_started])
        else (this, [Emit (error NotConnected)])
    | None => (this, [Emit (error NotConnected)])
    end.

(** [stop()]. *)
Definition stop (this : MaestraClient) : MaestraClient * list entry :=
  let log1 :=
    match streamProcessor this with
    | Some p => map Cap (snd (Capture.stop p))
    | None => []
    end in
  let log2 :=
    match websocketClient this with
    | Some ws => map Ws (snd (close ws))
    | None => []
    end in
  (mkMaestra None None false, log1 ++ log2 ++ [Emit transcription_stopped]).

(** What a chunk of audio reaching the capture source [p] causes: the
    effects of the source, each call of [onAudioCallback] being followed by
    what the installed callback does. *)
Fixpoint run_effects (this : MaestraClient) (effects : list Capture.effect)
    : MaestraClient * list entry :=
  match effects with
  | [] => (this, [])
  | e :: rest =>
      let (this1, log1) :=
        match e with
        | Capture.OnAudio audioData => onAudioCallback this audioData
        | _ => (this, [])
        end in
      let (this2, log2) := run_effects this1 rest in
      (this2, Cap e :: log1 ++ log2)
  end.

Definition deliver (resampled : list Q -> list Q) (this : MaestraClient)
    (p : Capture.processor) (chunk : list Q) : MaestraClient * list entry :=
  run_effects this (Capture.chunk_arrives resampled p chunk).

End Maestra.

(** ** Sample data used by the concrete checks *)

Module Examples.
Import JS WS.

Definition obj (fields : list (string * value)) : value := VObj fields.

(** A client with a valid key, as [new WebSocketClient(host, port,
    {uuid: "me", apiKey: "key", language: null})] builds it. *)
Definition fresh_client : WebSocketClient :=
  mkClient "me" VNull VUndefined (VStr "key") VUndefined VUndefined true
    None false None ∅ 0.

(** The same client after [connect()] and the opening of the socket. *)
Definition connected_client : WebSocketClient :=
  fst (socket_onopen (fst (connect fresh_client))).

(** ... and after a first valid message: the server is ready. *)
Definition ready_client : WebSocketClient :=
  fst (_handleMessage connected_client (Text (Some (obj [("message", VStr "SERVER_READY")])))).

Definition msg_disconnect : value := obj [("message", VStr "DISCONNECT")].

Definition msg_wait : value :=
  obj [("status", VStr "WAIT"); ("message", VStr "Server is full")].



Definition msg_language_disconnect : value :=
  obj [("language", VStr "en"); ("message", VStr "DISCONNECT")].

Definition msg_invalid_token : value :=
  obj [("status", VStr "ERROR"); ("status_code", VNum 401);
       ("message", VStr "invalid token")].

Definition msg_internal_failure : value :=
  obj [("status", VStr "ERROR"); ("message", VStr "internal failure")].

(** A hard error whose status code is 401 and whose text is a number. *)
Definition msg_401_numeric_text : value :=
  obj [("status", VStr "ERROR"); ("status_code", VNum 401); ("message", VNum 5)].

(** A message with an [error] field that names a keyword, and status
    "WAIT". *)
Definition msg_wait_unauthorized : value :=
  obj [("status", VStr "WAIT"); ("error", VStr "unauthorized")].

(** A hard error with a keyword in capitals and no status code. *)
Definition msg_invalid_api_key : value :=
  obj [("status", VStr "ERROR"); ("message", VStr "Invalid API Key supplied")].

(** A hard error with the status code 403 and no keyword. *)
Definition msg_403 : value :=
  obj [("status", VStr "ERROR"); ("status_code", VNum 403); ("message", VStr "nope")].

Definition msg_server_ready : value := obj [("message", VStr "SERVER_READY")].

(** The ready client after the peer has closed the socket
    ([socket.onclose]). *)
Definition dropped_client : WebSocketClient := fst (socket_onclose ready_client).

(** The connected client after a WAIT message and a second [connect()]
    whose socket has opened. *)
Definition reconnected_client : WebSocketClient :=
  fst (socket_onopen
         (fst (connect (fst (_handleMessage connected_client (Text (Some msg_wait))))))).

Definition seg (text : string) (completed : value) : value :=
  obj [("text", VStr text); ("completed", completed)].

Definition msg_segments_hi : value :=
  obj [("segments", VArr [seg "hi" (VBool false)])].

Definition msg_segments_mixed : value :=
  obj [("segments",
        VArr [seg "done" (VBool true); seg "now" (VBool false);
              obj [("text", VStr "untagged")]])].

Definition msg_segments_all_completed : value :=
  obj [("segments", VArr [seg "done" (VBool true); obj [("text", VStr "untagged")]])].

End Examples.

(** ** Predicates and measures used in the statements *)

Module ClientSpec.
Import JS WS.

(** The message is not dropped by the [uid] check. *)
Definition addressed (this : WebSocketClient) (data : value) : bool :=
  negb (truthy (field data "uid") && negb (is_string (field data "uid") (uuid this))).

(** The hard-error test of [_handleMessage]. *)
Definition hard_error (data : value) : bool :=
  is_string (field data "status") "ERROR" || truthy (field data "error").

(** [data.message || data.error || 'Unknown error']. *)
Definition errorMessage (data : value) : value :=
  or_else (or_else (field data "message") (field data "error")) (VStr "Unknown error").

(** The condition under which [sendAudio] transmits. *)
Definition can_send (this : WebSocketClient) : Prop :=
  exists s, socket this = Some s /\ readyState s = OPEN /\ isServerReady this = true.

(** The capital of a letter; any other character is left as it is. *)
Definition upper_ascii (c : ascii) : ascii :=
  let n := nat_of_ascii c in
  if (97 <=? n)%nat && (n <=? 122)%nat then ascii_of_nat (n - 32) else c.

(** The same character, up to the case of a letter. *)
Definition same_letter (c d : ascii) : bool := Ascii.eqb (upper_ascii c) (upper_ascii d).

(** The same string, up to the case of its letters. *)
Fixpoint same_ignoring_case (a b : string) : bool :=
  match a, b with
  | EmptyString, EmptyString => true
  | String c a', String d b' => same_letter c d && same_ignoring_case a' b'
  | _, _ => false
  end.

(** The text contains the keyword, case-insensitively: a part of the text
    is the keyword up to the case of its letters. *)
Definition contains_ignoring_case (text keyword : string) : Prop :=
  exists pre mid post,
    text = (pre ++ mid ++ post)%string /\ same_ignoring_case mid keyword = true.

(** The [status_code] of the message is the number [code]. *)
Definition status_code_is (data : value) (code : Z) : Prop :=
  exists q, field data "status_code" = VNum q /\ (q == inject_Z code)%Q.

(** The specification's authentication class: the text of the message
    contains an authentication keyword, case-insensitively, or the status
    code is 401 or 403. *)
Definition authentication_class (text : string) (data : value) : Prop :=
  (exists keyword, In keyword authKeywords /\ contains_ignoring_case text keyword)
  \/ status_code_is data 401
  \/ status_code_is data 403.

(** Case analysis on the tests of [_handleMessage], in program order. *)
Ltac handle_cases :=
  repeat match goal with
         | |- context [if ?b then _ else _] => destruct b eqn:?
         | |- context [match ?x with _ => _ end] => destruct x eqn:?
         | H : context [if ?b then _ else _] |- _ => destruct b eqn:?
         | H : context [match ?x with _ => _ end] |- _ => destruct x eqn:?
         end.

Definition interim (segment : value) : bool := is_false (field segment "completed").

Definition is_segments_event (e : event) : bool :=
  match e with
  | Emit_segments _ => true
  | _ => false
  end.

Definition is_interim_transcription (e : Maestra.maestra_event) : bool :=
  match e with
  | Maestra.interim_transcription _ => true
  | _ => false
  end.

(** The only timer that can be pending is the one the client holds. *)
Definition sole_timer (this : WebSocketClient) : Prop :=
  timers this ⊆ match connectionTimer this with
                | Some t => {[ t ]}
                | None => ∅
                end.

Definition is_ready_event (e : event) : bool :=
  match e with
  | Emit_ready => true
  | _ => false
  end.

(** Number of ['ready'] events in a log. *)
Definition count_ready (log : list event) : nat :=
  length (List.filter is_ready_event log).

(** A message addressed to the client [uuid] that is neither a WAIT status
    nor a hard error. *)
Definition valid_message (uuid : string) (m : MessageData) : bool :=
  match m with
  | Text (Some data) =>
      negb (nullish data)
      && negb (truthy (field data "uid") && negb (is_string (field data "uid") uuid))
      && negb (is_string (field data "status") "WAIT")
      && negb (hard_error data)
  | _ => false
  end.

End ClientSpec.

(** ** Part 4: constructors, connection runs, PCM conversion *)

Module Construction.
Import JS WS Maestra.

(** [k in options]: the object has the property, whatever its value. *)
Fixpoint has_own (fields : list (string * value)) (k : string) : bool :=
  match fields with
  | [] => false
  | (k', _) :: rest => String.eqb k' k || has_own rest k
  end.

(** [v !== undefined ? v : d]. *)
Definition unless_undefined (v d : value) : value :=
  match v with
  | VUndefined => d
  | _ => v
  end.

(** [new WebSocketClient(host, port, options)], for the fields of the
    record above; [generated] is what [uuidv4()] returns. [None]: the
    client is outside the record type ([uuid] is truthy and not a string,
    or [useVad] is neither [undefined] nor a boolean). *)
Definition WebSocketClient_new (options : list (string * value)) (generated : string)
    : option WebSocketClient :=
  match or_else (assoc options "uuid") (VStr generated),
        unless_undefined (assoc options "useVad") (VBool true) with
  | VStr id, VBool vad =>
      Some (mkClient id
              (or_else (assoc options "sourceLanguage") (assoc options "language"))
              (assoc options "targetLanguage")
              (assoc options "apiKey")
              (assoc options "saveToDashboard")
              (assoc options "voiceId")
              vad None false None ∅ 0%nat)
  | _, _ => None
  end.

(** [this.options] as the constructor of [MaestraClient] builds it: the
    computed defaults, then every own property of [options] on top of them
    ([...options]). *)
Definition MaestraClient_options (options : list (string * value))
    : list (string * value) :=
  options
  ++ [("host", or_else (assoc options "host") (VStr "wlive2.maestra.ai"));
      ("port", or_else (assoc options "port") (VNum 443));
      ("secure", unless_undefined (assoc options "secure") (VBool true));
      ("sourceLanguage",
        or_else (or_else (assoc options "sourceLanguage") (assoc options "language")) VNull);
      ("targetLanguage", or_else (assoc options "targetLanguage") VNull);
      ("useVad", unless_undefined (assoc options "useVad") (VBool true));
      ("apiKey", assoc options "apiKey");
      ("saveToDashboard", unless_undefined (assoc options "saveToDashboard") (VBool false));
      ("voiceId", or_else (assoc options "voiceId") VNull);
      ("autoVoiceCloning",
        unless_undefined (assoc options "autoVoiceCloning") (VBool false))]%string.

(** The options object [_initWebSocketClient] passes to
    [new WebSocketClient]. *)
Definition websocket_options (this_options : list (string * value))
    : list (string * value) :=
  [("secure", assoc this_options "secure");
   ("sourceLanguage", assoc this_options "sourceLanguage");
   ("apiKey", assoc this_options "apiKey");
   ("saveToDashboard", assoc this_options "saveToDashboard");
   ("targetLanguage", assoc this_options "targetLanguage");
   ("voiceId", assoc this_options "voiceId");
   ("autoVoiceCloning", assoc this_options "autoVoiceCloning");
   ("connectionTimeout", assoc this_options "connectionTimeout")]%string.

(** [new MaestraClient(options)], the fields of the record above. *)
Definition MaestraClient_new : MaestraClient := mkMaestra None None false.

(** [_initWebSocketClient()]. *)
Definition _initWebSocketClient (this_options : list (string * value))
    (generated : string) (this : MaestraClient) : option MaestraClient :=
  match websocketClient this with
  | Some _ => Some this
  | None =>
      match WebSocketClient_new (websocket_options this_options) generated with
      | Some ws => Some (mkMaestra (Some ws) (streamProcessor this) (isTranscribing this))
      | None => None
      end
  end.

(** How the promise of [WebSocketClient.connect] is settled by a log: by
    its first [resolve] or [reject]. *)
Fixpoint settlement (log : list WS.event) : option (option WS.error) :=
  match log with
  | [] => None
  | PromiseResolve :: _ => Some None
  | PromiseReject e :: _ => Some (Some e)
  | _ :: rest => settlement rest
  end.

(** [connect()] of [MaestraClient]: what [WebSocketClient.connect] emits
    is re-emitted by the listeners, and a rejection of its promise is
    emitted as ['error'] by the [catch] handler. *)
Definition connect (this_options : list (string * value)) (generated : string)
    (this : MaestraClient) : option (MaestraClient * list maestra_event) :=
  match _initWebSocketClient this_options generated this with
  | None => None
  | Some this1 =>
      match websocketClient this1 with
      | None => Some (this1, [])
      | Some ws =>
          let (ws1, log) := WS.connect ws in
          Some (mkMaestra (Some ws1) (streamProcessor this1) (isTranscribing this1),
                flat_map forward log
                ++ match settlement log with
                   | Some (Some e) => [error e]
                   | _ => []
                   end)
      end
  end.

End Construction.

Module Run.
Import JS WS.

(** What can happen to a socket client between two returns to the event
    loop. *)
Inductive input :=
| Opened                            (* socket.onopen *)
| Message (m : MessageData)         (* socket.onmessage *)
| Errored                           (* socket.onerror *)
| Closed                            (* socket.onclose *)
| Expires (t : nat)                 (* the timer [t] expires *)
| CallSendAudio (audioData : list Q)
| CallClose.

(** A timer that is not pending does not expire. *)
Definition step (this : WebSocketClient) (i : input) : WebSocketClient * list event :=
  match i with
  | Opened => socket_onopen this
  | Message m => _handleMessage this m
  | Errored => socket_onerror this
  | Closed => socket_onclose this
  | Expires t =>
      if bool_decide (t ∈ timers this) then connectionTimer_fired this t else (this, [])
  | CallSendAudio audioData => sendAudio this audioData
  | CallClose => close this
  end.

Fixpoint run (this : WebSocketClient) (inputs : list input)
    : WebSocketClient * list event :=
  match inputs with
  | [] => (this, [])
  | i :: rest =>
      let (this1, log1) := step this i in
      let (this2, log2) := run this1 rest in
      (this2, log1 ++ log2)
  end.

Definition is_opened (i : input) : bool :=
  match i with
  | Opened => true
  | _ => false
  end.

Definition is_timeout_event (e : event) : bool :=
  match e with
  | Emit_error ConnectionTimeout => true
  | _ => false
  end.

Definition is_languageDetected (e : event) : bool :=
  match e with
  | Emit_languageDetected _ => true
  | _ => false
  end.

Definition is_send (e : event) : bool :=
  match e with
  | SocketSend (AudioFrame _) => true
  | _ => false
  end.

End Run.

Module Pcm.

Local Open Scope Z_scope.

(** [buffer.readInt16LE(offset)]: the two bytes at [offset], low byte
    first, as a signed 16-bit integer; [None] is the RangeError of an
    offset that leaves less than two bytes. *)
Definition readInt16LE (buffer : list Byte.byte) (offset : nat) : option Z :=
  match nth_error buffer offset, nth_error buffer (S offset) with
  | Some lo, Some hi =>
      let u := Z.of_N (Byte.to_N lo) + 256 * Z.of_N (Byte.to_N hi) in
      Some (if u <? 32768 then u else u - 65536)
  | _, _ => None
  end.

(** The [for] loop of the transform of [MicrophoneProcessor]:
    [pcmData[i] = buffer.readInt16LE(i * 2) / 32768.0] for the indices of
    [indices]. *)
Fixpoint convert (buffer : list Byte.byte) (indices : list nat) : option (list Q) :=
  match indices with
  | [] => Some []
  | i :: rest =>
      match readInt16LE buffer (i * 2), convert buffer rest with
      | Some int16, Some tail => Some ((inject_Z int16 / 32768)%Q :: tail)
      | _, _ => None
      end
  end.

(** The conversion of a chunk: [new Float32Array(buffer.length / 2)] has
    the integer part of [buffer.length / 2] as its length. *)
Definition toPcm (buffer : list Byte.byte) : option (list Q) :=
  convert buffer (seq 0 (length buffer / 2)).

End Pcm.

(** ** The caption formatter of [VmixProcessor] *)

Module Vmix.
Import JS.

(** The one-character string ["\n"] that marks a line break among the
    words. *)
Definition LF : string := String (ascii_of_nat 10) EmptyString.

(** [s.split(" ")]. *)
Fixpoint split_space (s : string) : list string :=
  match s with
  | EmptyString => [EmptyString]
  | String c rest =>
      if Ascii.eqb c " " then EmptyString :: split_space rest
      else
        match split_space rest with
        | w :: ws => String c w :: ws
        | [] => [String c EmptyString]
        end
  end.

(** [a.join(" ")]. *)
Definition join_space (a : list string) : string := String.concat " " a.

(** The fields of a [VmixProcessor] that the handlers and the formatter
    read and write; [maxLineLength] is [this.options.maxLineLength], a
    number. *)
Record VmixProcessor := mkVmix {
  maxLineLength : Q;
  transcriptBuffer : list string;
  currentTranscriptTimestamp : Q;
  transcriptCurrentlyDisplayed : list string
}.

Definition set_transcriptBuffer (this : VmixProcessor) (b : list string) : VmixProcessor :=
  mkVmix (maxLineLength this) b (currentTranscriptTimestamp this)
    (transcriptCurrentlyDisplayed this).

Definition set_currentTranscriptTimestamp (this : VmixProcessor) (t : Q) : VmixProcessor :=
  mkVmix (maxLineLength this) (transcriptBuffer this) t
    (transcriptCurrentlyDisplayed this).

Definition set_transcriptCurrentlyDisplayed (this : VmixProcessor) (d : list string)
    : VmixProcessor :=
  mkVmix (maxLineLength this) (transcriptBuffer this) (currentTranscriptTimestamp this) d.

(** How a handler ends: normally, or with a TypeError thrown to the
    emitter; either way with the fields as the handler left them. *)
Inductive ending :=
| Normal (this : VmixProcessor)
| Abrupt (this : VmixProcessor).

Definition state_of (e : ending) : VmixProcessor :=
  match e with
  | Normal this | Abrupt this => this
  end.

(** [v.length]. *)
Definition length_of (v : value) : value :=
  match v with
  | VArr l => VNum (inject_Z (Z.of_nat (length l)))
  | VStr s => VNum (inject_Z (Z.of_nat (String.length s)))
  | _ => field v "length"
  end.

Section Handlers.

(** [Number(v)], with [None] for [NaN]. The conversion of strings to
    numbers is not modelled: the handlers are given for any such
    function. *)
Variable Number : value -> option Q.

(** [Number(v) > t]. *)
Definition later (v : value) (t : Q) : bool :=
  match Number v with
  | Some q => Resampler.Qltb t q
  | None => false
  end.

(** [_handleFinalizedTimestamp(segment)]. *)
Definition _handleFinalizedTimestamp (this : VmixProcessor) (segment : value) : ending :=
  if nullish segment then Abrupt this                       (* segment.end *)
  else if later (field segment "end") (currentTranscriptTimestamp this) then
    match Number (field segment "end") with
    | Some e => Normal (set_currentTranscriptTimestamp this e)
    | None => Normal this
    end
  else Normal this.

(** [this.transcriptBuffer.push(...text.split(" "))], the same as pushing
    the words one by one; a [text] that is not a string has no [split]. *)
Definition push_words (this : VmixProcessor) (text : value) : ending :=
  match text with
  | VStr s => Normal (set_transcriptBuffer this (transcriptBuffer this ++ split_space s))
  | _ => Abrupt this
  end.

(** [segment.forEach((s) => { ... })] of [_handleTranscription]. *)
Fixpoint forEach_segment (this : VmixProcessor) (segment : list value) : ending :=
  match segment with
  | [] => Normal this
  | s :: rest =>
      if nullish s then Abrupt this                         (* s.start *)
      else if later (field s "start") (currentTranscriptTimestamp this) then
        match push_words this (field s "text") with
        | Normal this1 => forEach_segment this1 rest
        | Abrupt this1 => Abrupt this1
        end
      else forEach_segment this rest
  end.

(** [_handleTranscription(segment)]. *)
Definition _handleTranscription (this : VmixProcessor) (segment : value) : ending :=
  if truthy segment && truthy (field segment "text") then
    if later (field segment "end") (currentTranscriptTimestamp this) then
      match Number (field segment "end") with
      | Some e => push_words (set_currentTranscriptTimestamp this e) (field segment "text")
      | None => Normal this
      end
    else Normal this
  else if truthy segment && truthy (length_of segment) then
    match segment with
    | VArr l => forEach_segment this l
    | _ => Abrupt this                     (* segment.forEach is not a function *)
    end
  else Normal this.

(** A call of one of the two listeners. *)
Inductive call :=
| Transcription (segment : value)
| FinalizedTimestamp (segment : value).

Definition handle (this : VmixProcessor) (c : call) : VmixProcessor :=
  match c with
  | Transcription segment => state_of (_handleTranscription this segment)
  | FinalizedTimestamp segment => state_of (_handleFinalizedTimestamp this segment)
  end.

End Handlers.

(** [word === "\n"]. *)
Definition is_break (word : string) : bool := String.eqb word LF.

(** [a.indexOf("\n")], [None] for [-1]. *)
Fixpoint indexOf (a : list string) : option nat :=
  match a with
  | [] => None
  | word :: rest =>
      if is_break word then Some 0%nat
      else match indexOf rest with
           | Some i => Some (S i)
           | None => None
           end
  end.

(** [a.lastIndexOf("\n")], [None] for [-1]. *)
Fixpoint lastIndexOf (a : list string) : option nat :=
  match a with
  | [] => None
  | word :: rest =>
      match lastIndexOf rest with
      | Some i => Some (S i)
      | None => if is_break word then Some 0%nat else None
      end
  end.

(** [a.slice(first, last)]. *)
Definition slice (a : list string) (first last : nat) : list string :=
  skipn first (firstn last a).

(** [a.splice(i, 0, word)] for [i <= a.length]. *)
Definition splice_insert (a : list string) (i : nat) (word : string) : list string :=
  firstn i a ++ word :: skipn i a.

(** [line.length > maxLineLength]. *)
Definition too_long (line : string) (maxLineLength : Q) : bool :=
  Resampler.Qltb maxLineLength (inject_Z (Z.of_nat (String.length line))).

(** The line wrapping loop, over the values [i] takes: the array is only
    changed by the [splice] that is followed by [break]. *)
Fixpoint wrap_for (maxLineLength : Q) (a : list string) (first : nat) (indices : list nat)
    : list string :=
  match indices with
  | [] => a
  | i :: rest =>
      let line := join_space (slice a first (i + 1)) in
      if too_long line maxLineLength then splice_insert a i LF
      else wrap_for maxLineLength a first rest
  end.

Definition firstWordAfterLastLineBreakIndex (a : list string) : nat :=
  match lastIndexOf a with
  | Some lastLineBreakIndex => (lastLineBreakIndex + 1)%nat
  | None => 0%nat
  end.

(** "Line wrapping logic". *)
Definition wrap (maxLineLength : Q) (a : list string) : list string :=
  let first := firstWordAfterLastLineBreakIndex a in
  wrap_for maxLineLength a first (seq first (length a - first)).

(** "Enforce two-line limit". *)
Definition two_lines (a : list string) : list string :=
  let lineBreakCount := length (List.filter is_break a) in
  if (2 <=? lineBreakCount)%nat then
    match indexOf a with
    | Some firstLineBreakIndex => skipn (firstLineBreakIndex + 1) a
    | None => a
    end
  else a.

(** [_sendAndFormatCaptions()] up to the point where the caption string is
    built from [transcriptCurrentlyDisplayed] and sent: the buffered words
    are moved to the displayed ones, which are wrapped and cut to two
    lines. *)
Definition _sendAndFormatCaptions (this : VmixProcessor) : VmixProcessor :=
  let this1 :=
    if (0 <? length (transcriptBuffer this))%nat then
      set_transcriptBuffer
        (set_transcriptCurrentlyDisplayed this
           (transcriptCurrentlyDisplayed this ++ transcriptBuffer this))
        []
    else this in
  set_transcriptCurrentlyDisplayed this1
    (two_lines (wrap (maxLineLength this1) (transcriptCurrentlyDisplayed this1))).

(** Number of line breaks among the words. *)
Definition lineBreakCount (a : list string) : nat := length (List.filter is_break a).

(** The words without the line breaks. *)
Definition words (a : list string) : list string :=
  List.filter (fun word => negb (is_break word)) a.

(** The words of the line that is still open: those after the last line
    break. *)
Definition open_line (a : list string) : list string :=
  skipn (firstWordAfterLastLineBreakIndex a) a.

(** The words before the open line, with the line break that ends them. *)
Definition closed_lines (a : list string) : list string :=
  firstn (firstWordAfterLastLineBreakIndex a) a.

(** The words [ws] are buffered, then the formatter runs. *)
Definition push_then_format (this : VmixProcessor) (ws : list string) : VmixProcessor :=
  _sendAndFormatCaptions (set_transcriptBuffer this (transcriptBuffer this ++ ws)).

(** A segment object whose [text] is a string. *)
Definition has_text (s : value) : bool :=
  match s with
  | VObj fields => match assoc fields "text" with VStr _ => true | _ => false end
  | _ => false
  end.

Definition text_words (s : value) : list string :=
  match field s "text" with
  | VStr t => split_space t
  | _ => []
  end.

End Vmix.

(** ** Further predicates used in the statements *)

Module MoreSpec.
Import JS WS.

(** The first sample of a buffer is zero (or the buffer is empty). *)
Definition head_zero (result : list Q) : Prop :=
  match result with
  | [] => True
  | h :: _ => (h == 0)%Q
  end.

(** Number of entries of a log that satisfy [f]. *)
Definition count (f : event -> bool) (log : list event) : nat :=
  length (List.filter f log).



(** A JSON message that carries the [uid] of another client. *)
Definition foreign (this : WebSocketClient) (m : MessageData) : bool :=
  match m with
  | Text (Some data) =>
      negb (nullish data)
      && truthy (field data "uid")
      && negb (is_string (field data "uid") (uuid this))
  | _ => false
  end.

(** The events of the part of [_handleMessage] after the disconnect
    check. *)
Definition is_result_event (e : event) : bool :=
  match e with
  | Emit_segments _ | Emit_translatedSegments _ | Emit_finalizedSegment _
  | Emit_finalizedTranslatedSegment _ | Emit_finalizedSegmentAudioURL _
  | CallbackOnTranscription _ | Emit_transcription _ => true
  | _ => false
  end.

(** The errors [_handleMessage] reports. *)
Definition is_message_error (e : error) : bool :=
  match e with
  | SyntaxError | TypeError | WaitError _ | AuthenticationError | ConnectionFailed _ => true
  | _ => false
  end.

(** What handling one message can come to: the branches of
    [_handleMessage], with the client it leaves and the log it writes. *)
Inductive outcome (this : WebSocketClient) : WebSocketClient -> list event -> Prop :=
| O_binary : outcome this this [Emit_binaryData]
| O_ignored : outcome this this []
| O_error (e : error) (cleared : bool) :
    is_message_error e = true ->
    outcome this (if cleared then clear_connectionTimer this else this)
      [CallbackOnError e; Emit_error e]
| O_ready :
    isServerReady this = false ->
    outcome this (clear_connectionTimer (set_isServerReady this true))
      [CallbackOnReady; Emit_ready]
| O_language (language : value) :
    isServerReady this = true ->
    sourceLanguage this = VNull ->
    truthy language = true ->
    outcome this (set_sourceLanguage this language)
      [CallbackOnLanguageDetected language; Emit_languageDetected language]
| O_disconnect :
    isServerReady this = true ->
    outcome this (fst (close this)) ([CallbackOnClose; Emit_disconnect] ++ snd (close this))
| O_results (log : list event) :
    isServerReady this = true ->
    forallb is_result_event log = true ->
    outcome this this log.



End MoreSpec.

(** ** What happens to a [MaestraClient] that is not connected again *)

Module Session.
Import JS WS Maestra.

(** The calls and events that reach a [MaestraClient] other than
    [connect()] and the opening of a socket. An inbound message is one
    handled by the socket client that the [MaestraClient] holds (after
    [stop()] it holds none; what a socket client that was let go still does
    with its own socket is not followed). A chunk arrives at a capture
    source (in state [p]) that carries the callbacks [transcribe]
    installed. *)
Inductive call :=
| Stop                                                 (* stop() *)
| Transcribe (p : Capture.processor)                   (* transcribe(p) *)
| Inbound (m : MessageData)                            (* socket.onmessage *)
| Chunk (p : Capture.processor) (chunk : list Q).

Definition step (resampled : list Q -> list Q) (this : MaestraClient) (c : call)
    : MaestraClient * list entry :=
  match c with
  | Stop => stop this
  | Transcribe p => transcribe this p
  | Inbound m => let (this1, events) := on_message this m in (this1, map Emit events)
  | Chunk p chunk => deliver resampled this p chunk
  end.

Fixpoint run (resampled : list Q -> list Q) (this : MaestraClient) (calls : list call)
    : MaestraClient * list entry :=
  match calls with
  | [] => (this, [])
  | c :: rest =>
      let (this1, log1) := step resampled this c in
      let (this2, log2) := run resampled this1 rest in
      (this2, log1 ++ log2)
  end.

Definition is_inbound (c : call) : bool :=
  match c with
  | Inbound _ => true
  | _ => false
  end.

(** An audio frame goes out on the socket. *)
Definition is_audio_sent (e : entry) : bool :=
  match e with
  | Ws (SocketSend (AudioFrame _)) => true
  | _ => false
  end.

(** The socket client has no socket, or one that is not open. *)
Definition socket_not_open (ws : WebSocketClient) : Prop :=
  match socket ws with
  | Some s => readyState s <> OPEN
  | None => True
  end.

(** The client has no socket client, or one whose socket is not open. *)
Definition not_open (this : MaestraClient) : Prop :=
  match websocketClient this with
  | Some ws => socket_not_open ws
  | None => True
  end.

End Session.

(** * Properties *)

(** ** The resamplers *)

Module ResamplerFacts.
Import Resampler.
Local Open Scope Q_scope.

Lemma Qltb_lt (x y : Q) : Qltb x y = true <-> x < y.
Proof. unfold Qltb, Qlt. apply Z.ltb_lt. Qed.

Lemma length_array_set (a : list Q) (i : nat) (x : Q) :
  length (array_set a i x) = length a.
Proof.
  revert i; induction a as [|h t IH]; intros [|j]; simpl; auto.
Qed.

Lemma firstn_array_set (a : list Q) (i : nat) (x : Q) :
  (i < length a)%nat ->
  firstn (S i) (array_set a i x) = firstn i a ++ [x].
Proof.
  revert i; induction a as [|h t IH]; intros [|j] Hlt; simpl in *; try lia.
  - reflexivity.
  - f_equal. apply IH. lia.
Qed.

Lemma firstn_write_all (out result : list Q) (cwi : nat) :
  (cwi + length out <= length result)%nat ->
  firstn (cwi + length out) (write_all result cwi out) = firstn cwi result ++ out.
Proof.
  revert result cwi; induction out as [|v r IH]; intros result cwi Hlen; simpl in *.
  - rewrite Nat.add_0_r. symmetry. apply app_nil_r.
  - replace (cwi + S (length r))%nat with (S cwi + length r)%nat by lia.
    rewrite IH by (rewrite length_array_set; lia).
    rewrite firstn_array_set by lia.
    rewrite <- app_assoc. reflexivity.
Qed.

Lemma write_all_app (a b result : list Q) (cwi : nat) :
  write_all result cwi (a ++ b)
  = write_all (write_all result cwi a) (cwi + length a) b.
Proof.
  revert result cwi; induction a as [|v r IH]; intros result cwi; simpl.
  - rewrite Nat.add_0_r. reflexivity.
  - rewrite IH. f_equal. lia.
Qed.

Section Rates.
Variables fromSampleRate toSampleRate : Q.

(** The loop conditions of [process], read on the tick counter. *)
Lemma before_tick_limit (w g : Z) :
  0 < fromSampleRate -> 0 < toSampleRate ->
  Qltb (inject_Z w / toSampleRate) (inject_Z g / fromSampleRate) = true
  <-> (w < tick_limit fromSampleRate toSampleRate g)%Z.
Proof.
  intros Hf Ht. rewrite Qltb_lt. unfold tick_limit.
  set (x := inject_Z g / fromSampleRate * toSampleRate).
  assert (E : inject_Z w / toSampleRate < inject_Z g / fromSampleRate
              <-> inject_Z w < x).
  { unfold x. split; intro H.
    - apply (Qmult_lt_r _ _ toSampleRate Ht) in H.
      assert (E : inject_Z w / toSampleRate * toSampleRate == inject_Z w)
        by (field; lra).
      rewrite E in H. exact H.
    - apply Qlt_shift_div_r; auto. }
  rewrite E. split; intro H.
  - destruct (Z_lt_le_dec w (Qceiling x)) as [|Hle]; auto.
    exfalso. rewrite Zle_Qle in Hle. pose proof (Qle_ceiling x). lra.
  - pose proof (Qceiling_lt x) as Hc.
    assert (Hle : (w <= Qceiling x - 1)%Z) by lia.
    rewrite Zle_Qle in Hle. lra.
Qed.

Lemma tick_limit_mono (g g' : Z) :
  0 < fromSampleRate -> 0 < toSampleRate ->
  (g <= g')%Z -> (tick_limit fromSampleRate toSampleRate g
      <= tick_limit fromSampleRate toSampleRate g')%Z.
Proof.
  intros Hf Ht Hle. unfold tick_limit. apply Qceiling_resp_le.
  apply Qmult_le_compat_r; [|lra].
  apply Qmult_le_compat_r.
  - rewrite <- Zle_Qle. exact Hle.
  - apply Qlt_le_weak, Qinv_lt_0_compat, Hf.
Qed.

Lemma tick_limit_add (g n : Z) :
  0 < fromSampleRate -> 0 < toSampleRate ->
  (tick_limit fromSampleRate toSampleRate (g + n)
   <= tick_limit fromSampleRate toSampleRate g + Qceiling (inject_Z n * (toSampleRate / fromSampleRate)))%Z.
Proof.
  intros Hf Ht. unfold tick_limit.
  set (a := inject_Z g / fromSampleRate * toSampleRate).
  set (b := inject_Z n * (toSampleRate / fromSampleRate)).
  rewrite <- (Qceiling_Z (Qceiling a + Qceiling b)).
  apply Qceiling_resp_le.
  pose proof (Qle_ceiling a). pose proof (Qle_ceiling b).
  assert (E : inject_Z (g + n) / fromSampleRate * toSampleRate == a + b).
  { unfold a, b. rewrite inject_Z_plus. field. lra. }
  rewrite E. rewrite (inject_Z_plus (Qceiling a) (Qceiling b)). lra.
Qed.

Lemma sampleTimeDiff_nonzero :
  0 < fromSampleRate -> Qeq_bool (1 / fromSampleRate) 0 = false.
Proof.
  intros Hf. destruct (Qeq_bool (1 / fromSampleRate) 0) eqn:E; auto.
  apply Qeq_bool_eq in E.
  assert (H : 0 < 1 / fromSampleRate).
  { apply Qlt_shift_div_l; auto. lra. }
  lra.
Qed.

(** The inner loop of [process] ends, after exactly the iterations it was
    given fuel for, and stores the samples of [ticks]. *)
Lemma process_while_ticks (n : nat) (frame : Z) (this : Resampler)
    (result : list Q) (cwi : nat) :
  0 < fromSampleRate -> 0 < toSampleRate ->
  n = Z.to_nat (tick_limit fromSampleRate toSampleRate (frame + 1) - writeIndex this) ->
  process_while fromSampleRate toSampleRate n frame this result cwi
  = Some (mkResampler (lastSample this) (nextSample this)
            (writeIndex this + Z.of_nat n),
          write_all result cwi
            (ticks fromSampleRate toSampleRate n frame
               (lastSample this) (nextSample this) (writeIndex this)),
          (cwi + length (ticks fromSampleRate toSampleRate n frame
                           (lastSample this) (nextSample this) (writeIndex this)))%nat).
Proof.
  intros Hf Ht. revert this result cwi.
  induction n as [|n IH]; intros [l x w] result cwi Hn; simpl in *.
  - destruct (Qltb (inject_Z w / toSampleRate)
                (inject_Z (frame + 1) / fromSampleRate)) eqn:E.
    + apply before_tick_limit in E; auto. lia.
    + rewrite Z.add_0_r, Nat.add_0_r. reflexivity.
  - destruct (Qltb (inject_Z w / toSampleRate)
                (inject_Z (frame + 1) / fromSampleRate)) eqn:E.
    2:{ assert (~ (w < tick_limit fromSampleRate toSampleRate (frame + 1))%Z).
        { intro H. apply before_tick_limit in H; auto. congruence. }
        lia. }
    destruct (Qltb (inject_Z w / toSampleRate) (inject_Z frame / fromSampleRate)).
    + rewrite IH by (simpl; lia). simpl.
      replace (w + 1 + Z.of_nat n)%Z with (w + Z.of_nat (S n))%Z by lia.
      reflexivity.
    + rewrite sampleTimeDiff_nonzero by auto.
      rewrite IH by (simpl; lia). simpl.
      replace (w + 1 + Z.of_nat n)%Z with (w + Z.of_nat (S n))%Z by lia.
      rewrite Nat.add_succ_r. reflexivity.
Qed.

Lemma length_ticks (n : nat) (frame : Z) (l x : Q) (w : Z) :
  0 < fromSampleRate -> 0 < toSampleRate ->
  Z.of_nat (length (ticks fromSampleRate toSampleRate n frame l x w))
  = Z.max 0 (w + Z.of_nat n
             - Z.max w (tick_limit fromSampleRate toSampleRate frame)).
Proof.
  intros Hf Ht. revert w. induction n as [|n IH]; intros w.
  - simpl. lia.
  - cbn [ticks].
    destruct (Qltb (inject_Z w / toSampleRate) (inject_Z frame / fromSampleRate)) eqn:E.
    + apply before_tick_limit in E; auto. rewrite IH. lia.
    + assert (~ (w < tick_limit fromSampleRate toSampleRate frame)%Z).
      { intro H. apply before_tick_limit in H; auto. congruence. }
      cbn [length]. rewrite Nat2Z.inj_succ, IH. lia.
Qed.

(** The [for] loop of [process] stores the samples of [stream]. *)
Lemma process_for_stream (input : list Q) (frame : Z) (this : Resampler)
    (result : list Q) (cwi : nat) :
  0 < fromSampleRate -> 0 < toSampleRate ->
  process_for fromSampleRate toSampleRate input frame this result cwi
  = Some (fst (stream fromSampleRate toSampleRate input frame this),
          write_all result cwi (snd (stream fromSampleRate toSampleRate input frame this)),
          (cwi + length (snd (stream fromSampleRate toSampleRate input frame this)))%nat).
Proof.
  intros Hf Ht. revert frame this result cwi.
  induction input as [|x rest IH]; intros frame this result cwi.
  - simpl. rewrite Nat.add_0_r. reflexivity.
  - cbn [process_for stream fst snd].
    rewrite process_while_ticks by (auto; reflexivity).
    cbn [lastSample nextSample writeIndex].
    fold (ticks_fuel fromSampleRate toSampleRate frame (writeIndex this)).
    rewrite IH. rewrite write_all_app, length_app.
    rewrite Nat.add_assoc. reflexivity.
Qed.

(** How many samples a run of input emits. *)
Lemma length_stream (input : list Q) (frame : Z) (this : Resampler) :
  0 < fromSampleRate -> 0 < toSampleRate ->
  Z.of_nat (length (snd (stream fromSampleRate toSampleRate input frame this)))
  = (Z.max (writeIndex this)
       (tick_limit fromSampleRate toSampleRate (frame + Z.of_nat (length input)))
     - Z.max (writeIndex this) (tick_limit fromSampleRate toSampleRate frame))%Z.
Proof.
  intros Hf Ht. revert frame this.
  induction input as [|x rest IH]; intros frame this.
  - simpl. rewrite Z.add_0_r. lia.
  - cbn [stream snd length]. rewrite length_app, Nat2Z.inj_add.
    rewrite IH, length_ticks by auto.
    cbn [writeIndex]. unfold ticks_fuel.
    fold (tick_limit fromSampleRate toSampleRate (frame + 1)).
    replace (frame + 1 + Z.of_nat (length rest))%Z
      with (frame + Z.of_nat (S (length rest)))%Z by lia.
    pose proof (tick_limit_mono frame (frame + 1) Hf Ht ltac:(lia)).
    pose proof (tick_limit_mono (frame + 1) (frame + Z.of_nat (S (length rest)))
                  Hf Ht ltac:(lia)).
    lia.
Qed.

(** [process] returns, and posts exactly the samples of [stream]: the
    result buffer is never too short. *)
Lemma process_stream (currentFrame : Z) (this : Resampler) (input : list Q) :
  0 < fromSampleRate -> 0 < toSampleRate ->
  process fromSampleRate toSampleRate currentFrame this input
  = Some (stream fromSampleRate toSampleRate input currentFrame this).
Proof.
  intros Hf Ht. unfold process. rewrite process_for_stream by auto.
  set (r := stream fromSampleRate toSampleRate input currentFrame this).
  assert (Hlen : (length (snd r)
                  <= length (Float32Array
                       (Math_ceil (inject_Z (Z.of_nat (length input))
                                   * (toSampleRate / fromSampleRate)) + 1)))%nat).
  { unfold Float32Array, Math_ceil. rewrite repeat_length.
    pose proof (length_stream input currentFrame this Hf Ht) as L. fold r in L.
    pose proof (tick_limit_add currentFrame (Z.of_nat (length input)) Hf Ht).
    pose proof (tick_limit_mono currentFrame
                  (currentFrame + Z.of_nat (length input)) Hf Ht ltac:(lia)).
    lia. }
  destruct r as [this' out]. cbn [fst snd] in *.
  destruct out as [|v out].
  - reflexivity.
  - cbn [Nat.add length Nat.ltb Nat.leb]. unfold slice0.
    f_equal. f_equal.
    exact (firstn_write_all (v :: out) _ 0%nat Hlen).
Qed.

Lemma stream_app (a b : list Q) (frame : Z) (this : Resampler) :
  stream fromSampleRate toSampleRate (a ++ b) frame this
  = (fst (stream fromSampleRate toSampleRate b (frame + Z.of_nat (length a))
            (fst (stream fromSampleRate toSampleRate a frame this))),
     snd (stream fromSampleRate toSampleRate a frame this)
     ++ snd (stream fromSampleRate toSampleRate b (frame + Z.of_nat (length a))
               (fst (stream fromSampleRate toSampleRate a frame this)))).
Proof.
  revert frame this. induction a as [|x rest IH]; intros frame this.
  - simpl. rewrite Z.add_0_r. destruct (stream _ _ b frame this); reflexivity.
  - cbn [app stream fst snd length]. rewrite IH. cbn [fst snd].
    replace (frame + 1 + Z.of_nat (length rest))%Z
      with (frame + Z.of_nat (S (length rest)))%Z by lia.
    rewrite app_assoc. reflexivity.
Qed.

Lemma process_all_stream (blocks : list (list Q)) (currentFrame : Z) (this : Resampler) :
  0 < fromSampleRate -> 0 < toSampleRate ->
  process_all fromSampleRate toSampleRate currentFrame this blocks
  = Some (stream fromSampleRate toSampleRate (concat blocks) currentFrame this).
Proof.
  intros Hf Ht. revert currentFrame this.
  induction blocks as [|b rest IH]; intros currentFrame this.
  - reflexivity.
  - cbn [process_all concat]. rewrite process_stream by auto.
    rewrite stream_app.
    destruct (stream fromSampleRate toSampleRate b currentFrame this) as [this1 out1].
    rewrite IH. cbn [fst snd].
    destruct (stream _ _ (concat rest) _ this1); reflexivity.
Qed.

(** Continuity of the AudioWorklet resampler: for positive rates, any
    processor state and any cut of a signal into consecutive blocks,
    [process] returns on every block, and the blocks fed one after the
    other leave the same state and post the same samples as the whole
    signal fed as one block. *)
Theorem process_continuity (blocks : list (list Q)) (currentFrame : Z)
    (this : Resampler) :
  0 < fromSampleRate -> 0 < toSampleRate ->
  exists r,
    process fromSampleRate toSampleRate currentFrame this (concat blocks) = Some r
    /\ process_all fromSampleRate toSampleRate currentFrame this blocks = Some r.
Proof.
  intros Hf Ht.
  exists (stream fromSampleRate toSampleRate (concat blocks) currentFrame this).
  split; [apply process_stream | apply process_all_stream]; auto.
Qed.

End Rates.
End ResamplerFacts.

Module ResampleFallbackFacts.
Import Resampler.
Local Open Scope Q_scope.

Lemma same_samples_length (a b : list Q) :
  same_samples a b -> length a = length b.
Proof. induction 1; simpl; congruence. Qed.

(** C1. The continuity property fails for the ScriptProcessor fallback
    [resample], which restarts its tick counter and its interpolation state
    at every call: from 32000 Hz to 16000 Hz the signal 1, 1, 1, 1 resamples
    to 0, 1 when fed as one block and to 0, 0 when fed as two blocks of two
    samples. ([ResamplerFacts.process_continuity] is the property for the
    AudioWorklet path.) *)
Theorem resample_blocks_differ :
  exists whole parts,
    resample 32000 16000 [1; 1; 1; 1] = Some whole
    /\ onaudioprocess_all 32000 16000 [[1; 1]; [1; 1]] = Some parts
    /\ same_samples whole [0; 1]
    /\ same_samples (concat parts) [0; 0]
    /\ ~ same_samples whole (concat parts).
Proof.
  eexists. eexists.
  split; [vm_compute; reflexivity|].
  split; [vm_compute; reflexivity|].
  split; [repeat constructor|].
  split; [repeat constructor|].
  intro H. inversion H as [|? ? ? ? _ Ht]; subst.
  inversion Ht as [|? ? ? ? Hq _]; subst.
  vm_compute in Hq. discriminate Hq.
Qed.

(** On the same signal and the same cut the AudioWorklet processor posts
    0, 1 both ways. *)
Example process_same_signal :
  exists this out,
    process 32000 16000 0 Resampler_new [1; 1; 1; 1] = Some (this, out)
    /\ process_all 32000 16000 0 Resampler_new [[1; 1]; [1; 1]] = Some (this, out)
    /\ same_samples out [0; 1].
Proof.
  eexists. eexists.
  split; [vm_compute; reflexivity|].
  split; [vm_compute; reflexivity|].
  repeat constructor.
Qed.

End ResampleFallbackFacts.

(** ** The demultiplexer and the socket client *)

Module ClientFacts.
Import JS WS Examples ClientSpec.

#[local] Set Warnings "-clear-no-such-hyp".

Lemma field_not_nullish (data : value) (k : string) :
  field data k <> VUndefined -> nullish data = false.
Proof. destruct data; simpl; congruence. Qed.

Lemma is_string_not_nullish (data : value) (k s : string) :
  is_string (field data k) s = true -> nullish data = false.
Proof.
  intros H. apply (field_not_nullish data k). intros E. rewrite E in H. discriminate.
Qed.

Lemma truthy_not_nullish (data : value) (k : string) :
  truthy (field data k) = true -> nullish data = false.
Proof.
  intros H. apply (field_not_nullish data k). intros E. rewrite E in H. discriminate.
Qed.

Lemma hard_error_not_nullish (data : value) :
  hard_error data = true -> nullish data = false.
Proof.
  unfold hard_error. intros H. apply orb_true_iff in H as [H|H].
  - eapply is_string_not_nullish; eauto.
  - eapply truthy_not_nullish; eauto.
Qed.

(** *** C10: [sendAudio] *)

(** C10. [sendAudio] always returns, leaves every field of the client as it
    was, and its only possible effect is one [socket.send] of the block:
    the block goes out if and only if there is a socket, the socket is OPEN
    and the server-ready flag is set; otherwise nothing happens at all (no
    queue exists in which the block could be kept). The callback that
    [MaestraClient.transcribe] wires to the capture source behaves the same
    way, and does nothing when there is no socket client. *)
Theorem sendAudio_sends_iff_open_and_ready (this : WebSocketClient) (audioData : list Q) :
  fst (sendAudio this audioData) = this
  /\ ((can_send this /\ snd (sendAudio this audioData) = [SocketSend (AudioFrame audioData)])
      \/ (~ can_send this /\ snd (sendAudio this audioData) = []))
  /\ (forall mc : Maestra.MaestraClient,
        Maestra.websocketClient mc = Some this ->
        Maestra.onAudioCallback mc audioData
        = (mc, map Maestra.Ws (snd (sendAudio this audioData))))
  /\ (forall mc : Maestra.MaestraClient,
        Maestra.websocketClient mc = None ->
        Maestra.onAudioCallback mc audioData = (mc, [])).
Proof.
  split; [|split; [|split]].
  - unfold sendAudio. destruct (socket this) as [s|]; [|reflexivity].
    destruct (readyState s), (isServerReady this); reflexivity.
  - unfold sendAudio, can_send.
    destruct (socket this) as [s|] eqn:Es.
    + destruct (readyState s) eqn:Er, (isServerReady this) eqn:Ei; simpl;
        try (left; split; [exists s; auto | reflexivity]);
        right; (split; [|reflexivity]);
        intros (s' & Hs & Hr & Hi); congruence.
    + right. split; [|reflexivity]. intros (s' & Hs & _). discriminate.
  - intros mc Hws. unfold Maestra.onAudioCallback. rewrite Hws.
    assert (E : fst (sendAudio this audioData) = this).
    { unfold sendAudio. destruct (socket this) as [s|]; [|reflexivity].
      destruct (readyState s), (isServerReady this); reflexivity. }
    destruct (sendAudio this audioData) as [ws1 log]. simpl in *. subst ws1.
    destruct mc; simpl in *. subst. reflexivity.
  - intros mc Hws. unfold Maestra.onAudioCallback. rewrite Hws. reflexivity.
Qed.

Lemma sendAudio_sends_iff_open_and_ready_witness :
  Maestra.onAudioCallback (Maestra.mkMaestra (Some ready_client) None true) [1%Q]
  = (Maestra.mkMaestra (Some ready_client) None true,
     [Maestra.Ws (SocketSend (AudioFrame [1%Q]))]).
Proof.
  exact (proj1 (proj2 (proj2 (sendAudio_sends_iff_open_and_ready ready_client [1%Q])))
           (Maestra.mkMaestra (Some ready_client) None true) eq_refl).
Defined.

(** *** C4: the WAIT status *)

(** C4, as stated, fails: the WAIT message of the example goes out through
    the [onError] callback and the ['error'] event, which
    [MaestraClient] re-emits as its ['error'] event, the very channel a hard
    error takes. *)
Lemma wait_goes_through_error_channel :
  snd (_handleMessage ready_client (Text (Some msg_wait)))
  = [CallbackOnError (WaitError (VStr "Server is full"));
     Emit_error (WaitError (VStr "Server is full"))]
  /\ snd (Maestra.on_message (Maestra.mkMaestra (Some ready_client) None false)
            (Text (Some msg_wait)))
     = [Maestra.error (WaitError (VStr "Server is full"))]
  /\ snd (Maestra.on_message (Maestra.mkMaestra (Some ready_client) None false)
            (Text (Some msg_internal_failure)))
     = [Maestra.error (ConnectionFailed (VStr "internal failure"))].
Proof. repeat split; vm_compute; reflexivity. Qed.

(** C4, amended. A message addressed to this client whose status is "WAIT"
    is reported through the error channel: the [onError] callback, then an
    ['error'] event, both with an [Error] built from [data.message] alone
    (no "Connection failed" wording); nothing else of the message is looked
    at and the client is left as it was (not ready, timer untouched, socket
    open). *)
Theorem wait_is_reported_as_error (this : WebSocketClient) (data : value) :
  addressed this data = true ->
  is_string (field data "status") "WAIT" = true ->
  _handleMessage this (Text (Some data))
  = (this, [CallbackOnError (WaitError (field data "message"));
            Emit_error (WaitError (field data "message"))]).
Proof.
  unfold addressed. intros Ha Hw.
  pose proof (is_string_not_nullish _ _ _ Hw) as Hn.
  unfold _handleMessage, handle_data. rewrite Hn.
  apply negb_true_iff in Ha. rewrite Ha, Hw. reflexivity.
Qed.

Lemma wait_is_reported_as_error_witness :
  _handleMessage connected_client (Text (Some msg_wait))
  = (connected_client,
     [CallbackOnError (WaitError (VStr "Server is full"));
      Emit_error (WaitError (VStr "Server is full"))]).
Proof.
  apply (wait_is_reported_as_error connected_client msg_wait); reflexivity.
Defined.

(** *** C5: authentication-class and generic errors *)

Lemma lower_upper (c : ascii) : lower_ascii (upper_ascii c) = lower_ascii c.
Proof. destruct c as [[] [] [] [] [] [] [] []]; reflexivity. Qed.

Lemma upper_lower (c : ascii) : upper_ascii (lower_ascii c) = upper_ascii c.
Proof. destruct c as [[] [] [] [] [] [] [] []]; reflexivity. Qed.

(** Against a character that lower-casing leaves alone, "the same letter"
    is what lower-casing decides. *)
Lemma same_letter_lower (c d : ascii) :
  lower_ascii d = d -> (same_letter c d = true <-> lower_ascii c = d).
Proof.
  intros Hd. unfold same_letter. rewrite Ascii.eqb_eq. split.
  - intros H. rewrite <- (lower_upper c), H, lower_upper. exact Hd.
  - intros <-. rewrite upper_lower. reflexivity.
Qed.

Lemma same_ignoring_case_lower (mid keyword : string) :
  toLowerCase keyword = keyword ->
  (same_ignoring_case mid keyword = true <-> toLowerCase mid = keyword).
Proof.
  revert keyword. induction mid as [|c mid IH]; intros [|d keyword] Hk;
    cbn [same_ignoring_case toLowerCase]; try (split; [discriminate | discriminate]).
  - split; reflexivity.
  - cbn [toLowerCase] in Hk. injection Hk as Hd Hk.
    rewrite andb_true_iff, (same_letter_lower c d Hd), (IH keyword Hk).
    split; [intros [-> ->]; reflexivity | intros [= -> ->]; auto].
Qed.

Lemma toLowerCase_app (a b : string) :
  toLowerCase (a ++ b) = (toLowerCase a ++ toLowerCase b)%string.
Proof. induction a as [|c a IH]; simpl; [reflexivity | rewrite IH; reflexivity]. Qed.

Lemma toLowerCase_split (a b s : string) :
  toLowerCase s = (a ++ b)%string ->
  exists s1 s2, s = (s1 ++ s2)%string /\ toLowerCase s1 = a /\ toLowerCase s2 = b.
Proof.
  revert s. induction a as [|c a IH]; intros s H.
  - exists EmptyString, s. auto.
  - destruct s as [|c0 s]; [discriminate|]. cbn in H. injection H as Hc H.
    destruct (IH s H) as (s1 & s2 & -> & H1 & H2).
    exists (String c0 s1), s2. cbn. rewrite Hc, H1. auto.
Qed.

Lemma prefix_app (p s : string) :
  String.prefix p s = true <-> exists post, s = (p ++ post)%string.
Proof.
  revert p. induction s as [|d s IH]; intros [|c p]; simpl.
  - split; [intros _; exists EmptyString; reflexivity | reflexivity].
  - split; [discriminate | intros [post H]; discriminate].
  - split; [intros _; exists (String d s); reflexivity | reflexivity].
  - destruct (ascii_dec c d) as [->|Hne].
    + rewrite IH. split; intros [post H]; exists post.
      * rewrite H. reflexivity.
      * injection H as H. exact H.
    + split; [discriminate|]. intros [post H]. injection H as H1 H2.
      congruence.
Qed.

(** [s.includes(keyword)]: the keyword is a part of [s]. *)
Lemma includes_spec (s keyword : string) :
  includes s keyword = true
  <-> exists pre post, s = (pre ++ keyword ++ post)%string.
Proof.
  induction s as [|c s IH]; cbn [includes]; rewrite orb_true_iff, prefix_app.
  - split.
    + intros [[post H]|H]; [|discriminate]. exists EmptyString, post. exact H.
    + intros (pre & post & H). left. destruct pre; [|discriminate].
      exists post. exact H.
  - rewrite IH. split.
    + intros [[post H]|(pre & post & H)].
      * exists EmptyString, post. exact H.
      * exists (String c pre), post. cbn. rewrite H. reflexivity.
    + intros (pre & post & H). destruct pre as [|c' pre].
      * left. exists post. exact H.
      * right. cbn in H. injection H as _ H. exists pre, post. exact H.
Qed.

Lemma keywords_lowercase (keyword : string) :
  In keyword authKeywords -> toLowerCase keyword = keyword.
Proof.
  intros H. unfold authKeywords in H.
  repeat (destruct H as [<-|H]; [reflexivity|]). destruct H.
Qed.

(** The test of the code on one keyword is the specification's
    "contains, case-insensitively". *)
Lemma keyword_in_text (text keyword : string) :
  In keyword authKeywords ->
  (includes (toLowerCase text) keyword = true <-> contains_ignoring_case text keyword).
Proof.
  intros Hin. pose proof (keywords_lowercase keyword Hin) as Hk.
  rewrite includes_spec. unfold contains_ignoring_case. split.
  - intros (pre & post & H).
    destruct (toLowerCase_split pre (keyword ++ post) text H) as (s1 & s23 & -> & H1 & H23).
    destruct (toLowerCase_split keyword post s23 H23) as (s2 & s3 & -> & H2 & H3).
    exists s1, s2, s3. split; [reflexivity|].
    apply same_ignoring_case_lower; assumption.
  - intros (pre & mid & post & -> & H).
    apply (same_ignoring_case_lower mid keyword Hk) in H.
    exists (toLowerCase pre), (toLowerCase post).
    rewrite !toLowerCase_app, H. reflexivity.
Qed.

Lemma is_number_spec (v : value) (code : Z) :
  is_number v (inject_Z code) = true <-> exists q, v = VNum q /\ q == inject_Z code.
Proof.
  destruct v; cbn [is_number];
    try (split; [discriminate | intros (q & H & _); discriminate]).
  rewrite Qeq_bool_iff. split; [eauto|]. intros (q' & [= <-] & H). exact H.
Qed.

Lemma _isAuthenticationError_spec (text : string) (data : value) :
  truthy (VStr text) = true ->
  (authentication_class text data
   /\ _isAuthenticationError (VStr text) data = Some true)
  \/ (~ authentication_class text data
      /\ _isAuthenticationError (VStr text) data = Some false).
Proof.
  intros Ht. unfold _isAuthenticationError, authentication_class, status_code_is.
  rewrite Ht. cbn [negb].
  pose proof (is_number_spec (field data "status_code") 401) as H401.
  pose proof (is_number_spec (field data "status_code") 403) as H403.
  change (inject_Z 401) with 401%Q in H401 at 1.
  change (inject_Z 403) with 403%Q in H403 at 1.
  destruct (is_number (field data "status_code") 401);
    [left; split; [right; left; apply H401|]; reflexivity|].
  destruct (is_number (field data "status_code") 403);
    [left; split; [right; right; apply H403|]; reflexivity|].
  cbn [orb].
  destruct (existsb (fun keyword => includes (toLowerCase text) keyword) authKeywords)
    eqn:Ek.
  - left. split; [|reflexivity]. left.
    apply existsb_exists in Ek as (keyword & Hin & Hinc).
    exists keyword. split; [exact Hin | apply keyword_in_text; assumption].
  - right. split; [|reflexivity].
    intros [(keyword & Hin & Hc)|[H|H]].
    + assert (existsb (fun keyword => includes (toLowerCase text) keyword) authKeywords
              = true).
      { apply existsb_exists. exists keyword. split; [exact Hin|].
        apply keyword_in_text; assumption. }
      congruence.
    + apply H401 in H. discriminate.
    + apply H403 in H. discriminate.
Qed.

Lemma errorMessage_truthy (data : value) : truthy (errorMessage data) = true.
Proof.
  unfold errorMessage, or_else.
  destruct (truthy (field data "message")) eqn:E1; rewrite ?E1; auto.
  destruct (truthy (field data "error")) eqn:E2; rewrite ?E2; auto.
Qed.

(** C5, as stated, fails: a hard-error message with status code 401 whose
    text is not a string is not classified at all, the attempt to
    lower-case the text throws before the status code is looked at and the
    TypeError is what gets reported; and a message with an [error] field
    that names a keyword but with status "WAIT" is reported as the WAIT
    error. *)
Lemma status_401_with_non_string_text_is_a_type_error :
  (hard_error msg_401_numeric_text = true
   /\ status_code_is msg_401_numeric_text 401
   /\ snd (_handleMessage connected_client (Text (Some msg_401_numeric_text)))
      = [CallbackOnError TypeError; Emit_error TypeError])
  /\ (hard_error msg_wait_unauthorized = true
      /\ (exists keyword, In keyword authKeywords
                          /\ contains_ignoring_case "unauthorized" keyword)
      /\ snd (_handleMessage connected_client (Text (Some msg_wait_unauthorized)))
         = [CallbackOnError (WaitError VUndefined); Emit_error (WaitError VUndefined)]).
Proof.
  split; (split; [reflexivity|]); (split; [|reflexivity]).
  - exists 401. split; reflexivity.
  - exists "unauthorized"%string. split; [cbn; auto|].
    exists EmptyString, "unauthorized"%string, EmptyString. split; reflexivity.
Qed.

(** C5, amended. A message addressed to this client whose status is not
    "WAIT" and that is a hard error (status "ERROR", or a truthy [error]
    field): when its message text ([message], else [error], else "Unknown
    error") is a string, it is reported as the authentication error exactly
    when the text contains one of the authentication keywords,
    case-insensitively, or the status code is 401 or 403, and as the
    generic "Connection failed" error with that text otherwise; when the
    text is not a string, it is neither, whatever the status code: a
    TypeError is reported. *)
Theorem hard_error_classification (this : WebSocketClient) (data : value) :
  addressed this data = true ->
  is_string (field data "status") "WAIT" = false ->
  hard_error data = true ->
  (forall text,
     errorMessage data = VStr text ->
     (authentication_class text data
      /\ snd (_handleMessage this (Text (Some data)))
         = [CallbackOnError AuthenticationError; Emit_error AuthenticationError])
     \/ (~ authentication_class text data
         /\ snd (_handleMessage this (Text (Some data)))
            = [CallbackOnError (ConnectionFailed (VStr text));
               Emit_error (ConnectionFailed (VStr text))]))
  /\ ((forall text, errorMessage data <> VStr text) ->
      snd (_handleMessage this (Text (Some data)))
      = [CallbackOnError TypeError; Emit_error TypeError]).
Proof.
  unfold addressed. intros Ha Hw He.
  pose proof (hard_error_not_nullish _ He) as Hn.
  apply negb_true_iff in Ha.
  assert (E : snd (_handleMessage this (Text (Some data)))
              = match _isAuthenticationError (errorMessage data) data with
                | Some true =>
                    [CallbackOnError AuthenticationError; Emit_error AuthenticationError]
                | Some false =>
                    [CallbackOnError (ConnectionFailed (errorMessage data));
                     Emit_error (ConnectionFailed (errorMessage data))]
                | None => [CallbackOnError TypeError; Emit_error TypeError]
                end).
  { unfold _handleMessage, handle_data. rewrite Hn, Ha, Hw.
    unfold hard_error in He. rewrite He. fold (errorMessage data).
    destruct (_isAuthenticationError (errorMessage data) data) as [[]|]; reflexivity. }
  rewrite E. split.
  - intros text Hm. rewrite Hm.
    assert (Ht : truthy (VStr text) = true) by (rewrite <- Hm; apply errorMessage_truthy).
    destruct (_isAuthenticationError_spec text data Ht) as [[Hc ->]|[Hc ->]]; auto.
  - intros Hm. pose proof (errorMessage_truthy data) as Ht.
    unfold _isAuthenticationError. rewrite Ht. cbn [negb].
    destruct (errorMessage data); try reflexivity.
    exfalso. apply (Hm s). reflexivity.
Qed.

(** A keyword alone, in capitals and inside a longer text, makes the
    authentication class. *)
Lemma hard_error_classification_witness :
  snd (_handleMessage connected_client (Text (Some msg_invalid_api_key)))
  = [CallbackOnError AuthenticationError; Emit_error AuthenticationError].
Proof.
  destruct (proj1 (hard_error_classification connected_client msg_invalid_api_key
                     eq_refl eq_refl eq_refl)
              "Invalid API Key supplied"%string eq_refl) as [[_ E]|[Hc _]].
  - exact E.
  - exfalso. apply Hc. left. exists "invalid api key"%string. split; [cbn; auto|].
    exists EmptyString, "Invalid API Key"%string, " supplied"%string.
    split; reflexivity.
Defined.

(** The two messages of the specification. *)
Example invalid_token_is_authentication_class :
  authentication_class "invalid token" msg_invalid_token
  /\ snd (_handleMessage connected_client (Text (Some msg_invalid_token)))
     = [CallbackOnError AuthenticationError; Emit_error AuthenticationError].
Proof.
  split; [|vm_compute; reflexivity].
  right. left. exists 401. split; reflexivity.
Qed.

Example internal_failure_is_generic :
  ~ authentication_class "internal failure" msg_internal_failure
  /\ snd (_handleMessage connected_client (Text (Some msg_internal_failure)))
     = [CallbackOnError (ConnectionFailed (VStr "internal failure"));
        Emit_error (ConnectionFailed (VStr "internal failure"))].
Proof.
  split; [|vm_compute; reflexivity].
  destruct (_isAuthenticationError_spec "internal failure" msg_internal_failure eq_refl)
    as [[_ E]|[Hc _]]; [vm_compute in E; discriminate | exact Hc].
Qed.

(** The status code alone makes the authentication class as well. *)
Example status_403_is_authentication_class :
  ~ (exists keyword, In keyword authKeywords /\ contains_ignoring_case "nope" keyword)
  /\ authentication_class "nope" msg_403
  /\ snd (_handleMessage connected_client (Text (Some msg_403)))
     = [CallbackOnError AuthenticationError; Emit_error AuthenticationError].
Proof.
  split; [|split; [|vm_compute; reflexivity]].
  - intros (keyword & Hin & Hc). apply keyword_in_text in Hc; [|exact Hin].
    assert (H : existsb (fun k => includes (toLowerCase "nope") k) authKeywords = true)
      by (apply existsb_exists; eauto).
    vm_compute in H. discriminate.
  - right. right. exists 403. split; reflexivity.
Qed.

(** *** The log of [_handleMessage], branch by branch *)

Lemma filter_interim_filter (l kept : list value) :
  filter_interim l = Some kept -> kept = List.filter interim l.
Proof.
  revert kept. induction l as [|s l IH]; intros kept H; simpl in *.
  - congruence.
  - destruct (nullish s); [discriminate|].
    destruct (filter_interim l) as [k|]; [|discriminate].
    rewrite <- (IH k eq_refl). unfold interim.
    destruct (is_false (field s "completed")); congruence.
Qed.

Lemma close_log (this : WebSocketClient) (e : event) :
  In e (snd (close this)) -> e = SocketClose.
Proof.
  unfold close. destruct (socket (clear_connectionTimer this)); simpl; intuition.
Qed.

(** The ['segments'] events of the part of [_handleMessage] after the
    disconnect check: none, or one with the non-empty result of the filter
    on the segments of the message. *)
Lemma handle_results_segments (this : WebSocketClient) (data : value) :
  let log := match handle_results this data with
             | Return _ log => log
             | Throw _ log e => log ++ [CallbackOnError e; Emit_error e]
             end in
  List.filter is_segments_event log = []
  \/ exists l segs,
       field data "segments" = VArr l
       /\ filter_interim l = Some segs /\ segs <> []
       /\ List.filter is_segments_event log = [Emit_segments segs].
Proof.
  unfold handle_results.
  destruct (truthy (field data "segments")) eqn:Et.
  - destruct (field data "segments") as [| | | | |l|] eqn:Ef; try (left; reflexivity).
    destruct (filter_interim l) as [cur|] eqn:Efi; [|left; reflexivity].
    destruct (0 <? length cur)%nat eqn:El.
    + right. exists l, cur. repeat split; auto.
      * intros ->. discriminate.
      * handle_cases; reflexivity.
    + left. handle_cases; reflexivity.
  - left. handle_cases; reflexivity.
Qed.

(** The same for a whole message: every other branch emits no ['segments']
    event. *)
Lemma segments_events_of_message (this : WebSocketClient) (m : MessageData) :
  List.filter is_segments_event (snd (_handleMessage this m)) = []
  \/ exists data l segs,
       m = Text (Some data)
       /\ field data "segments" = VArr l
       /\ filter_interim l = Some segs /\ segs <> []
       /\ List.filter is_segments_event (snd (_handleMessage this m))
          = [Emit_segments segs].
Proof.
  destruct m as [|[data|]]; try (left; reflexivity).
  unfold _handleMessage, handle_data.
  destruct (nullish data); [left; reflexivity|].
  destruct (truthy (field data "uid") && _); [left; reflexivity|].
  destruct (is_string (field data "status") "WAIT"); [left; reflexivity|].
  destruct (is_string (field data "status") "ERROR" || _).
  { left. destruct (_isAuthenticationError _ data) as [[]|]; reflexivity. }
  destruct (negb (isServerReady this)); [left; reflexivity|].
  destruct (is_null (sourceLanguage this) && _); [left; reflexivity|].
  destruct (is_string (field data "message") "DISCONNECT").
  { left. unfold close. destruct (socket (clear_connectionTimer this)); reflexivity. }
  destruct (handle_results_segments this data) as [H|(l & segs & ? & ? & ? & H)];
    destruct (handle_results this data); cbn [snd] in *.
  - left; exact H.
  - left; exact H.
  - right. exists data, l, segs. auto.
  - right. exists data, l, segs. auto.
Qed.

Lemma segments_event_inv (this : WebSocketClient) (m : MessageData) (segs : list value) :
  In (Emit_segments segs) (snd (_handleMessage this m)) ->
  exists data l,
    m = Text (Some data) /\ field data "segments" = VArr l
    /\ filter_interim l = Some segs /\ segs <> [].
Proof.
  intros H.
  assert (Hf : In (Emit_segments segs)
                 (List.filter is_segments_event (snd (_handleMessage this m))))
    by (apply filter_In; split; [exact H | reflexivity]).
  destruct (segments_events_of_message this m)
    as [E|(data & l & segs' & ? & ? & ? & ? & E)]; rewrite E in Hf.
  - destruct Hf.
  - destruct Hf as [Hf|[]]. injection Hf as ->. exists data, l. auto.
Qed.

Lemma forward_interim (log : list event) :
  List.filter is_interim_transcription (flat_map Maestra.forward log)
  = flat_map Maestra.forward (List.filter is_segments_event log).
Proof.
  induction log as [|e log IH]; [reflexivity|].
  destruct e; simpl; rewrite ?IH; reflexivity.
Qed.

(** A plain segments message on a ready client does emit the event. *)
Lemma interim_event_emitted (this : WebSocketClient) (data : value) (l : list value) :
  addressed this data = true ->
  is_string (field data "status") "WAIT" = false ->
  hard_error data = false ->
  isServerReady this = true ->
  is_null (sourceLanguage this) && truthy (field data "language") = false ->
  is_string (field data "message") "DISCONNECT" = false ->
  field data "segments" = VArr l ->
  Forall (fun s => nullish s = false) l ->
  List.filter interim l <> [] ->
  List.filter is_segments_event (snd (_handleMessage this (Text (Some data))))
  = [Emit_segments (List.filter interim l)].
Proof.
  unfold addressed, hard_error. intros Ha Hw He Hr Hl Hd Hs Hnn Hne.
  assert (Hn : nullish data = false).
  { apply (field_not_nullish data "segments"). rewrite Hs. discriminate. }
  assert (Hfi : filter_interim l = Some (List.filter interim l)).
  { clear -Hnn. induction Hnn as [|s l Hs _ IH]; [reflexivity|].
    cbn. rewrite Hs, IH. unfold interim.
    destruct (is_false (field s "completed")); reflexivity. }
  apply negb_true_iff in Ha.
  unfold _handleMessage, handle_data. rewrite Hn, Ha, Hw, He, Hr, Hl, Hd. cbn [negb].
  unfold handle_results. rewrite Hs. cbn [truthy]. rewrite Hfi.
  destruct (List.filter interim l) as [|s0 rest] eqn:Ef; [congruence|].
  cbn [length Nat.ltb Nat.leb].
  handle_cases; reflexivity.
Qed.

(** *** C3: the interim event carries the current segments only *)

(** C3. Whatever the client went through before (any state [this], so after
    any earlier messages), when the message [data] with the segments list
    [l] makes [MaestraClient] emit an ['interim-transcription'] event, that
    event is the only one of its kind for the message and its payload is
    exactly the list of the segments of [l] whose [completed] is [false],
    in order: completed segments are left out and nothing comes from an
    earlier message. *)
Theorem interim_event_is_filter_of_current_message
    (mc : Maestra.MaestraClient) (this : WebSocketClient) (data : value)
    (l segs : list value) :
  Maestra.websocketClient mc = Some this ->
  field data "segments" = VArr l ->
  In (Maestra.interim_transcription segs)
     (snd (Maestra.on_message mc (Text (Some data)))) ->
  segs = List.filter interim l
  /\ List.filter is_interim_transcription
       (snd (Maestra.on_message mc (Text (Some data))))
     = [Maestra.interim_transcription (List.filter interim l)].
Proof.
  intros Hws Hl Hin.
  assert (Hin' : In (Maestra.interim_transcription segs)
                   (List.filter is_interim_transcription
                      (snd (Maestra.on_message mc (Text (Some data))))))
    by (apply filter_In; split; [exact Hin | reflexivity]).
  clear Hin. revert Hin'.
  unfold Maestra.on_message. rewrite Hws.
  pose proof (segments_events_of_message this (Text (Some data))) as Hc.
  destruct (_handleMessage this (Text (Some data))) as [ws1 log].
  cbn [snd] in *. rewrite forward_interim.
  destruct Hc as [E|(d & l' & segs' & Hd & Hl' & Hfi & _ & E)]; rewrite E.
  - intros [].
  - injection Hd as <-. rewrite Hl in Hl'. injection Hl' as <-.
    pose proof (filter_interim_filter _ _ Hfi) as ->.
    simpl. intros [H|[]]. injection H as ->. split; reflexivity.
Qed.

Lemma interim_event_is_filter_of_current_message_witness :
  [seg "now" (VBool false)] = List.filter interim
     [seg "done" (VBool true); seg "now" (VBool false); obj [("text", VStr "untagged")]]
  /\ List.filter is_interim_transcription
       (snd (Maestra.on_message (Maestra.mkMaestra (Some ready_client) None false)
               (Text (Some msg_segments_mixed))))
     = [Maestra.interim_transcription
          (List.filter interim
             [seg "done" (VBool true); seg "now" (VBool false);
              obj [("text", VStr "untagged")]])].
Proof.
  apply (interim_event_is_filter_of_current_message
           (Maestra.mkMaestra (Some ready_client) None false) ready_client
           msg_segments_mixed).
  - reflexivity.
  - reflexivity.
  - vm_compute. left. reflexivity.
Defined.

(** The first message of the specification: one interim event with "hi". *)
Example segments_hi :
  snd (Maestra.on_message (Maestra.mkMaestra (Some ready_client) None false)
         (Text (Some msg_segments_hi)))
  = [Maestra.interim_transcription [seg "hi" (VBool false)]].
Proof. vm_compute. reflexivity. Qed.

(** *** C9: what the filter leaves out *)

(** C9. Every segment carried by a ['segments'] event has its [completed]
    field equal to the boolean [false] (so a segment whose [completed] is
    absent, [true], [null], [0], a string or anything else is never in
    it), and the event is never empty: when no segment of the message
    passes the filter, no ['segments'] event is emitted at all, and nor is
    an ['interim-transcription'] event by [MaestraClient]. *)
Theorem interim_event_excludes_all_but_false
    (this : WebSocketClient) (m : MessageData) :
  (forall segs,
     In (Emit_segments segs) (snd (_handleMessage this m)) ->
     segs <> [] /\ forall s, In s segs -> field s "completed" = VBool false)
  /\ (forall data l,
        m = Text (Some data) ->
        field data "segments" = VArr l ->
        (forall s, In s l -> field s "completed" <> VBool false) ->
        (forall segs, ~ In (Emit_segments segs) (snd (_handleMessage this m)))
        /\ (forall segs, ~ In (Maestra.interim_transcription segs)
                           (flat_map Maestra.forward (snd (_handleMessage this m))))).
Proof.
  assert (Hfalse : forall s, interim s = true -> field s "completed" = VBool false).
  { intros s. unfold interim, is_false.
    destruct (field s "completed") as [| |[]| | | |]; congruence. }
  split.
  - intros segs Hin.
    destruct (segments_event_inv _ _ _ Hin) as (data & l & _ & _ & Hfi & Hne).
    split; [exact Hne|].
    intros s Hs. rewrite (filter_interim_filter _ _ Hfi) in Hs.
    apply filter_In in Hs as [_ Hs]. auto.
  - intros data l Hm Hl Hall.
    assert (Hno : forall segs, ~ In (Emit_segments segs) (snd (_handleMessage this m))).
    { intros segs Hin.
      destruct (segments_event_inv _ _ _ Hin) as (d & l' & Hd & Hl' & Hfi & Hne).
      rewrite Hm in Hd. injection Hd as <-. rewrite Hl in Hl'. injection Hl' as <-.
      rewrite (filter_interim_filter _ _ Hfi) in Hne.
      destruct (List.filter interim l) as [|s rest] eqn:Ef; [congruence|].
      assert (Hs : In s (List.filter interim l)) by (rewrite Ef; left; reflexivity).
      apply filter_In in Hs as [Hs1 Hs2].
      exact (Hall s Hs1 (Hfalse s Hs2)). }
    split; [exact Hno|].
    intros segs Hin. apply in_flat_map in Hin as (e & He & Hf).
    destruct e; simpl in Hf; try contradiction;
      destruct Hf as [Hf|[]]; try discriminate.
    injection Hf as ->. exact (Hno _ He).
Qed.

Lemma interim_event_excludes_all_but_false_witness :
  [seg "now" (VBool false)] <> []
  /\ (forall segs, ~ In (Emit_segments segs)
        (snd (_handleMessage ready_client (Text (Some msg_segments_all_completed))))).
Proof.
  split.
  - refine (proj1 (proj1 (interim_event_excludes_all_but_false ready_client
                            (Text (Some msg_segments_mixed))) _ _)).
    vm_compute. left. reflexivity.
  - refine (proj1 (proj2 (interim_event_excludes_all_but_false ready_client
                            (Text (Some msg_segments_all_completed))) _ _
                     eq_refl eq_refl _)).
    intros s [<-|[<-|[]]]; vm_compute; discriminate.
Defined.

(** *** C2: the DISCONNECT message *)




(** *** C6: the connection timer *)

Lemma clear_connectionTimer_none (this : WebSocketClient) :
  sole_timer this ->
  timers (clear_connectionTimer this) = ∅
  /\ connectionTimer (clear_connectionTimer this) = None.
Proof.
  unfold sole_timer, clear_connectionTimer.
  destruct (connectionTimer this) as [t|] eqn:E; cbn; rewrite ?E; set_solver.
Qed.

Lemma sole_timer_set_isServerReady (this : WebSocketClient) (b : bool) :
  sole_timer this -> sole_timer (set_isServerReady this b).
Proof. auto. Qed.

(** The handshake arms exactly one timer. *)
Lemma handshake_arms_one_timer (this : WebSocketClient) :
  timers this = ∅ ->
  timers (fst (socket_onopen this)) = {[ next_timer this ]}
  /\ connectionTimer (fst (socket_onopen this)) = Some (next_timer this)
  /\ sole_timer (fst (socket_onopen this)).
Proof.
  intros H. unfold sole_timer. cbn. rewrite H. set_solver.
Qed.

(** The part of [_handleMessage] after the disconnect check leaves the
    client as it is. *)
Lemma handle_results_state (this : WebSocketClient) (data : value) :
  match handle_results this data with
  | Return c _ => c = this
  | Throw c _ _ => c = this
  end.
Proof.
  unfold handle_results.
  destruct (truthy (field data "segments")); [|reflexivity].
  destruct (field data "segments") as [| | | | |l|]; try reflexivity.
  destruct (filter_interim l); [|reflexivity].
  destruct (0 <? length l0)%nat; reflexivity.
Qed.

Lemma sole_timer_clear (this : WebSocketClient) :
  sole_timer this -> sole_timer (clear_connectionTimer this).
Proof.
  intros Hs. destruct (clear_connectionTimer_none this Hs) as [Ht Hc].
  unfold sole_timer. rewrite Ht, Hc. set_solver.
Qed.

Lemma sole_timer_close (this : WebSocketClient) :
  sole_timer this -> sole_timer (fst (close this)).
Proof.
  intros Hs. apply sole_timer_clear in Hs. unfold close.
  destruct (socket (clear_connectionTimer this)); exact Hs.
Qed.

(** Handling a message keeps it so: from the handshake on, the only timer
    that can be pending is the one the client holds. *)
Lemma sole_timer_handleMessage (this : WebSocketClient) (m : MessageData) :
  sole_timer this -> sole_timer (fst (_handleMessage this m)).
Proof.
  intros Hs. destruct m as [|[data|]]; try exact Hs.
  unfold _handleMessage, handle_data.
  destruct (nullish data); [exact Hs|].
  destruct (truthy (field data "uid") && _); [exact Hs|].
  destruct (is_string (field data "status") "WAIT"); [exact Hs|].
  destruct (is_string (field data "status") "ERROR" || _).
  { destruct (_isAuthenticationError _ data) as [[]|]; cbn [fst];
      apply sole_timer_clear, Hs. }
  destruct (negb (isServerReady this)).
  { cbn [fst]. apply (sole_timer_clear (set_isServerReady this true)), Hs. }
  destruct (is_null (sourceLanguage this) && _); [exact Hs|].
  destruct (is_string (field data "message") "DISCONNECT").
  { pose proof (sole_timer_close this Hs) as Hc. destruct (close this). exact Hc. }
  pose proof (handle_results_state this data) as Hst.
  destruct (handle_results this data); cbn [fst]; subst; exact Hs.
Qed.



(** *** C7: ready, once *)

Lemma count_ready_app (a b : list event) :
  count_ready (a ++ b) = (count_ready a + count_ready b)%nat.
Proof. unfold count_ready. rewrite filter_app, length_app. reflexivity. Qed.

Lemma isServerReady_clear (this : WebSocketClient) :
  isServerReady (clear_connectionTimer this) = isServerReady this.
Proof. unfold clear_connectionTimer. destruct (connectionTimer this); reflexivity. Qed.

Lemma uuid_clear (this : WebSocketClient) :
  uuid (clear_connectionTimer this) = uuid this.
Proof. unfold clear_connectionTimer. destruct (connectionTimer this); reflexivity. Qed.

Lemma uuid_close (this : WebSocketClient) : uuid (fst (close this)) = uuid this.
Proof.
  unfold close. destruct (socket (clear_connectionTimer this)); cbn; apply uuid_clear.
Qed.

(** A message never changes the identity of the client. *)
Lemma uuid_handleMessage (this : WebSocketClient) (m : MessageData) :
  uuid (fst (_handleMessage this m)) = uuid this.
Proof.
  destruct m as [|[data|]]; try reflexivity.
  unfold _handleMessage, handle_data.
  destruct (nullish data); [reflexivity|].
  destruct (truthy (field data "uid") && _); [reflexivity|].
  destruct (is_string (field data "status") "WAIT"); [reflexivity|].
  destruct (is_string (field data "status") "ERROR" || _).
  { destruct (_isAuthenticationError _ data) as [[]|]; cbn; apply uuid_clear. }
  destruct (negb (isServerReady this)); [cbn; rewrite uuid_clear; reflexivity|].
  destruct (is_null (sourceLanguage this) && _); [reflexivity|].
  destruct (is_string (field data "message") "DISCONNECT").
  { pose proof (uuid_close this) as Hc. destruct (close this). exact Hc. }
  pose proof (handle_results_state this data) as Hs.
  destruct (handle_results this data); cbn; congruence.
Qed.

Lemma uuid_handle_all (ms : list MessageData) (this : WebSocketClient) :
  uuid (fst (handle_all this ms)) = uuid this.
Proof.
  revert this. induction ms as [|m ms IH]; intros this; [reflexivity|].
  cbn [handle_all].
  pose proof (uuid_handleMessage this m) as H1.
  destruct (_handleMessage this m) as [c1 l1]. cbn [fst] in H1.
  pose proof (IH c1) as H2.
  destruct (handle_all c1 ms) as [c2 l2]. cbn [fst] in *. congruence.
Qed.

(** One message while the server is not ready yet. *)
Lemma step_before_ready (this : WebSocketClient) (m : MessageData) :
  isServerReady this = false ->
  if valid_message (uuid this) m
  then snd (_handleMessage this m) = [CallbackOnReady; Emit_ready]
       /\ isServerReady (fst (_handleMessage this m)) = true
  else count_ready (snd (_handleMessage this m)) = 0%nat
       /\ ~ In Emit_disconnect (snd (_handleMessage this m))
       /\ isServerReady (fst (_handleMessage this m)) = false.
Proof.
  intros Hr. destruct m as [|[data|]];
    try (cbn; repeat split; auto; intuition discriminate).
  unfold valid_message, hard_error, _handleMessage, handle_data.
  destruct (nullish data);
    [cbn; repeat split; auto; intuition discriminate|].
  destruct (truthy (field data "uid") && _);
    [cbn; repeat split; auto|].
  destruct (is_string (field data "status") "WAIT");
    [cbn; repeat split; auto; intuition discriminate|].
  destruct (is_string (field data "status") "ERROR" || _).
  { destruct (_isAuthenticationError _ data) as [[]|];
      cbn; rewrite isServerReady_clear;
      repeat split; auto; intuition discriminate. }
  rewrite Hr. cbn. rewrite isServerReady_clear. split; reflexivity.
Qed.

Lemma handle_results_no_ready (this : WebSocketClient) (data : value) :
  count_ready
    match handle_results this data with
    | Return _ log => log
    | Throw _ log e => log ++ [CallbackOnError e; Emit_error e]
    end = 0%nat.
Proof.
  unfold handle_results.
  destruct (truthy (field data "segments")).
  - destruct (field data "segments") as [| | | | |l|]; try reflexivity.
    destruct (filter_interim l); [|reflexivity].
    destruct (0 <? length l0)%nat; handle_cases; reflexivity.
  - handle_cases; reflexivity.
Qed.

(** One message once the server is ready: no second ['ready'], and the
    ready flag stays set unless the message is a disconnect. *)
Lemma step_after_ready (this : WebSocketClient) (m : MessageData) :
  isServerReady this = true ->
  count_ready (snd (_handleMessage this m)) = 0%nat
  /\ (~ In Emit_disconnect (snd (_handleMessage this m)) ->
      isServerReady (fst (_handleMessage this m)) = true).
Proof.
  intros Hr. destruct m as [|[data|]]; try (cbn; auto).
  unfold _handleMessage, handle_data.
  destruct (nullish data); [cbn; auto|].
  destruct (truthy (field data "uid") && _); [cbn; auto|].
  destruct (is_string (field data "status") "WAIT"); [cbn; auto|].
  destruct (is_string (field data "status") "ERROR" || _).
  { destruct (_isAuthenticationError _ data) as [[]|];
      cbn; rewrite isServerReady_clear; auto. }
  rewrite Hr. cbn [negb].
  destruct (is_null (sourceLanguage this) && _); [cbn; auto|].
  destruct (is_string (field data "message") "DISCONNECT").
  { pose proof (close_log this) as Hc.
    destruct (close this) as [c l]. cbn [snd fst] in *. split.
    - unfold count_ready. cbn.
      assert (E : List.filter is_ready_event l = []).
      { clear -Hc. induction l as [|e l IH]; [reflexivity|].
        cbn. rewrite (Hc e (or_introl eq_refl)). cbn.
        apply IH. intros e' He'. apply Hc. right. exact He'. }
      rewrite E. reflexivity.
    - intros Hd. exfalso. apply Hd. cbn. auto. }
  pose proof (handle_results_state this data) as Hs.
  pose proof (handle_results_no_ready this data) as Hn.
  destruct (handle_results this data); cbn [fst snd] in *; subst; auto.
Qed.

Lemma ready_phase (ms : list MessageData) (this : WebSocketClient) :
  isServerReady this = true ->
  ~ In Emit_disconnect (snd (handle_all this ms)) ->
  count_ready (snd (handle_all this ms)) = 0%nat.
Proof.
  revert this. induction ms as [|m ms IH]; intros this Hr Hd; [reflexivity|].
  cbn [handle_all] in *.
  destruct (step_after_ready this m Hr) as [H0 Hstay].
  destruct (_handleMessage this m) as [c1 l1]. cbn [fst snd] in *.
  specialize (IH c1).
  destruct (handle_all c1 ms) as [c2 l2]. cbn [fst snd] in *.
  rewrite count_ready_app, H0.
  apply IH.
  - apply Hstay. intros H. apply Hd, in_or_app. auto.
  - intros H. apply Hd, in_or_app. auto.
Qed.

Lemma connecting_phase (ms : list MessageData) (this : WebSocketClient) :
  isServerReady this = false ->
  ~ In Emit_disconnect (snd (handle_all this ms)) ->
  count_ready (snd (handle_all this ms))
  = if existsb (valid_message (uuid this)) ms then 1%nat else 0%nat.
Proof.
  revert this. induction ms as [|m ms IH]; intros this Hr Hd; [reflexivity|].
  cbn [handle_all existsb] in *.
  pose proof (step_before_ready this m Hr) as Hstep.
  pose proof (uuid_handleMessage this m) as Hu.
  pose proof (ready_phase ms (fst (_handleMessage this m))) as Hrp.
  specialize (IH (fst (_handleMessage this m))).
  destruct (_handleMessage this m) as [c1 l1]. cbn [fst snd] in *.
  destruct (handle_all c1 ms) as [c2 l2]. cbn [fst snd] in *.
  rewrite count_ready_app.
  assert (Hd2 : ~ In Emit_disconnect l2) by (intros H; apply Hd, in_or_app; auto).
  destruct (valid_message (uuid this) m); cbn [orb].
  - destruct Hstep as [-> Hr1]. rewrite Hrp by auto. reflexivity.
  - destruct Hstep as (-> & _ & Hr1). rewrite IH by auto. rewrite Hu. reflexivity.
Qed.

Lemma before_first_valid (pre : list MessageData) (this : WebSocketClient) :
  isServerReady this = false ->
  forallb (fun m => negb (valid_message (uuid this) m)) pre = true ->
  count_ready (snd (handle_all this pre)) = 0%nat
  /\ isServerReady (fst (handle_all this pre)) = false.
Proof.
  revert this. induction pre as [|m pre IH]; intros this Hr Hall; [auto|].
  cbn [handle_all forallb] in *. apply andb_true_iff in Hall as [Hm Hall].
  apply negb_true_iff in Hm.
  pose proof (step_before_ready this m Hr) as Hstep. rewrite Hm in Hstep.
  pose proof (uuid_handleMessage this m) as Hu.
  specialize (IH (fst (_handleMessage this m))).
  destruct (_handleMessage this m) as [c1 l1]. cbn [fst snd] in *.
  destruct Hstep as (H0 & _ & Hr1). rewrite Hu in IH.
  destruct (IH Hr1 Hall) as [IH1 IH2].
  destruct (handle_all c1 pre) as [c2 l2]. cbn [fst snd] in *.
  rewrite count_ready_app, H0, IH1. auto.
Qed.

(** C7, as stated, fails: nothing resets the ready flag when the peer
    closes the socket ([socket.onclose]) and [connect()] does not reset it
    either, so in the next connection attempt of that client no message
    produces a ['ready'] event: the first valid message is handled as a
    transcription. *)
Lemma no_ready_in_attempt_with_stale_flag :
  let opened := socket_onopen (fst (connect dropped_client)) in
  isServerReady dropped_client = true
  /\ snd opened
     = [SocketSend (ConfigFrame (handshake_options (fst (connect dropped_client))));
        PromiseResolve]
  /\ valid_message (uuid dropped_client) (Text (Some msg_server_ready)) = true
  /\ snd (handle_all (fst opened)
            [Text (Some msg_server_ready); Text (Some msg_segments_hi)])
     = [CallbackOnTranscription msg_server_ready; Emit_transcription msg_server_ready;
        Emit_segments [seg "hi" (VBool false)];
        CallbackOnTranscription msg_segments_hi; Emit_transcription msg_segments_hi]
  /\ count_ready
       (snd (handle_all (fst opened)
               [Text (Some msg_server_ready); Text (Some msg_segments_hi)]))
     = 0%nat.
Proof. repeat split; vm_compute; reflexivity. Qed.

(** C7, amended. In a connection attempt ([connect()] with a valid key,
    then the opening of the socket, then the inbound messages in order) the
    configuration record is sent when the socket opens, before any message
    is handled. When the ready flag is not set at the start of the attempt
    (a new client, or a client after [close()], a disconnect message or a
    timeout), the first message addressed to the client that is neither a
    WAIT status nor a hard error produces the ['ready'] event (nothing
    before it does), and as long as no ['disconnect'] has been emitted the
    whole run contains exactly one ['ready'] event if there is such a
    message and none otherwise. When the flag is still set from an earlier
    connection, the run contains no ['ready'] event at all as long as no
    ['disconnect'] has been emitted. *)
Theorem ready_exactly_once (this : WebSocketClient) (ms : list MessageData) :
  _validateApiKey this = true ->
  let opened := socket_onopen (fst (connect this)) in
  snd opened = [SocketSend (ConfigFrame (handshake_options (fst (connect this))));
                PromiseResolve]
  /\ (isServerReady this = false ->
      (~ In Emit_disconnect (snd (handle_all (fst opened) ms)) ->
       count_ready (snd (handle_all (fst opened) ms))
       = if existsb (valid_message (uuid this)) ms then 1%nat else 0%nat)
      /\ (forall pre m post,
            ms = pre ++ m :: post ->
            forallb (fun x => negb (valid_message (uuid this) x)) pre = true ->
            valid_message (uuid this) m = true ->
            count_ready (snd (handle_all (fst opened) pre)) = 0%nat
            /\ snd (_handleMessage (fst (handle_all (fst opened) pre)) m)
               = [CallbackOnReady; Emit_ready]))
  /\ (isServerReady this = true ->
      ~ In Emit_disconnect (snd (handle_all (fst opened) ms)) ->
      count_ready (snd (handle_all (fst opened) ms)) = 0%nat).
Proof.
  intros Hk opened.
  assert (Eu : uuid (fst opened) = uuid this).
  { unfold opened, connect. rewrite Hk. reflexivity. }
  assert (Er : isServerReady (fst opened) = isServerReady this).
  { unfold opened, connect. rewrite Hk. reflexivity. }
  split; [reflexivity|]. split.
  - intros Hr. rewrite Hr in Er. split.
    + intros Hd. rewrite <- Eu. apply connecting_phase; auto.
    + intros pre m post _ Hpre Hm.
      rewrite <- Eu in Hpre, Hm.
      destruct (before_first_valid pre (fst opened) Er Hpre) as [H0 Hr'].
      split; [exact H0|].
      pose proof (step_before_ready (fst (handle_all (fst opened) pre)) m Hr') as Hs.
      rewrite uuid_handle_all, Hm in Hs. apply Hs.
  - intros Hr Hd. rewrite Hr in Er. apply ready_phase; assumption.
Qed.

Lemma ready_exactly_once_witness :
  count_ready
    (snd (handle_all connected_client
            [ArrayBuffer; Text (Some msg_wait); Text (Some msg_segments_hi);
             Text (Some msg_segments_mixed)]))
  = 1%nat.
Proof.
  refine (proj1 (proj1 (proj2 (ready_exactly_once fresh_client
                          [ArrayBuffer; Text (Some msg_wait); Text (Some msg_segments_hi);
                           Text (Some msg_segments_mixed)] eq_refl)) eq_refl) _).
  vm_compute. intuition discriminate.
Defined.

End ClientFacts.

(** ** Stopping a session *)

Module SessionFacts.
Import JS WS Examples ClientSpec Maestra.

(** [close()] twice leaves the socket client as one [close()] does. *)
Lemma close_twice (this : WebSocketClient) :
  fst (close (fst (close this))) = fst (close this).
Proof.
  destruct this as [? ? ? ? ? ? ? sock rdy tmr tms nxt].
  unfold close, clear_connectionTimer.
  destruct tmr, sock as [[[]]|]; reflexivity.
Qed.

(** A stopped capture source of any kind: a second [stop()] does nothing. *)
Lemma capture_stop_twice (p : Capture.processor) :
  Capture.stop (fst (Capture.stop p)) = (fst (Capture.stop p), []).
Proof. destruct p; reflexivity. Qed.

(** C8, as stated, fails for the sources backed by an ffmpeg process:
    the ['data'] handler that [start()] puts on the pipe calls
    [onAudioCallback] whatever the state of the source, and [stop()] leaves
    it in place, so a chunk that arrives after [stop()] has returned is
    still handed to [onAudioCallback]. *)
Lemma ffmpeg_chunk_after_stop_reaches_callback :
  Capture.chunk_arrives (fun x => x)
    (fst (Capture.stop (Capture.Ffmpeg (Capture.mkFfmpeg true true)))) [1%Q]
  = [Capture.OnAudio [1%Q]]
  /\ snd (deliver (fun x => x)
            (fst (stop (mkMaestra (Some ready_client)
                          (Some (Capture.Ffmpeg (Capture.mkFfmpeg true true))) true)))
            (fst (Capture.stop (Capture.Ffmpeg (Capture.mkFfmpeg true true))))
            [1%Q])
     = [Cap (Capture.OnAudio [1%Q])].
Proof. split; reflexivity. Qed.

(** A stopped client has no socket client: it stays as it is and its log
    has no entry of a socket client, whatever is called on it or arrives,
    short of [connect()]. *)
Lemma stopped_run_effects (effects : list Capture.effect) :
  run_effects (mkMaestra None None false) effects
  = (mkMaestra None None false, map Cap effects).
Proof.
  induction effects as [|e effects IH]; [reflexivity|].
  destruct e; cbn [run_effects onAudioCallback websocketClient]; rewrite IH; reflexivity.
Qed.

Lemma stopped_run (resampled : list Q -> list Q) (calls : list Session.call) :
  fst (Session.run resampled (mkMaestra None None false) calls)
  = mkMaestra None None false
  /\ forall e, ~ In (Ws e) (snd (Session.run resampled (mkMaestra None None false) calls)).
Proof.
  induction calls as [|c calls [IH1 IH2]]; [split; [reflexivity | intros e []]|].
  cbn [Session.run].
  assert (Hstep : exists log,
            Session.step resampled (mkMaestra None None false) c
            = (mkMaestra None None false, log)
            /\ forall e, ~ In (Ws e) log).
  { destruct c as [|p|m|p chunk]; cbn [Session.step].
    - eexists. split; [reflexivity|]. intros e [H|[]]. discriminate.
    - eexists. split; [reflexivity|]. intros e [H|[]]. discriminate.
    - eexists. split; [reflexivity|]. intros e [].
    - unfold deliver. rewrite stopped_run_effects.
      eexists. split; [reflexivity|]. intros e H.
      apply in_map_iff in H as (x & Hx & _). discriminate. }
  destruct Hstep as (log & -> & Hlog).
  destruct (Session.run resampled (mkMaestra None None false) calls) as [mc2 log2].
  cbn [fst snd] in *. split; [exact IH1|].
  intros e H. apply in_app_or in H as [H|H]; [exact (Hlog e H) | exact (IH2 e H)].
Qed.

(** After [stop()] and a new [connect()] the callback that the stopped
    source still carries reads the new socket client: once that one is
    ready, a late chunk of the stopped ffmpeg source is sent on the new
    socket. *)
Example late_chunk_is_sent_after_reconnect :
  let source := Capture.Ffmpeg (Capture.mkFfmpeg true true) in
  let stopped := fst (stop (mkMaestra (Some ready_client) (Some source) true)) in
  exists ws log,
    Construction.connect
      (Construction.MaestraClient_options [("apiKey", VStr "key")]%string) "again" stopped
    = Some (mkMaestra (Some ws) None false, log)
    /\ snd (deliver (fun x => x)
              (mkMaestra
                 (Some (fst (_handleMessage (fst (socket_onopen ws))
                               (Text (Some msg_server_ready)))))
                 None false)
              (fst (Capture.stop source)) [1%Q])
       = [Cap (Capture.OnAudio [1%Q]); Ws (SocketSend (AudioFrame [1%Q]))].
Proof. cbv zeta. eexists _, _. split; [reflexivity | vm_compute; reflexivity]. Qed.

(** C8, amended. For every client state and every kind of capture source:
    [stop()] always returns; a second [stop()] right after the first leaves
    the client exactly as the first left it and touches neither the capture
    source nor the socket (all it does is emit ['transcription-stopped']
    again); a second [stop()] of the capture source itself does nothing;
    and after the first [stop()], for as long as [connect()] is not called
    again, no block reaches [sendAudio]: the callback installed on the
    capture source finds no socket client, so whatever chunks still arrive
    at a capture source and whatever calls of [stop()] and [transcribe()]
    follow, nothing goes out on the socket and the client does not change.
    For the pushed-input source, [pushAudio] after [stop()] does not even
    call the callback. *)
Theorem stop_twice_is_noop (resampled : list Q -> list Q) (mc : MaestraClient) :
  stop (fst (stop mc)) = (fst (stop mc), [Emit transcription_stopped])
  /\ (forall audioData, onAudioCallback (fst (stop mc)) audioData = (fst (stop mc), []))
  /\ (forall p chunk,
        streamProcessor mc = Some p ->
        Capture.stop (fst (Capture.stop p)) = (fst (Capture.stop p), [])
        /\ fst (deliver resampled (fst (stop mc)) (fst (Capture.stop p)) chunk)
           = fst (stop mc)
        /\ (forall e, In (Ws e)
                        (snd (deliver resampled (fst (stop mc))
                                (fst (Capture.stop p)) chunk)) -> False)
        /\ (forall s, p = Capture.StreamInput s ->
                      snd (deliver resampled (fst (stop mc))
                             (fst (Capture.stop p)) chunk) = []))
  /\ (forall calls,
        forallb (fun c => negb (Session.is_inbound c)) calls = true ->
        fst (Session.run resampled (fst (stop mc)) calls) = fst (stop mc)
        /\ forall e, ~ In (Ws e) (snd (Session.run resampled (fst (stop mc)) calls))).
Proof.
  split; [reflexivity|]. split; [reflexivity|]. split.
  - intros p chunk _. split; [apply capture_stop_twice|].
    destruct p as [s|f|m]; cbn.
    + split; [reflexivity|]. split; [intros e []|]. reflexivity.
    + split; [reflexivity|]. split; [intros e [H|[]]; discriminate|].
      intros s H. discriminate.
    + split; [reflexivity|]. split; [intros e [H|[]]; discriminate|].
      intros s H. discriminate.
  - intros calls _. apply stopped_run.
Qed.

Lemma stop_twice_is_noop_witness :
  snd (deliver (fun x => x)
         (fst (stop (mkMaestra (Some ready_client)
                       (Some (Capture.StreamInput (Capture.mkStreamInput true true)))
                       true)))
         (fst (Capture.stop (Capture.StreamInput (Capture.mkStreamInput true true))))
         [1%Q])
  = [].
Proof.
  exact (proj2 (proj2 (proj2 (proj1 (proj2 (proj2 (stop_twice_is_noop (fun x => x)
           (mkMaestra (Some ready_client)
              (Some (Capture.StreamInput (Capture.mkStreamInput true true))) true))))
           (Capture.StreamInput (Capture.mkStreamInput true true)) [1%Q] eq_refl)))
           (Capture.mkStreamInput true true) eq_refl).
Defined.

(** A whole session on a pushed-input source: started on a ready client,
    a pushed chunk goes out on the socket; [stop()] ends the stream and
    closes the socket; a chunk pushed afterwards causes nothing; a second
    [stop()] only emits the event again. *)
Example session_run :
  let mc0 := mkMaestra (Some ready_client) None false in
  let p0 := Capture.StreamInput (Capture.mkStreamInput false false) in
  let mc1 := fst (transcribe mc0 p0) in
  let p1 := Capture.start p0 in
  let mc2 := fst (stop mc1) in
  let p2 := fst (Capture.stop p1) in
  snd (transcribe mc0 p0) = [Emit transcription_started]
  /\ deliver (fun x => x) mc1 p1 [1%Q]
     = (mc1, [Cap (Capture.OnAudio [1%Q]); Ws (SocketSend (AudioFrame [1%Q]))])
  /\ snd (stop mc1) = [Cap Capture.StreamEnd; Ws SocketClose; Emit transcription_stopped]
  /\ deliver (fun x => x) mc2 p2 [1%Q] = (mc2, [])
  /\ stop mc2 = (mc2, [Emit transcription_stopped]).
Proof. vm_compute. repeat split; reflexivity. Qed.

End SessionFacts.

(** ** More on the resamplers *)

Module ResamplerMore.
Import Resampler ResamplerFacts MoreSpec.
Local Open Scope Q_scope.

Section Rates.
Variables fromSampleRate toSampleRate : Q.

Lemma tick_limit_0 :
  0 < fromSampleRate -> 0 < toSampleRate ->
  tick_limit fromSampleRate toSampleRate 0 = 0%Z.
Proof.
  intros Hf Ht. unfold tick_limit.
  assert (E : inject_Z 0 / fromSampleRate * toSampleRate == inject_Z 0)
    by (field; lra).
  rewrite E. apply Qceiling_Z.
Qed.

Lemma tick_limit_ratio (n : Z) :
  0 < fromSampleRate -> 0 < toSampleRate ->
  tick_limit fromSampleRate toSampleRate n
  = Math_ceil (inject_Z n * (toSampleRate / fromSampleRate)).
Proof.
  intros Hf Ht. unfold tick_limit, Math_ceil.
  assert (E : inject_Z n / fromSampleRate * toSampleRate
              == inject_Z n * (toSampleRate / fromSampleRate)) by (field; lra).
  rewrite E. reflexivity.
Qed.

Lemma writeIndex_stream (input : list Q) (frame : Z) (this : Resampler) :
  0 < fromSampleRate -> 0 < toSampleRate ->
  writeIndex (fst (stream fromSampleRate toSampleRate input frame this))
  = match input with
    | [] => writeIndex this
    | _ => Z.max (writeIndex this)
             (tick_limit fromSampleRate toSampleRate (frame + Z.of_nat (length input)))
    end.
Proof.
  intros Hf Ht. revert frame this.
  induction input as [|x rest IH]; intros frame this; [reflexivity|].
  cbn [stream fst]. rewrite IH. cbn [writeIndex length]. unfold ticks_fuel.
  fold (tick_limit fromSampleRate toSampleRate (frame + 1)).
  replace (frame + 1 + Z.of_nat (length rest))%Z
    with (frame + Z.of_nat (S (length rest)))%Z by lia.
  pose proof (tick_limit_mono fromSampleRate toSampleRate
                (frame + 1) (frame + Z.of_nat (S (length rest))) Hf Ht ltac:(lia)).
  destruct rest; [cbn [length] in *; replace (frame + Z.of_nat 1)%Z with (frame + 1)%Z in * by lia|];
    lia.
Qed.

(** X1. A processor created at frame 0 and fed [N] input samples, cut into
    blocks in any way, has posted exactly [ceil(N * toSampleRate /
    fromSampleRate)] samples, and that number is also its [writeIndex]. *)
Theorem process_output_count (blocks : list (list Q)) :
  0 < fromSampleRate -> 0 < toSampleRate ->
  exists this out,
    process_all fromSampleRate toSampleRate 0 Resampler_new blocks = Some (this, out)
    /\ Z.of_nat (length out)
       = Math_ceil (inject_Z (Z.of_nat (length (concat blocks)))
                    * (toSampleRate / fromSampleRate))
    /\ writeIndex this = Z.of_nat (length out).
Proof.
  intros Hf Ht. rewrite process_all_stream by auto.
  destruct (stream fromSampleRate toSampleRate (concat blocks) 0 Resampler_new)
    as [this out] eqn:E.
  exists this, out. split; [reflexivity|].
  pose proof (length_stream fromSampleRate toSampleRate (concat blocks) 0
                Resampler_new Hf Ht) as L.
  pose proof (writeIndex_stream (concat blocks) 0 Resampler_new Hf Ht) as W.
  rewrite E in L, W. cbn [fst snd writeIndex Resampler_new] in L, W.
  rewrite Z.add_0_l in *. rewrite tick_limit_0 in L by auto.
  rewrite <- tick_limit_ratio by auto.
  pose proof (tick_limit_mono fromSampleRate toSampleRate 0
                (Z.of_nat (length (concat blocks))) Hf Ht ltac:(lia)) as M.
  rewrite tick_limit_0 in M by auto.
  split; [lia|].
  destruct (concat blocks) eqn:Ec.
  - cbn [length] in *. change (Z.of_nat 0) with 0%Z in *.
    rewrite tick_limit_0 in L by auto. lia.
  - rewrite <- Ec in *. lia.
Qed.

(** X2. [process] never moves [writeIndex] back, and a block posts at
    most as many samples as [writeIndex] advances (a tick is skipped when
    it lies before the input sample). *)
Theorem process_writeIndex_monotone (currentFrame : Z) (this : Resampler)
    (input : list Q) :
  0 < fromSampleRate -> 0 < toSampleRate ->
  exists this' out,
    process fromSampleRate toSampleRate currentFrame this input = Some (this', out)
    /\ (writeIndex this <= writeIndex this')%Z
    /\ (Z.of_nat (length out) <= writeIndex this' - writeIndex this)%Z.
Proof.
  intros Hf Ht. rewrite process_stream by auto.
  destruct (stream fromSampleRate toSampleRate input currentFrame this)
    as [this' out] eqn:E.
  exists this', out. split; [reflexivity|].
  pose proof (length_stream fromSampleRate toSampleRate input currentFrame this Hf Ht) as L.
  pose proof (writeIndex_stream input currentFrame this Hf Ht) as W.
  rewrite E in L, W. cbn [fst snd] in L, W.
  pose proof (tick_limit_mono fromSampleRate toSampleRate currentFrame
                (currentFrame + Z.of_nat (length input)) Hf Ht ltac:(lia)) as M.
  destruct input.
  - cbn [length] in *. change (Z.of_nat 0) with 0%Z in *.
    rewrite Z.add_0_r in L. lia.
  - lia.
Qed.

(** The interpolation weight of an emitted tick is in [0, 1). *)
Lemma ticks_between (n : nat) (g : Z) (last next : Q) (w : Z) (lo hi : Q) :
  0 < fromSampleRate -> 0 < toSampleRate ->
  (n <> 0%nat ->
   (w + Z.of_nat n <= tick_limit fromSampleRate toSampleRate (g + 1))%Z) ->
  lo <= last <= hi -> lo <= next <= hi ->
  Forall (fun v => lo <= v <= hi) (ticks fromSampleRate toSampleRate n g last next w).
Proof.
  intros Hf Ht. revert w. induction n as [|n IH]; intros w Hw Hl Hn; cbn [ticks].
  - constructor.
  - specialize (Hw ltac:(discriminate)).
    destruct (Qltb (inject_Z w / toSampleRate) (inject_Z g / fromSampleRate)) eqn:E.
    + apply IH; auto. lia.
    + constructor; [|apply IH; auto; lia].
      assert (H1 : ~ inject_Z w / toSampleRate < inject_Z g / fromSampleRate).
      { intros H. apply Qltb_lt in H. congruence. }
      apply Qnot_lt_le in H1.
      assert (H2 : inject_Z w / toSampleRate < inject_Z (g + 1) / fromSampleRate).
      { apply Qltb_lt, before_tick_limit; auto. lia. }
      set (a := inject_Z w / toSampleRate) in *.
      set (b := inject_Z g / fromSampleRate) in *.
      assert (Eb : inject_Z (g + 1) / fromSampleRate == b + 1 / fromSampleRate).
      { unfold b. rewrite inject_Z_plus. field. lra. }
      rewrite Eb in H2.
      assert (Ef : (a - b) / (1 / fromSampleRate) == (a - b) * fromSampleRate)
        by (field; lra).
      rewrite Ef.
      assert (Hi : 0 < 1 / fromSampleRate) by (apply Qlt_shift_div_l; auto; lra).
      assert (F0 : 0 <= (a - b) * fromSampleRate)
        by (apply Qmult_le_0_compat; lra).
      assert (F1 : (a - b) * fromSampleRate <= 1).
      { assert (H3 : (a - b) * fromSampleRate <= 1 / fromSampleRate * fromSampleRate)
          by (apply Qmult_le_compat_r; lra).
        assert (E1 : 1 / fromSampleRate * fromSampleRate == 1) by (field; lra).
        rewrite E1 in H3. exact H3. }
      set (f := (a - b) * fromSampleRate) in *.
      destruct Hl, Hn. split; nra.
Qed.

Lemma stream_between (input : list Q) (frame : Z) (this : Resampler) (lo hi : Q) :
  0 < fromSampleRate -> 0 < toSampleRate ->
  lo <= nextSample this <= hi ->
  Forall (fun x => lo <= x <= hi) input ->
  Forall (fun v => lo <= v <= hi)
    (snd (stream fromSampleRate toSampleRate input frame this)).
Proof.
  intros Hf Ht. revert frame this.
  induction input as [|x rest IH]; intros frame this Hn Hall; [constructor|].
  inversion Hall as [|? ? Hx Hrest]; subst.
  cbn [stream snd]. apply Forall_app. split.
  - apply ticks_between; auto. unfold ticks_fuel.
    fold (tick_limit fromSampleRate toSampleRate (frame + 1)). lia.
  - apply IH; auto.
Qed.

(** X3. No overshoot: when the current sample of the processor and all
    samples of the block lie in [[lo, hi]], so does every sample that
    [process] posts (each is a weighted mean of two consecutive input
    samples). *)
Theorem process_output_between (currentFrame : Z) (this : Resampler)
    (input : list Q) (lo hi : Q) :
  0 < fromSampleRate -> 0 < toSampleRate ->
  lo <= nextSample this <= hi ->
  Forall (fun x => lo <= x <= hi) input ->
  exists this' out,
    process fromSampleRate toSampleRate currentFrame this input = Some (this', out)
    /\ Forall (fun v => lo <= v <= hi) out.
Proof.
  intros Hf Ht Hn Hall. rewrite process_stream by auto.
  pose proof (stream_between input currentFrame this lo hi Hf Ht Hn Hall) as H.
  destruct (stream fromSampleRate toSampleRate input currentFrame this) as [this' out].
  exists this', out. split; [reflexivity | exact H].
Qed.

(** X4. A constant signal stays constant: when the current sample of the
    processor and all samples of the block equal [V], every posted sample
    equals [V]. *)
Theorem process_constant_signal (currentFrame : Z) (this : Resampler)
    (input : list Q) (V : Q) :
  0 < fromSampleRate -> 0 < toSampleRate ->
  nextSample this == V ->
  Forall (fun x => x == V) input ->
  exists this' out,
    process fromSampleRate toSampleRate currentFrame this input = Some (this', out)
    /\ Forall (fun v => v == V) out.
Proof.
  intros Hf Ht Hn Hall. rewrite process_stream by auto.
  assert (H : Forall (fun v => V <= v <= V)
                (snd (stream fromSampleRate toSampleRate input currentFrame this))).
  { apply stream_between; auto.
    - rewrite Hn. split; apply Qle_refl.
    - eapply Forall_impl; [|exact Hall]. cbn. intros a Ha. rewrite Ha.
      split; apply Qle_refl. }
  destruct (stream fromSampleRate toSampleRate input currentFrame this) as [this' out].
  exists this', out. split; [reflexivity|].
  cbn [snd] in H. eapply Forall_impl; [|exact H]. cbn.
  intros a [H1 H2]. apply Qle_antisym; assumption.
Qed.

Lemma tick_limit_equal_rates (g : Z) :
  0 < fromSampleRate -> fromSampleRate == toSampleRate ->
  tick_limit fromSampleRate toSampleRate g = g.
Proof.
  intros Hf He. unfold tick_limit.
  assert (E : inject_Z g / fromSampleRate * toSampleRate == inject_Z g).
  { rewrite <- He. field. lra. }
  rewrite E. apply Qceiling_Z.
Qed.

Lemma ticks_equal_rates (k : nat) (g : Z) (last next : Q) (w : Z) :
  0 < fromSampleRate -> fromSampleRate == toSampleRate ->
  (w + Z.of_nat k = g + 1)%Z ->
  same_samples (ticks fromSampleRate toSampleRate k g last next w)
    match k with
    | O => []
    | S _ => [last]
    end.
Proof.
  intros Hf He. assert (Ht : 0 < toSampleRate) by (rewrite <- He; exact Hf).
  revert w. induction k as [|k IH]; intros w Hw; [constructor|].
  cbn [ticks].
  destruct (Qltb (inject_Z w / toSampleRate) (inject_Z g / fromSampleRate)) eqn:E.
  - apply before_tick_limit in E; auto. rewrite tick_limit_equal_rates in E by auto.
    specialize (IH (w + 1)%Z ltac:(lia)).
    destruct k; [lia | exact IH].
  - assert (Hge : ~ (w < g)%Z).
    { intros H. rewrite <- (tick_limit_equal_rates g Hf He) in H.
      apply before_tick_limit in H; auto. congruence. }
    assert (w = g) by lia. subst w.
    assert (k = 0%nat) by lia. subst k. cbn [ticks].
    constructor; [|constructor].
    assert (E0 : inject_Z g / toSampleRate - inject_Z g / fromSampleRate == 0).
    { rewrite He. ring. }
    rewrite E0. unfold Qdiv. ring.
Qed.

Lemma same_samples_app (a a' b b' : list Q) :
  same_samples a a' -> same_samples b b' -> same_samples (a ++ b) (a' ++ b').
Proof. unfold same_samples. apply Forall2_app. Qed.

Lemma stream_equal_rates (input : list Q) (frame : Z) (this : Resampler) :
  0 < fromSampleRate -> fromSampleRate == toSampleRate ->
  (writeIndex this <= frame)%Z ->
  same_samples (snd (stream fromSampleRate toSampleRate input frame this))
    (removelast (nextSample this :: input)).
Proof.
  intros Hf He. revert frame this.
  induction input as [|x rest IH]; intros frame this Hw; [constructor|].
  cbn [stream snd].
  change (removelast (nextSample this :: x :: rest))
    with ([nextSample this] ++ removelast (x :: rest)).
  unfold ticks_fuel. fold (tick_limit fromSampleRate toSampleRate (frame + 1)).
  rewrite tick_limit_equal_rates by auto.
  apply same_samples_app.
  - pose proof (ticks_equal_rates (Z.to_nat (frame + 1 - writeIndex this)) frame
                  (nextSample this) x (writeIndex this) Hf He ltac:(lia)) as H.
    destruct (Z.to_nat (frame + 1 - writeIndex this)) eqn:En; [lia | exact H].
  - apply (IH (frame + 1)%Z
             (mkResampler (nextSample this) x
                (writeIndex this + Z.of_nat (Z.to_nat (frame + 1 - writeIndex this))))).
    cbn [writeIndex]. lia.
Qed.

(** X5. With equal rates the AudioWorklet processor does not pass the
    block through: it posts one sample per input sample, namely the
    previous input sample (a delay of one sample; the first sample posted
    is the processor's current sample, 0 for a new processor). This holds
    when [writeIndex] is not ahead of [currentFrame]. *)
Theorem process_equal_rates_delays (currentFrame : Z) (this : Resampler)
    (input : list Q) :
  0 < fromSampleRate -> fromSampleRate == toSampleRate ->
  (writeIndex this <= currentFrame)%Z ->
  exists this' out,
    process fromSampleRate toSampleRate currentFrame this input = Some (this', out)
    /\ same_samples out (removelast (nextSample this :: input)).
Proof.
  intros Hf He Hw. assert (Ht : 0 < toSampleRate) by (rewrite <- He; exact Hf).
  rewrite process_stream by auto.
  pose proof (stream_equal_rates input currentFrame this Hf He Hw) as H.
  destruct (stream fromSampleRate toSampleRate input currentFrame this) as [this' out].
  exists this', out. split; [reflexivity | exact H].
Qed.

(** *** The fallback [resample] *)

Lemma head_zero_array_set (a : list Q) (i : nat) (x : Q) :
  (1 <= i)%nat -> head_zero a -> head_zero (array_set a i x).
Proof. destruct a, i; cbn; auto; lia. Qed.

Lemma head_zero_array_set_0 (a : list Q) (x : Q) :
  x == 0 -> head_zero (array_set a 0 x).
Proof. destruct a; cbn; auto. Qed.

(** The inner loop of [resample] ends after the iterations it was given
    fuel for, keeps the length of the buffer, and keeps its first sample
    zero when it starts past tick 0 or at tick 0 of input sample 0 with a
    zero previous sample. *)
Lemma resample_while_props (n : nat) (i : Z) (ls ns : Q) (result : list Q) (w : Z) :
  0 < fromSampleRate -> 0 < toSampleRate ->
  n = Z.to_nat (tick_limit fromSampleRate toSampleRate (i + 1) - w) ->
  (0 <= w)%Z ->
  exists result',
    resample_while fromSampleRate toSampleRate n i ls ns result w
    = Some (result', (w + Z.of_nat n)%Z)
    /\ length result' = length result
    /\ (((1 <= w)%Z \/ (ls == 0 /\ i = 0%Z)) -> head_zero result -> head_zero result').
Proof.
  intros Hf Ht. revert result w.
  induction n as [|n IH]; intros result w Hn Hw; cbn [resample_while].
  - destruct (Qltb (inject_Z w / toSampleRate)
                (inject_Z (i + 1) / fromSampleRate)) eqn:E.
    + apply before_tick_limit in E; auto. lia.
    + exists result. rewrite Z.add_0_r. auto.
  - destruct (Qltb (inject_Z w / toSampleRate)
                (inject_Z (i + 1) / fromSampleRate)) eqn:E.
    2:{ assert (~ (w < tick_limit fromSampleRate toSampleRate (i + 1))%Z).
        { intro H. apply before_tick_limit in H; auto. congruence. }
        lia. }
    destruct (Qltb (inject_Z w / toSampleRate) (inject_Z i / fromSampleRate)) eqn:E2.
    + destruct (IH result (w + 1)%Z ltac:(lia) ltac:(lia)) as (r & Hr & Hl & Hh).
      exists r. split; [|split].
      * rewrite Hr. f_equal. f_equal. lia.
      * exact Hl.
      * intros _ Hz. apply Hh; auto. left. lia.
    + match goal with
      | |- context [array_set result ?k ?v] =>
          destruct (IH (array_set result k v) (w + 1)%Z ltac:(lia) ltac:(lia))
            as (r & Hr & Hl & Hh)
      end.
      exists r. split; [|split].
      * rewrite Hr. f_equal. f_equal. lia.
      * rewrite Hl. apply length_array_set.
      * intros Hc Hz. apply Hh; [left; lia|].
        destruct (Z.eq_dec w 0) as [->|Hne].
        -- destruct Hc as [Hc|[Hls ->]]; [lia|].
           apply head_zero_array_set_0.
           rewrite Hls. unfold Qdiv. cbn [inject_Z]. ring.
        -- apply head_zero_array_set; auto. lia.
Qed.

Lemma tick_limit_1_positive :
  0 < fromSampleRate -> 0 < toSampleRate ->
  (1 <= tick_limit fromSampleRate toSampleRate 1)%Z.
Proof.
  intros Hf Ht.
  assert (H : (0 < tick_limit fromSampleRate toSampleRate 1)%Z).
  { apply before_tick_limit; auto. apply Qltb_lt.
    assert (E : inject_Z 0 / toSampleRate == 0) by (unfold Qdiv; ring).
    rewrite E. change (inject_Z 1) with 1. apply Qlt_shift_div_l; auto. lra. }
  lia.
Qed.

Lemma resample_for_props (samples : list Q) (i : Z) (ns : Q) (result : list Q) (w : Z) :
  0 < fromSampleRate -> 0 < toSampleRate ->
  (0 <= w)%Z ->
  exists r,
    resample_for fromSampleRate toSampleRate samples i 0 ns result w = Some r
    /\ length r = length result
    /\ (((1 <= w)%Z \/ (ns == 0 /\ i = 0%Z)) -> head_zero result -> head_zero r).
Proof.
  intros Hf Ht. revert i ns result w.
  assert (G : forall samples i ls ns result w,
            (0 <= w)%Z ->
            exists r,
              resample_for fromSampleRate toSampleRate samples i ls ns result w = Some r
              /\ length r = length result
              /\ (((1 <= w)%Z \/ (ns == 0 /\ i = 0%Z)) ->
                  head_zero result -> head_zero r)).
  { clear samples. induction samples as [|x rest IH]; intros i ls ns result w Hw.
    - exists result. cbn. auto.
    - cbn [resample_for].
      destruct (resample_while_props
                  (ticks_fuel fromSampleRate toSampleRate i w) i ns x result w
                  Hf Ht eq_refl Hw) as (r1 & Hr1 & Hl1 & Hh1).
      rewrite Hr1.
      destruct (IH (i + 1)%Z ns x r1
                  (w + Z.of_nat (ticks_fuel fromSampleRate toSampleRate i w))%Z
                  ltac:(lia)) as (r & Hr & Hl & Hh).
      exists r. split; [exact Hr|]. split; [congruence|].
      intros Hc Hz. apply Hh; [|apply Hh1; auto].
      left. destruct Hc as [Hc|[_ ->]]; [lia|].
      unfold ticks_fuel. fold (tick_limit fromSampleRate toSampleRate (0 + 1)).
      change (0 + 1)%Z with 1%Z.
      pose proof (tick_limit_1_positive Hf Ht). lia. }
  intros i ns result w Hw. apply G. exact Hw.
Qed.

(** With the product [length * ratio] taken exactly, [resample] returns the
    buffer itself when the rates are equal, and otherwise a buffer of
    [ceil(length * toSampleRate / fromSampleRate)] samples. *)
Lemma resample_length (audioBuffer : list Q) :
  0 < fromSampleRate -> 0 < toSampleRate ->
  exists r,
    resample fromSampleRate toSampleRate audioBuffer = Some r
    /\ if Qeq_bool fromSampleRate toSampleRate
       then r = audioBuffer
       else length r
            = Z.to_nat (Math_ceil (inject_Z (Z.of_nat (length audioBuffer))
                                   * (toSampleRate / fromSampleRate))).
Proof.
  intros Hf Ht. unfold resample.
  destruct (Qeq_bool fromSampleRate toSampleRate); [eauto|].
  destruct (resample_for_props audioBuffer 0 0
              (Float32Array (Math_ceil (inject_Z (Z.of_nat (length audioBuffer))
                                        * (toSampleRate / fromSampleRate))))
              0 Hf Ht ltac:(lia)) as (r & Hr & Hl & _).
  exists r. split; [exact Hr|].
  rewrite Hl. unfold Float32Array. apply repeat_length.
Qed.

(** X7. With different rates, whatever the signal, the buffer [resample]
    returns for a non-empty block starts with a zero sample: the
    interpolation restarts from silence at every call. *)
Theorem resample_starts_with_zero (audioBuffer : list Q) :
  0 < fromSampleRate -> 0 < toSampleRate ->
  Qeq_bool fromSampleRate toSampleRate = false ->
  audioBuffer <> [] ->
  exists h t,
    resample fromSampleRate toSampleRate audioBuffer = Some (h :: t) /\ h == 0.
Proof.
  intros Hf Ht Hne Hnil. unfold resample. rewrite Hne.
  set (k := Math_ceil (inject_Z (Z.of_nat (length audioBuffer))
                       * (toSampleRate / fromSampleRate))).
  destruct (resample_for_props audioBuffer 0 0 (Float32Array k) 0 Hf Ht ltac:(lia))
    as (r & Hr & Hl & Hh).
  assert (Hk : (1 <= k)%Z).
  { unfold k. rewrite <- tick_limit_ratio by auto.
    pose proof (tick_limit_1_positive Hf Ht).
    pose proof (tick_limit_mono fromSampleRate toSampleRate 1
                  (Z.of_nat (length audioBuffer)) Hf Ht) as M.
    destruct audioBuffer; [congruence|]. cbn [length] in *. lia. }
  assert (Hz : head_zero r).
  { apply Hh.
    - right. split; reflexivity.
    - unfold Float32Array. destruct (Z.to_nat k) eqn:Ek; cbn; [auto | reflexivity]. }
  destruct r as [|h t].
  - exfalso. unfold Float32Array in Hl. rewrite repeat_length in Hl.
    cbn [length] in Hl. lia.
  - exists h, t. split; [exact Hr | exact Hz].
Qed.

End Rates.

Lemma process_equal_rates_delays_witness :
  exists this' out,
    process 16000 16000 256 (mkResampler 0 (1 # 2) 256) [1; 2; 3] = Some (this', out)
    /\ same_samples out [1 # 2; 1; 2].
Proof.
  apply (process_equal_rates_delays 16000 16000 256 (mkResampler 0 (1 # 2) 256) [1; 2; 3]).
  - reflexivity.
  - reflexivity.
  - cbn. lia.
Defined.

Lemma Qceiling_div (n p : Z) :
  (0 < p)%Z -> Qceiling (inject_Z n / inject_Z p) = ((n + p - 1) / p)%Z.
Proof.
  intros Hp.
  assert (E : inject_Z n / inject_Z p == n # Z.to_pos p).
  { rewrite (Qmake_Qdiv n (Z.to_pos p)), Z2Pos.id by exact Hp. reflexivity. }
  rewrite E. unfold Qceiling, Qfloor. cbn [Qopp Qnum Qden].
  rewrite Z2Pos.id by exact Hp.
  pose proof (Z.div_mod (- n) p ltac:(lia)) as H1.
  pose proof (Z.mod_pos_bound (- n) p Hp) as H2.
  apply (Z.div_unique _ _ _ (n + p - 1 - p * (- (- n / p)))%Z); lia.
Qed.

(** X6. When the input rate is the output rate times a power of two (whole
    rates below 2^53, so that the ratio and its product with the length are
    exact in the arithmetic of the code as well), [resample] returns a
    buffer of exactly [ceil(length / 2^k)] samples; for [k = 0] (equal
    rates) it is the input buffer itself. *)
Theorem resample_length_power_of_two (rate : Z) (k : nat) (audioBuffer : list Q) :
  (0 < rate)%Z ->
  (2 ^ Z.of_nat k * rate < 2 ^ 53)%Z ->
  exists r,
    resample (inject_Z (2 ^ Z.of_nat k * rate)) (inject_Z rate) audioBuffer = Some r
    /\ Z.of_nat (length r)
       = ((Z.of_nat (length audioBuffer) + 2 ^ Z.of_nat k - 1) / 2 ^ Z.of_nat k)%Z
    /\ (k = 0%nat -> r = audioBuffer).
Proof.
  intros Hr _.
  assert (Hp : (0 < 2 ^ Z.of_nat k)%Z) by (apply Z.pow_pos_nonneg; lia).
  set (p := (2 ^ Z.of_nat k)%Z) in *.
  assert (Hf : 0 < inject_Z (p * rate)).
  { change 0 with (inject_Z 0). rewrite <- Zlt_Qlt. nia. }
  assert (Ht : 0 < inject_Z rate).
  { change 0 with (inject_Z 0). rewrite <- Zlt_Qlt. exact Hr. }
  destruct (resample_length (inject_Z (p * rate)) (inject_Z rate) audioBuffer Hf Ht)
    as (r & Hres & Hl).
  exists r. split; [exact Hres|].
  destruct (Qeq_bool (inject_Z (p * rate)) (inject_Z rate)) eqn:E.
  - subst r. split; [|reflexivity].
    apply Qeq_bool_iff in E. rewrite inject_Z_injective in E.
    assert (p = 1)%Z by nia. rewrite H.
    replace (Z.of_nat (length audioBuffer) + 1 - 1)%Z with (Z.of_nat (length audioBuffer))
      by lia.
    rewrite Z.div_1_r. reflexivity.
  - split.
    2:{ intros ->. exfalso. apply Qeq_bool_neq in E. apply E.
        subst p. change (2 ^ Z.of_nat 0)%Z with 1%Z. rewrite Z.mul_1_l. reflexivity. }
    rewrite Hl. unfold Math_ceil.
    assert (Eq : inject_Z (Z.of_nat (length audioBuffer))
                 * (inject_Z rate / inject_Z (p * rate))
                 == inject_Z (Z.of_nat (length audioBuffer)) / inject_Z p).
    { rewrite inject_Z_mult. field.
      split; intros H; change 0 with (inject_Z 0) in H;
        rewrite inject_Z_injective in H; lia. }
    rewrite Eq, (Qceiling_div _ p Hp).
    apply Z2Nat.id. apply Z.div_pos; lia.
Qed.

Lemma resample_length_power_of_two_witness :
  exists r, resample 32000 16000 [1; 1; 1; 1; 1] = Some r /\ Z.of_nat (length r) = 3%Z.
Proof.
  destruct (resample_length_power_of_two 16000 1 [1; 1; 1; 1; 1] eq_refl eq_refl)
    as (r & Hr & Hl & _).
  exists r. split; [exact Hr | exact Hl].
Defined.

Lemma resample_starts_with_zero_witness :
  exists h t, resample 48000 16000 [1; 1; 1] = Some (h :: t) /\ h == 0.
Proof.
  apply (resample_starts_with_zero 48000 16000 [1; 1; 1]).
  - reflexivity.
  - reflexivity.
  - reflexivity.
  - discriminate.
Defined.

Lemma process_writeIndex_monotone_witness :
  exists this' out,
    process 44100 16000 128 (mkResampler 0 (1 # 2) 40) [1; 1; 1] = Some (this', out)
    /\ (40 <= writeIndex this')%Z.
Proof.
  destruct (process_writeIndex_monotone 44100 16000 128 (mkResampler 0 (1 # 2) 40)
              [1; 1; 1]) as (this' & out & E & M & _); [reflexivity | reflexivity |].
  exists this', out. auto.
Defined.

Lemma process_output_between_witness :
  exists this' out,
    process 44100 16000 0 Resampler_new [1; -1 # 2; 1 # 3; 1; 0; -1] = Some (this', out)
    /\ Forall (fun v => -1 <= v <= 1) out.
Proof.
  apply (process_output_between 44100 16000 0 Resampler_new [1; -1 # 2; 1 # 3; 1; 0; -1]).
  - reflexivity.
  - reflexivity.
  - split; discriminate.
  - repeat constructor; discriminate.
Defined.

Lemma process_constant_signal_witness :
  exists this' out,
    process 48000 16000 0 (mkResampler 0 (1 # 4) 0) [1 # 4; 1 # 4; 2 # 8; 1 # 4]
    = Some (this', out)
    /\ Forall (fun v => v == 1 # 4) out.
Proof.
  apply (process_constant_signal 48000 16000 0 (mkResampler 0 (1 # 4) 0)).
  - reflexivity.
  - reflexivity.
  - reflexivity.
  - repeat constructor.
Defined.

Lemma process_output_count_witness :
  exists this out,
    process_all 44100 16000 0 Resampler_new [[1; 1]; []; [1; 1; 1]] = Some (this, out)
    /\ Z.of_nat (length out) = 2%Z.
Proof.
  destruct (process_output_count 44100 16000 [[1; 1]; []; [1; 1; 1]])
    as (this & out & E & L & _); [reflexivity | reflexivity |].
  exists this, out. split; [exact E|]. rewrite L. reflexivity.
Defined.

End ResamplerMore.

(** ** The PCM conversion of the microphone source *)

Module PcmFacts.
Import Pcm.

Lemma readInt16LE_range (buffer : list Byte.byte) (offset : nat) (z : Z) :
  readInt16LE buffer offset = Some z -> (-32768 <= z < 32768)%Z.
Proof.
  unfold readInt16LE.
  destruct (nth_error buffer offset) as [lo|]; [|discriminate].
  destruct (nth_error buffer (S offset)) as [hi|]; [|discriminate].
  pose proof (Byte.to_N_bounded lo). pose proof (Byte.to_N_bounded hi).
  destruct (Z.ltb_spec (Z.of_N (Byte.to_N lo) + 256 * Z.of_N (Byte.to_N hi)) 32768);
    intros [= <-]; lia.
Qed.

Lemma readInt16LE_defined (buffer : list Byte.byte) (offset : nat) :
  (S offset < length buffer)%nat -> exists z, readInt16LE buffer offset = Some z.
Proof.
  intros H. unfold readInt16LE.
  destruct (nth_error buffer offset) eqn:E1.
  - destruct (nth_error buffer (S offset)) eqn:E2; [eauto|].
    apply nth_error_None in E2. lia.
  - apply nth_error_None in E1. lia.
Qed.

Lemma sample_range (z : Z) :
  (-32768 <= z < 32768)%Z -> (-1 <= inject_Z z / 32768 /\ inject_Z z / 32768 < 1)%Q.
Proof.
  intros H. unfold Qle, Qlt, Qdiv, Qmult, Qinv, inject_Z. cbn. lia.
Qed.

Lemma convert_seq (buffer : list Byte.byte) (k a : nat) :
  (2 * (a + k) <= length buffer)%nat ->
  exists pcm,
    convert buffer (seq a k) = Some pcm
    /\ length pcm = k
    /\ Forall (fun x => (-1 <= x /\ x < 1)%Q) pcm
    /\ forall i, (i < k)%nat ->
         exists z, readInt16LE buffer ((a + i) * 2) = Some z
                   /\ nth_error pcm i = Some (inject_Z z / 32768)%Q.
Proof.
  revert a. induction k as [|k IH]; intros a Hlen.
  - exists []. repeat split; auto. intros i Hi. lia.
  - cbn [seq convert].
    destruct (readInt16LE_defined buffer (a * 2) ltac:(lia)) as [z Hz].
    destruct (IH (S a) ltac:(lia)) as (pcm & Hc & Hl & Hr & Hn).
    rewrite Hz, Hc. exists ((inject_Z z / 32768)%Q :: pcm).
    split; [reflexivity|]. split; [cbn; lia|]. split.
    + constructor; [|exact Hr]. apply sample_range. eapply readInt16LE_range; eauto.
    + intros [|i] Hi.
      * exists z. rewrite Nat.add_0_r. auto.
      * destruct (Hn i ltac:(lia)) as (z' & Hz' & Hn').
        exists z'. replace (a + S i)%nat with (S a + i)%nat by lia. auto.
Qed.

(** X8. The conversion of a microphone chunk never fails: it yields one
    sample per complete pair of bytes (a trailing odd byte is ignored),
    every sample is the little-endian signed 16-bit value of its pair
    divided by 32768, and so lies in [-1, 1). *)
Theorem toPcm_samples (buffer : list Byte.byte) :
  exists pcm,
    toPcm buffer = Some pcm
    /\ length pcm = (length buffer / 2)%nat
    /\ Forall (fun x => (-1 <= x /\ x < 1)%Q) pcm
    /\ forall i, (i < length buffer / 2)%nat ->
         exists z, readInt16LE buffer (i * 2) = Some z
                   /\ (-32768 <= z < 32768)%Z
                   /\ nth_error pcm i = Some (inject_Z z / 32768)%Q.
Proof.
  unfold toPcm.
  pose proof (Nat.div_mod_eq (length buffer) 2) as Hd.
  destruct (convert_seq buffer (length buffer / 2) 0 ltac:(lia))
    as (pcm & Hc & Hl & Hr & Hn).
  exists pcm. repeat split; auto.
  intros i Hi. destruct (Hn i Hi) as (z & Hz & Hnth).
  exists z. cbn [Nat.add] in Hz. repeat split; auto; eapply readInt16LE_range; eauto.
Qed.

(** Two chunks: the extreme values, and an odd number of bytes. *)
Example toPcm_extremes :
  toPcm [Byte.x00; Byte.x80; Byte.xff; Byte.x7f; Byte.x01; Byte.x00]
  = Some [(-32768 # 1) / 32768; (32767 # 1) / 32768; (1 # 1) / 32768]%Q
  /\ toPcm [Byte.x00; Byte.x40; Byte.xff] = Some [(16384 # 1) / 32768]%Q.
Proof. split; reflexivity. Qed.

End PcmFacts.

(** ** More on the socket client *)

Module MoreClientFacts.
Import JS WS Examples ClientSpec MoreSpec Run ClientFacts.

#[local] Set Warnings "-clear-no-such-hyp".

(** Every message comes to one of the outcomes. *)
Lemma handle_results_outcome (this : WebSocketClient) (data : value) :
  isServerReady this = true ->
  match handle_results this data with
  | Return c log => outcome this c log
  | Throw c log e => outcome this c (log ++ [CallbackOnError e; Emit_error e])
  end.
Proof.
  intros Hr. unfold handle_results.
  destruct (truthy (field data "segments")).
  - destruct (field data "segments") as [| | | | |l|];
      try exact (O_error this TypeError false eq_refl).
    destruct (filter_interim l); [|exact (O_error this TypeError false eq_refl)].
    destruct (0 <? length l0)%nat; apply O_results; auto; handle_cases; reflexivity.
  - apply O_results; auto. handle_cases; reflexivity.
Qed.

Lemma outcome_spec (this : WebSocketClient) (m : MessageData) :
  outcome this (fst (_handleMessage this m)) (snd (_handleMessage this m)).
Proof.
  destruct m as [|[data|]].
  - apply O_binary.
  - unfold _handleMessage, handle_data.
    destruct (nullish data); [exact (O_error this TypeError false eq_refl)|].
    destruct (truthy (field data "uid") && _); [apply O_ignored|].
    destruct (is_string (field data "status") "WAIT");
      [exact (O_error this (WaitError _) false eq_refl)|].
    destruct (is_string (field data "status") "ERROR" || _).
    { destruct (_isAuthenticationError _ data) as [[]|]; cbn [fst snd].
      - exact (O_error this AuthenticationError true eq_refl).
      - exact (O_error this (ConnectionFailed _) true eq_refl).
      - exact (O_error this TypeError true eq_refl). }
    destruct (isServerReady this) eqn:Hr; cbn [negb]; [|apply O_ready; exact Hr].
    destruct (is_null (sourceLanguage this) && truthy (field data "language")) eqn:El.
    { apply andb_true_iff in El as [E1 E2]. apply O_language; auto.
      destruct (sourceLanguage this); cbn in E1; congruence. }
    destruct (is_string (field data "message") "DISCONNECT").
    { pose proof (O_disconnect this Hr) as H. destruct (close this). exact H. }
    pose proof (handle_results_outcome this data Hr) as H.
    destruct (handle_results this data); exact H.
  - exact (O_error this SyntaxError false eq_refl).
Qed.

Lemma count_app (f : event -> bool) (a b : list event) :
  count f (a ++ b) = (count f a + count f b)%nat.
Proof. unfold count. rewrite filter_app, length_app. reflexivity. Qed.

Lemma count_results (f : event -> bool) (log : list event) :
  (forall e, is_result_event e = true -> f e = false) ->
  forallb is_result_event log = true ->
  count f log = 0%nat.
Proof.
  intros Hf. induction log as [|e log IH]; intros H; [reflexivity|].
  cbn in H. apply andb_true_iff in H as [He Hl].
  unfold count in *. cbn. rewrite (Hf e He). auto.
Qed.

Lemma socket_clear (this : WebSocketClient) :
  socket (clear_connectionTimer this) = socket this.
Proof. unfold clear_connectionTimer. destruct (connectionTimer this); reflexivity. Qed.

Lemma sourceLanguage_clear (this : WebSocketClient) :
  sourceLanguage (clear_connectionTimer this) = sourceLanguage this.
Proof. unfold clear_connectionTimer. destruct (connectionTimer this); reflexivity. Qed.

Lemma sourceLanguage_close (this : WebSocketClient) :
  sourceLanguage (fst (close this)) = sourceLanguage this.
Proof.
  unfold close. destruct (socket (clear_connectionTimer this)); cbn;
    apply sourceLanguage_clear.
Qed.

Lemma isServerReady_close (this : WebSocketClient) :
  isServerReady (fst (close this)) = false.
Proof. unfold close. destruct (socket (clear_connectionTimer this)); reflexivity. Qed.

Lemma count_close (f : event -> bool) (this : WebSocketClient) :
  f SocketClose = false -> count f (snd (close this)) = 0%nat.
Proof.
  intros Hf. unfold close. destruct (socket (clear_connectionTimer this)); cbn;
    unfold count; cbn; rewrite ?Hf; reflexivity.
Qed.

(** *** X9: what a message never does to the connection *)

(** X9. Unless it makes the client emit ['disconnect'], a message never
    closes the socket: the socket object and its state are left as they
    were and a ready client stays ready. In particular a hard error (even
    an authentication error) leaves the connection open. *)
Theorem message_keeps_socket (this : WebSocketClient) (m : MessageData) :
  ~ In Emit_disconnect (snd (_handleMessage this m)) ->
  socket (fst (_handleMessage this m)) = socket this
  /\ ~ In SocketClose (snd (_handleMessage this m))
  /\ (isServerReady this = true -> isServerReady (fst (_handleMessage this m)) = true).
Proof.
  intros Hd. pose proof (outcome_spec this m) as H.
  destruct (_handleMessage this m) as [c log]. cbn [fst snd] in *.
  destruct H as [| |e [] He|Hr|l Hr Hs Hl|Hr|log Hr Hall].
  - repeat split; auto. intros [H|[]]; discriminate.
  - repeat split; auto.
  - rewrite socket_clear, isServerReady_clear. repeat split; auto.
    intros [H|[H|[]]]; discriminate.
  - repeat split; auto. intros [H|[H|[]]]; discriminate.
  - rewrite socket_clear. repeat split; auto.
    + intros [H|[H|[]]]; discriminate.
    + intros _. apply isServerReady_clear.
  - repeat split; auto. intros [H|[H|[]]]; discriminate.
  - exfalso. apply Hd. cbn. auto.
  - repeat split; auto. intros H.
    assert (E : count (fun e => match e with SocketClose => true | _ => false end) log
                = 0%nat).
    { apply count_results; auto. intros e. destruct e; cbn; congruence. }
    unfold count in E.
    assert (Hin : In SocketClose
                    (List.filter (fun e => match e with SocketClose => true | _ => false end)
                       log)) by (apply filter_In; auto).
    destruct (List.filter _ log); [destruct Hin | discriminate].
Qed.

Lemma message_keeps_socket_witness :
  socket (fst (_handleMessage ready_client (Text (Some msg_invalid_token))))
  = Some (mkWebSocket OPEN)
  /\ isServerReady (fst (_handleMessage ready_client (Text (Some msg_invalid_token))))
     = true.
Proof.
  destruct (message_keeps_socket ready_client (Text (Some msg_invalid_token)))
    as (H1 & _ & H3).
  - vm_compute. intuition discriminate.
  - split; [exact H1 | exact (H3 eq_refl)].
Defined.

(** *** X10: messages for another client *)

(** X10. Messages that carry the [uid] of another client are dropped
    whole, whatever else they contain (WAIT, ERROR, DISCONNECT, segments):
    the client does not change and nothing is emitted or called. *)
Theorem foreign_messages_ignored (this : WebSocketClient) (ms : list MessageData) :
  forallb (foreign this) ms = true ->
  handle_all this ms = (this, []).
Proof.
  induction ms as [|m ms IH]; intros H; [reflexivity|].
  cbn [forallb] in H. apply andb_true_iff in H as [Hm Hms].
  cbn [handle_all].
  assert (E : _handleMessage this m = (this, [])).
  { destruct m as [|[data|]]; try discriminate.
    unfold foreign in Hm. apply andb_true_iff in Hm as [Hm H3].
    apply andb_true_iff in Hm as [H1 H2]. apply negb_true_iff in H1.
    unfold _handleMessage, handle_data. rewrite H1, H2, H3. reflexivity. }
  rewrite E, (IH Hms). reflexivity.
Qed.

Lemma foreign_messages_ignored_witness :
  handle_all ready_client
    [Text (Some (obj [("uid", VStr "other"); ("message", VStr "DISCONNECT")]));
     Text (Some (obj [("uid", VStr "other"); ("status", VStr "ERROR")]))]
  = (ready_client, []).
Proof. apply foreign_messages_ignored. reflexivity. Defined.

(** *** X11: language detection *)

Lemma step_language (this : WebSocketClient) (i : input) :
  (sourceLanguage (fst (step this i)) = sourceLanguage this
   /\ count is_languageDetected (snd (step this i)) = 0%nat)
  \/ (sourceLanguage this = VNull
      /\ sourceLanguage (fst (step this i)) <> VNull
      /\ count is_languageDetected (snd (step this i)) = 1%nat).
Proof.
  destruct i as [|m| | |t|d|]; cbn [step].
  - left. split; reflexivity.
  - pose proof (outcome_spec this m) as H.
    destruct (_handleMessage this m) as [c log]. cbn [fst snd] in *.
    destruct H as [| |e [] He|Hr|l Hr Hs Hl|Hr|log Hr Hall];
      try (left; split; [rewrite ?sourceLanguage_clear; reflexivity | reflexivity]).
    + right. split; [exact Hs|]. split; [|reflexivity].
      cbn. destruct l; cbn in Hl; congruence.
    + left. split; [apply sourceLanguage_close|].
      change (count is_languageDetected (snd (close this)) = 0%nat).
      apply count_close. reflexivity.
    + left. split; [reflexivity|]. apply count_results; auto.
      intros e. destruct e; cbn; congruence.
  - left. split; reflexivity.
  - left. split; reflexivity.
  - left. destruct (bool_decide (t ∈ timers this)); [|split; reflexivity].
    unfold connectionTimer_fired. cbn [isServerReady].
    destruct (isServerReady this); cbn [negb]; [split; reflexivity|].
    match goal with |- context [close ?c] =>
      pose proof (sourceLanguage_close c) as Hs;
      pose proof (count_close is_languageDetected c eq_refl) as Hc;
      destruct (close c) as [c1 l1] end.
    cbn [fst snd] in *. split; [exact Hs|].
    change (count is_languageDetected
              ([CallbackOnError ConnectionTimeout; Emit_error ConnectionTimeout]
               ++ l1 ++ [PromiseReject ConnectionTimeout]) = 0%nat).
    rewrite !count_app, Hc. reflexivity.
  - left. unfold sendAudio. destruct (socket this) as [sk|]; [|split; reflexivity].
    destruct (readyState sk), (isServerReady this); split; reflexivity.
  - left. split; [apply sourceLanguage_close | apply count_close; reflexivity].
Qed.

(** X11. Over any run of a socket client (openings, messages, errors,
    timer expiries, calls of [sendAudio] and [close]) the
    ['languageDetected'] event is emitted at most once, and never when the
    source language is not [null] at the start (a language code, or
    [undefined]). *)
Theorem language_detected_at_most_once (this : WebSocketClient) (inputs : list input) :
  (count is_languageDetected (snd (run this inputs)) <= 1)%nat
  /\ (sourceLanguage this <> VNull ->
      count is_languageDetected (snd (run this inputs)) = 0%nat).
Proof.
  revert this. induction inputs as [|i rest IH]; intros this.
  - split; [cbn; lia | reflexivity].
  - cbn [run].
    pose proof (step_language this i) as Hs.
    destruct (step this i) as [c1 l1]. cbn [fst snd] in Hs.
    destruct (IH c1) as [IH1 IH2].
    destruct (run c1 rest) as [c2 l2]. cbn [fst snd] in *.
    rewrite count_app.
    destruct Hs as [[Hsame H0]|(Hnull & Hnn & H1)].
    + rewrite H0. split; [exact IH1|].
      intros Hne. apply IH2. congruence.
    + rewrite H1, (IH2 Hnn). split; [lia | congruence].
Qed.

Lemma language_detected_at_most_once_witness :
  count is_languageDetected
    (snd (run (set_sourceLanguage connected_client VUndefined)
            [Message (Text (Some msg_disconnect));
             Message (Text (Some msg_language_disconnect))]))
  = 0%nat.
Proof.
  apply (language_detected_at_most_once (set_sourceLanguage connected_client VUndefined)).
  discriminate.
Defined.

(** *** X12: the timeout error *)

Lemma timers_clear_empty (this : WebSocketClient) :
  timers this = ∅ -> timers (clear_connectionTimer this) = ∅.
Proof.
  intros H. unfold clear_connectionTimer.
  destruct (connectionTimer this); cbn; rewrite ?H; set_solver.
Qed.

Lemma timers_close_empty (this : WebSocketClient) :
  timers this = ∅ -> timers (fst (close this)) = ∅.
Proof.
  intros H. apply timers_clear_empty in H. unfold close.
  destruct (socket (clear_connectionTimer this)); exact H.
Qed.

Lemma count_timeout_message (this : WebSocketClient) (m : MessageData) :
  count is_timeout_event (snd (_handleMessage this m)) = 0%nat.
Proof.
  pose proof (outcome_spec this m) as H.
  destruct (_handleMessage this m) as [c log]. cbn [fst snd] in *.
  destruct H as [| |e cleared He|Hr|l Hr Hs Hl|Hr|log Hr Hall]; try reflexivity.
  - destruct e; try discriminate; reflexivity.
  - change (count is_timeout_event (snd (close this)) = 0%nat).
    apply count_close. reflexivity.
  - apply count_results; auto. intros e. destruct e; cbn; congruence.
Qed.

Lemma timers_message_empty (this : WebSocketClient) (m : MessageData) :
  timers this = ∅ -> timers (fst (_handleMessage this m)) = ∅.
Proof.
  intros Ht. pose proof (outcome_spec this m) as H.
  destruct (_handleMessage this m) as [c log]. cbn [fst snd] in *.
  destruct H as [| |e [] He|Hr|l Hr Hs Hl|Hr|log Hr Hall]; auto.
  - apply timers_clear_empty, Ht.
  - apply (timers_clear_empty (set_isServerReady this true)), Ht.
  - apply timers_close_empty, Ht.
Qed.

(** Once no timer is pending, none is until the socket opens again. *)
Lemma step_no_timer (this : WebSocketClient) (i : input) :
  timers this = ∅ -> is_opened i = false ->
  timers (fst (step this i)) = ∅
  /\ count is_timeout_event (snd (step this i)) = 0%nat.
Proof.
  intros Ht Ho. destruct i as [|m| | |t|d|]; cbn [step]; try discriminate.
  - split; [apply timers_message_empty, Ht | apply count_timeout_message].
  - split; [exact Ht | reflexivity].
  - split; [exact Ht | reflexivity].
  - rewrite Ht. rewrite bool_decide_eq_false_2 by set_solver. split; [exact Ht | reflexivity].
  - unfold sendAudio. destruct (socket this) as [sk|]; [|split; [exact Ht | reflexivity]].
    destruct (readyState sk), (isServerReady this); split; try exact Ht; reflexivity.
  - split; [apply timers_close_empty, Ht | apply count_close; reflexivity].
Qed.

Lemma step_sole_timer (this : WebSocketClient) (i : input) :
  sole_timer this -> is_opened i = false ->
  sole_timer (fst (step this i))
  /\ (count is_timeout_event (snd (step this i)) = 0%nat
      \/ (count is_timeout_event (snd (step this i)) = 1%nat
          /\ timers (fst (step this i)) = ∅)).
Proof.
  intros Hs Ho. destruct i as [|m| | |t|d|]; cbn [step]; try discriminate.
  - split; [apply sole_timer_handleMessage, Hs | left; apply count_timeout_message].
  - split; [exact Hs | left; reflexivity].
  - split; [exact Hs | left; reflexivity].
  - destruct (bool_decide (t ∈ timers this)); [|split; [exact Hs | left; reflexivity]].
    unfold connectionTimer_fired. cbn [isServerReady].
    match goal with |- context [close ?c] => set (this0 := c) end.
    assert (Hs0 : sole_timer this0).
    { unfold sole_timer in *. subst this0. cbn.
      destruct (connectionTimer this); set_solver. }
    destruct (isServerReady this); cbn [negb].
    + split; [exact Hs0 | left; reflexivity].
    + pose proof (sole_timer_close this0 Hs0) as Hc.
      assert (Hte : timers (fst (close this0)) = ∅).
      { unfold close. destruct (clear_connectionTimer_none this0 Hs0) as [Ht _].
        destruct (socket (clear_connectionTimer this0)); exact Ht. }
      pose proof (count_close is_timeout_event this0 eq_refl) as Hn.
      destruct (close this0) as [c1 l1]. cbn [fst snd] in *.
      split; [exact Hc|]. right. split; [|exact Hte].
      change (count is_timeout_event
                ([CallbackOnError ConnectionTimeout; Emit_error ConnectionTimeout]
                 ++ l1 ++ [PromiseReject ConnectionTimeout]) = 1%nat).
      rewrite !count_app, Hn. reflexivity.
  - unfold sendAudio. destruct (socket this) as [sk|]; [|split; [exact Hs | left; reflexivity]].
    destruct (readyState sk), (isServerReady this); split; try exact Hs; left; reflexivity.
  - split; [apply sole_timer_close, Hs | left; apply count_close; reflexivity].
Qed.

Lemma run_no_timer (inputs : list input) (this : WebSocketClient) :
  forallb (fun i => negb (is_opened i)) inputs = true ->
  timers this = ∅ ->
  count is_timeout_event (snd (run this inputs)) = 0%nat.
Proof.
  revert this. induction inputs as [|i rest IH]; intros this Hall Ht; [reflexivity|].
  cbn [forallb] in Hall. apply andb_true_iff in Hall as [Hi Hrest].
  apply negb_true_iff in Hi. cbn [run].
  destruct (step_no_timer this i Ht Hi) as [Ht1 H0].
  destruct (step this i) as [c1 l1]. cbn [fst snd] in *.
  specialize (IH c1 Hrest Ht1).
  destruct (run c1 rest) as [c2 l2]. cbn [fst snd] in *.
  rewrite count_app, H0, IH. reflexivity.
Qed.

(** X12. Between two openings of the socket, the timeout error is
    reported at most once when the only pending timer is the one the
    client holds (as after the handshake), and never when no timer is
    pending (as after ready, a hard error or [close()]): whatever
    messages, errors, expiries and calls follow. *)
Theorem timeout_reported_at_most_once (this : WebSocketClient) (inputs : list input) :
  forallb (fun i => negb (is_opened i)) inputs = true ->
  (sole_timer this -> (count is_timeout_event (snd (run this inputs)) <= 1)%nat)
  /\ (timers this = ∅ -> count is_timeout_event (snd (run this inputs)) = 0%nat).
Proof.
  intros Hall. split; [|apply run_no_timer; exact Hall].
  revert this Hall. induction inputs as [|i rest IH]; intros this Hall Hs; [cbn; lia|].
  cbn [forallb] in Hall. apply andb_true_iff in Hall as [Hi Hrest].
  apply negb_true_iff in Hi. cbn [run].
  destruct (step_sole_timer this i Hs Hi) as [Hs1 Hc].
  pose proof (run_no_timer rest (fst (step this i)) Hrest) as Hno.
  destruct (step this i) as [c1 l1]. cbn [fst snd] in *.
  specialize (IH c1 Hrest Hs1).
  destruct (run c1 rest) as [c2 l2]. cbn [fst snd] in *.
  rewrite count_app.
  destruct Hc as [H0|[H1 Ht]]; [lia|].
  rewrite (Hno Ht). lia.
Qed.

Lemma timeout_reported_at_most_once_witness :
  (count is_timeout_event
     (snd (run connected_client
             [Message (Text (Some msg_wait)); Expires 0%nat; Expires 0%nat;
              Message (Text (Some msg_disconnect)); Expires 0%nat])) <= 1)%nat.
Proof.
  refine (proj1 (timeout_reported_at_most_once connected_client
                   [Message (Text (Some msg_wait)); Expires 0%nat; Expires 0%nat;
                    Message (Text (Some msg_disconnect)); Expires 0%nat] eq_refl) _).
  apply (handshake_arms_one_timer (fst (connect fresh_client))). reflexivity.
Defined.

(** *** X13: audio and the ready event *)

Lemma split_after (x : event) (l1 l2 pre post : list event) :
  l1 ++ l2 = pre ++ x :: post ->
  ~ In x l1 ->
  exists pre2, pre = l1 ++ pre2 /\ l2 = pre2 ++ x :: post.
Proof.
  revert pre. induction l1 as [|a l1 IH]; intros pre H Hn.
  - exists pre. auto.
  - destruct pre as [|b pre]; cbn in H.
    + injection H as -> _. exfalso. apply Hn. left. reflexivity.
    + injection H as -> H.
      destruct (IH pre H) as (pre2 & -> & ->); [intros Hx; apply Hn; right; exact Hx|].
      exists pre2. auto.
Qed.

Lemma step_send_needs_ready (this : WebSocketClient) (i : input) (d : list Q) :
  In (SocketSend (AudioFrame d)) (snd (step this i)) -> isServerReady this = true.
Proof.
  destruct i as [|m| | |t|d'|]; cbn [step].
  - intros [H|[H|[]]]; discriminate.
  - pose proof (outcome_spec this m) as H.
    destruct (_handleMessage this m) as [c log]. cbn [fst snd] in *.
    destruct H as [| |e cleared He|Hr|l Hr Hs Hl|Hr|log Hr Hall];
      try (cbn; intuition discriminate); auto.
  - cbn. intuition discriminate.
  - cbn. intuition discriminate.
  - destruct (bool_decide (t ∈ timers this)); [|cbn; intros []].
    unfold connectionTimer_fired. cbn [isServerReady].
    destruct (isServerReady this); cbn [negb]; [auto|].
    match goal with |- context [close ?c] =>
      pose proof (close_log c) as Hc; destruct (close c) as [c1 l1] end.
    cbn [fst snd] in *. intros H.
    apply in_app_or in H as [[H|[H|[]]]|H]; try discriminate.
    apply in_app_or in H as [H|[H|[]]]; [apply Hc in H|]; discriminate.
  - unfold sendAudio. destruct (socket this) as [sk|]; [|cbn; intros []].
    destruct (readyState sk), (isServerReady this); cbn; intuition discriminate.
  - intros H. apply (close_log this) in H. discriminate.
Qed.

Lemma step_becomes_ready (this : WebSocketClient) (i : input) :
  isServerReady this = false ->
  isServerReady (fst (step this i)) = true ->
  In Emit_ready (snd (step this i)).
Proof.
  intros Hr. destruct i as [|m| | |t|d|]; cbn [step].
  - cbn. congruence.
  - pose proof (outcome_spec this m) as H.
    destruct (_handleMessage this m) as [c log]. cbn [fst snd] in *.
    destruct H as [| |e [] He|Hr'|l Hr' Hs Hl|Hr'|log Hr' Hall];
      rewrite ?isServerReady_clear; try congruence.
    intros _. right. left. reflexivity.
  - cbn. congruence.
  - cbn. congruence.
  - destruct (bool_decide (t ∈ timers this)); [|cbn; congruence].
    unfold connectionTimer_fired. cbn [isServerReady]. rewrite Hr. cbn [negb].
    match goal with |- context [close ?c] =>
      pose proof (isServerReady_close c) as Hc; destruct (close c) as [c1 l1] end.
    cbn [fst snd] in *. congruence.
  - unfold sendAudio. rewrite Hr.
    destruct (socket this) as [sk|]; [destruct (readyState sk)|]; cbn; congruence.
  - rewrite isServerReady_close. discriminate.
Qed.

(** X13. No audio before ready: in any run that starts with the server
    not ready (a new client, or a client after [close()]), every audio
    frame that goes out on the socket comes after a ['ready'] event of
    that run. *)
Theorem no_audio_before_ready (inputs : list input) (this : WebSocketClient)
    (pre post : list event) (d : list Q) :
  isServerReady this = false ->
  snd (run this inputs) = pre ++ SocketSend (AudioFrame d) :: post ->
  In Emit_ready pre.
Proof.
  revert this pre. induction inputs as [|i rest IH]; intros this pre Hr Hlog.
  - cbn in Hlog. destruct pre; discriminate.
  - cbn [run] in Hlog.
    pose proof (step_send_needs_ready this i d) as Hsend.
    pose proof (step_becomes_ready this i Hr) as Hready.
    destruct (step this i) as [c1 l1]. cbn [fst snd] in *.
    specialize (IH c1).
    destruct (run c1 rest) as [c2 l2]. cbn [fst snd] in *.
    destruct (split_after _ _ _ _ _ Hlog) as (pre2 & -> & Hl2).
    { intros H. apply Hsend in H. congruence. }
    apply in_or_app.
    destruct (isServerReady c1) eqn:E1.
    + left. apply Hready. reflexivity.
    + right. apply (IH pre2 eq_refl Hl2).
Qed.

Lemma no_audio_before_ready_witness :
  In Emit_ready
    [SocketSend (ConfigFrame (handshake_options (fst (connect fresh_client))));
     PromiseResolve; CallbackOnReady; Emit_ready].
Proof.
  apply (no_audio_before_ready
           [Opened; CallSendAudio [1%Q]; Message (Text (Some msg_disconnect));
            CallSendAudio [1%Q]]
           (fst (connect fresh_client)) _ [] [1%Q]).
  - reflexivity.
  - vm_compute. reflexivity.
Defined.

(** *** X14: the API key check of [connect] *)





(** *** X15: the configuration record *)

(** X15. In the configuration record sent at the handshake the [uid] is
    the client's identity and [use_vad] its flag; a language or voice that
    is [null] or [undefined] is left out of the record rather than sent;
    [translationEnabled] is true exactly when [targetLanguage] is in the
    record and [voiceOverEnabled] exactly when [voiceId] is. *)
Theorem handshake_options_fields (this : WebSocketClient) :
  let options := handshake_options this in
  let sent v := if nullish v then VUndefined else v in
  assoc options "uid" = VStr (uuid this)
  /\ assoc options "use_vad" = VBool (useVad this)
  /\ assoc options "sourceLanguage" = sent (sourceLanguage this)
  /\ assoc options "targetLanguage" = sent (targetLanguage this)
  /\ assoc options "saveToDashboard" = sent (saveToDashboard this)
  /\ assoc options "voiceId" = sent (voiceId this)
  /\ assoc options "translationEnabled" = VBool (negb (nullish (targetLanguage this)))
  /\ assoc options "voiceOverEnabled" = VBool (negb (nullish (voiceId this)))
  /\ (forall key, apiKey this = VStr key -> key <> EmptyString ->
                  assoc options "authorization" = VStr ("Bearer " ++ key)).
Proof.
  cbv zeta. unfold handshake_options.
  destruct (nullish (sourceLanguage this)) eqn:E1,
           (nullish (targetLanguage this)) eqn:E2,
           (nullish (saveToDashboard this)) eqn:E3,
           (nullish (voiceId this)) eqn:E4;
    cbn; repeat split; try reflexivity;
    intros key -> Hk; (destruct key; [congruence | reflexivity]).
Qed.

Lemma handshake_options_fields_witness :
  assoc (handshake_options connected_client) "authorization" = VStr "Bearer key".
Proof.
  refine (proj2 (proj2 (proj2 (proj2 (proj2 (proj2 (proj2 (proj2
            (handshake_options_fields connected_client)))))))) "key"%string eq_refl _).
  discriminate.
Defined.

End MoreClientFacts.

(** ** The connection timer over a connection attempt *)

Module TimerFacts.
Import JS WS Examples ClientSpec MoreSpec Run ClientFacts MoreClientFacts.



(** A handshake that runs while a timer is still pending (here after a
    WAIT message and a second [connect()]) overwrites the handle: the
    earlier timer is not cancelled by the ready message nor by [close()],
    and it fires after [close()] with the timeout error. *)
Example second_handshake_orphans_first_timer :
  timers reconnected_client = {[ 0%nat; 1%nat ]}
  /\ connectionTimer reconnected_client = Some 1%nat
  /\ timers (fst (_handleMessage reconnected_client (Text (Some msg_server_ready))))
     = {[ 0%nat ]}
  /\ timers (fst (close reconnected_client)) = {[ 0%nat ]}
  /\ snd (connectionTimer_fired (fst (close reconnected_client)) 0%nat)
     = [CallbackOnError ConnectionTimeout; Emit_error ConnectionTimeout;
        SocketClose; PromiseReject ConnectionTimeout].
Proof. repeat split; vm_compute; reflexivity. Qed.



End TimerFacts.

(** ** More on [MaestraClient] and the capture sources *)

Module MoreSessionFacts.
Import JS WS Examples ClientSpec MoreSpec Run Maestra Construction ClientFacts
  MoreClientFacts.

Lemma assoc_app (a b : list (string * value)) (k : string) :
  assoc (a ++ b) k = if has_own a k then assoc a k else assoc b k.
Proof.
  induction a as [|[k' v] a IH]; [reflexivity|].
  cbn. destruct (String.eqb k' k); [reflexivity | exact IH].
Qed.

Lemma MaestraClient_options_apiKey (options : list (string * value)) :
  assoc (MaestraClient_options options) "apiKey" = assoc options "apiKey".
Proof.
  unfold MaestraClient_options. rewrite assoc_app.
  destruct (has_own options "apiKey"); reflexivity.
Qed.

(** The socket client that [MaestraClient] builds from its options. *)
Lemma _initWebSocketClient_new (options : list (string * value)) (generated : string) :
  exists ws,
    _initWebSocketClient (MaestraClient_options options) generated MaestraClient_new
    = Some (mkMaestra (Some ws) None false)
    /\ uuid ws = generated
    /\ useVad ws = true
    /\ apiKey ws = assoc options "apiKey"
    /\ sourceLanguage ws <> VNull
    /\ socket ws = None /\ isServerReady ws = false /\ timers ws = ∅.
Proof.
  unfold _initWebSocketClient, MaestraClient_new, WebSocketClient_new, websocket_options.
  cbn. eexists. split; [reflexivity|]. cbn.
  rewrite MaestraClient_options_apiKey.
  repeat split; try reflexivity.
  unfold or_else.
  destruct (truthy (assoc (MaestraClient_options options) "sourceLanguage")) eqn:E;
    [|discriminate].
  intros Hn. rewrite Hn in E. discriminate.
Qed.


Lemma run_no_language (this : WebSocketClient) (inputs : list input) :
  sourceLanguage this <> VNull ->
  count is_languageDetected (snd (run this inputs)) = 0%nat.
Proof.
  revert this. induction inputs as [|i rest IH]; intros this Hne; [reflexivity|].
  cbn [run].
  pose proof (step_language this i) as Hs.
  destruct (step this i) as [c1 l1]. cbn [fst snd] in Hs.
  specialize (IH c1).
  destruct (run c1 rest) as [c2 l2]. cbn [fst snd] in *.
  rewrite count_app.
  destruct Hs as [[Hsame H0]|(Hnull & _)]; [|congruence].
  rewrite H0. apply IH. congruence.
Qed.


(** X17. Whatever options [MaestraClient] is given, the socket client it
    builds has [useVad] true (the option is not passed on, so the
    handshake always says [use_vad: true]) and a source language that is
    never [null] (the default [null] becomes [undefined]); so over any run
    of that socket client no ['languageDetected'] event is ever emitted. *)
Theorem maestra_client_never_detects_language (options : list (string * value))
    (generated : string) :
  exists ws,
    _initWebSocketClient (MaestraClient_options options) generated MaestraClient_new
    = Some (mkMaestra (Some ws) None false)
    /\ assoc (handshake_options ws) "use_vad" = VBool true
    /\ sourceLanguage ws <> VNull
    /\ forall inputs, count is_languageDetected (snd (run ws inputs)) = 0%nat.
Proof.
  destruct (_initWebSocketClient_new options generated)
    as (ws & Hinit & _ & Hvad & _ & Hlang & _).
  exists ws. split; [exact Hinit|]. split; [|split; [exact Hlang|]].
  - unfold handshake_options. cbn. rewrite Hvad. reflexivity.
  - intros inputs. apply run_no_language. exact Hlang.
Qed.

(** A ['disconnect'] comes from the disconnect branch only, which closes
    the socket client. *)
Lemma disconnect_closes (this : WebSocketClient) (m : MessageData) :
  In Emit_disconnect (snd (_handleMessage this m)) ->
  fst (_handleMessage this m) = fst (close this).
Proof.
  pose proof (outcome_spec this m) as H.
  destruct (_handleMessage this m) as [c log]. cbn [fst snd] in *.
  destruct H as [| |e cleared He|Hr|l Hr Hs Hl|Hr|log Hr Hall];
    try (cbn; intuition discriminate).
  intros Hin. exfalso.
  assert (E : count (fun e => match e with Emit_disconnect => true | _ => false end) log
              = 0%nat).
  { apply count_results; auto. intros e. destruct e; cbn; congruence. }
  unfold count in E.
  assert (Hf : In Emit_disconnect
                 (List.filter (fun e => match e with Emit_disconnect => true | _ => false end)
                    log)) by (apply filter_In; auto).
  destruct (List.filter _ log); [destruct Hf | discriminate].
Qed.

(** A socket that is not open stays so while the client is not connected
    again, and nothing is sent on it. *)
Lemma socket_not_open_close (ws : WebSocketClient) :
  Session.socket_not_open (fst (close ws)).
Proof.
  unfold Session.socket_not_open, close.
  destruct (socket (clear_connectionTimer ws)) as [sk|] eqn:E; cbn; [|rewrite E; exact I].
  unfold WebSocket_close. destruct (readyState sk); discriminate.
Qed.

Lemma socket_not_open_handleMessage (ws : WebSocketClient) (m : MessageData) :
  Session.socket_not_open ws -> Session.socket_not_open (fst (_handleMessage ws m)).
Proof.
  intros Hn. pose proof (outcome_spec ws m) as H.
  destruct (_handleMessage ws m) as [c log]. cbn [fst snd] in *.
  destruct H as [| |e [] He|Hr|l Hr Hs Hl|Hr|log Hr Hall];
    try exact Hn;
    try (unfold Session.socket_not_open in *; rewrite socket_clear; exact Hn).
  apply socket_not_open_close.
Qed.

Lemma not_open_sendAudio (ws : WebSocketClient) (audioData : list Q) :
  Session.socket_not_open ws -> sendAudio ws audioData = (ws, []).
Proof.
  unfold Session.socket_not_open, sendAudio. intros Hn.
  destruct (socket ws) as [sk|]; [|reflexivity].
  destruct (readyState sk); try reflexivity. contradiction.
Qed.

Lemma not_open_run_effects (effects : list Capture.effect) (this : MaestraClient) :
  Session.not_open this ->
  Session.not_open (fst (run_effects this effects))
  /\ forallb (fun e => negb (Session.is_audio_sent e)) (snd (run_effects this effects))
     = true.
Proof.
  revert this. induction effects as [|e effects IH]; intros this Hn; [auto|].
  cbn [run_effects].
  assert (Hcb : exists this1,
            match e with
            | Capture.OnAudio audioData => onAudioCallback this audioData
            | _ => (this, [])
            end = (this1, []) /\ Session.not_open this1).
  { destruct e; try (exists this; split; [reflexivity | exact Hn]).
    unfold onAudioCallback. pose proof Hn as Hn'. unfold Session.not_open in Hn'.
    destruct (websocketClient this) as [ws|] eqn:E;
      [|exists this; split; [reflexivity | exact Hn]].
    rewrite (not_open_sendAudio ws audioData Hn'). eexists. split; [reflexivity|].
    exact Hn'. }
  destruct Hcb as (this1 & -> & Hn1).
  destruct (IH this1 Hn1) as [IH1 IH2].
  destruct (run_effects this1 effects) as [this2 log2]. cbn [fst snd] in *.
  split; [exact IH1|]. cbn [app forallb]. rewrite IH2. destruct e; reflexivity.
Qed.

Lemma not_open_step (resampled : list Q -> list Q) (this : MaestraClient)
    (c : Session.call) :
  Session.not_open this ->
  Session.not_open (fst (Session.step resampled this c))
  /\ forallb (fun e => negb (Session.is_audio_sent e)) (snd (Session.step resampled this c))
     = true.
Proof.
  intros Hn. destruct c as [|p|m|p chunk]; cbn [Session.step].
  - split; [exact I|]. unfold stop. cbn [snd]. rewrite !forallb_app. cbn.
    rewrite andb_true_r. apply andb_true_iff. split.
    + destruct (streamProcessor this); [|reflexivity].
      apply forallb_forall. intros e H. apply in_map_iff in H as (x & <- & _). reflexivity.
    + destruct (websocketClient this) as [ws|]; [|reflexivity].
      apply forallb_forall. intros e H. apply in_map_iff in H as (x & <- & Hx).
      apply close_log in Hx. subst x. reflexivity.
  - unfold transcribe. destruct (isTranscribing this); [auto|].
    pose proof Hn as Hn'. unfold Session.not_open in Hn'.
    destruct (websocketClient this) as [ws|] eqn:E; [|auto].
    destruct (isServerReady ws); [|auto].
    split; [exact Hn' | reflexivity].
  - unfold on_message. pose proof Hn as Hn'. unfold Session.not_open in Hn'.
    destruct (websocketClient this) as [ws|] eqn:E; [|auto].
    pose proof (socket_not_open_handleMessage ws m Hn') as H.
    destruct (_handleMessage ws m) as [ws1 log]. cbn [fst snd] in *.
    split; [exact H|]. apply forallb_forall. intros e He.
    apply in_map_iff in He as (x & <- & _). reflexivity.
  - apply not_open_run_effects, Hn.
Qed.

Lemma not_open_run (resampled : list Q -> list Q) (calls : list Session.call)
    (this : MaestraClient) :
  Session.not_open this ->
  forallb (fun e => negb (Session.is_audio_sent e)) (snd (Session.run resampled this calls))
  = true.
Proof.
  revert this. induction calls as [|c calls IH]; intros this Hn; [reflexivity|].
  cbn [Session.run].
  destruct (not_open_step resampled this c Hn) as [Hn1 H1].
  destruct (Session.step resampled this c) as [this1 log1]. cbn [fst snd] in *.
  specialize (IH this1 Hn1).
  destruct (Session.run resampled this1 calls) as [this2 log2]. cbn [fst snd] in *.
  rewrite forallb_app, H1, IH. reflexivity.
Qed.

(** X18. A ['disconnect'] from the server does not stop the session: the
    capture source is not stopped, [isTranscribing] stays set and a new
    [transcribe()] is refused ("Already transcribing"); and for as long as
    [connect()] is not called again, no audio frame goes out on the socket,
    whatever chunks the capture source still delivers and whatever
    [stop()], [transcribe()] and inbound messages follow. *)
Theorem disconnect_leaves_capture_running (resampled : list Q -> list Q)
    (mc : MaestraClient) (ws : WebSocketClient) (p : Capture.processor)
    (m : MessageData) :
  websocketClient mc = Some ws ->
  streamProcessor mc = Some p ->
  isTranscribing mc = true ->
  In disconnect (snd (on_message mc m)) ->
  streamProcessor (fst (on_message mc m)) = Some p
  /\ isTranscribing (fst (on_message mc m)) = true
  /\ (forall q,
        transcribe (fst (on_message mc m)) q
        = (fst (on_message mc m), [Emit (error AlreadyTranscribing)]))
  /\ (forall calls,
        forallb (fun e => negb (Session.is_audio_sent e))
          (snd (Session.run resampled (fst (on_message mc m)) calls)) = true).
Proof.
  intros Hws Hp Ht Hin. unfold on_message in *. rewrite Hws in *.
  pose proof (disconnect_closes ws m) as Hc.
  destruct (_handleMessage ws m) as [ws1 log]. cbn [fst snd] in *.
  assert (Hd : In Emit_disconnect log).
  { apply in_flat_map in Hin as (e & He & Hf).
    destruct e; cbn in Hf; try contradiction; destruct Hf as [Hf|[]]; try discriminate.
    exact He. }
  specialize (Hc Hd). subst ws1.
  split; [exact Hp|]. split; [exact Ht|]. split.
  - intros q. unfold transcribe. cbn [isTranscribing]. rewrite Ht. reflexivity.
  - intros calls. apply not_open_run. apply socket_not_open_close.
Qed.

Lemma disconnect_leaves_capture_running_witness :
  forallb (fun e => negb (Session.is_audio_sent e))
    (snd (Session.run (fun x => x)
            (fst (on_message
                    (mkMaestra (Some (set_sourceLanguage ready_client VUndefined))
                       (Some (Capture.Ffmpeg (Capture.mkFfmpeg true true))) true)
                    (Text (Some msg_disconnect))))
            [Session.Inbound (Text (Some msg_server_ready));
             Session.Chunk (Capture.Ffmpeg (Capture.mkFfmpeg true true)) [1%Q]]))
  = true.
Proof.
  refine (proj2 (proj2 (proj2 (disconnect_leaves_capture_running (fun x => x)
           (mkMaestra (Some (set_sourceLanguage ready_client VUndefined))
              (Some (Capture.Ffmpeg (Capture.mkFfmpeg true true))) true)
           (set_sourceLanguage ready_client VUndefined)
           (Capture.Ffmpeg (Capture.mkFfmpeg true true))
           (Text (Some msg_disconnect)) eq_refl eq_refl eq_refl _))) _).
  vm_compute. auto.
Defined.

(** *** X19: the lifecycle of the pushed-input source *)



End MoreSessionFacts.
(** ** The caption formatter *)

Module VmixFacts.
Import JS Vmix.

Lemma Qltb_irrefl (q : Q) : Resampler.Qltb q q = false.
Proof. unfold Resampler.Qltb. apply Z.ltb_irrefl. Qed.

(** What every handler call keeps: the limit and the displayed words are
    untouched, the buffer is only appended to, the timestamp only moves
    forward. *)
Definition extends (this this' : VmixProcessor) : Prop :=
  maxLineLength this' = maxLineLength this
  /\ transcriptCurrentlyDisplayed this' = transcriptCurrentlyDisplayed this
  /\ (exists added, transcriptBuffer this' = transcriptBuffer this ++ added)
  /\ (currentTranscriptTimestamp this <= currentTranscriptTimestamp this')%Q.

Lemma extends_refl (this : VmixProcessor) : extends this this.
Proof.
  repeat split; try reflexivity; [exists []; symmetry; apply app_nil_r | apply Qle_refl].
Qed.

Lemma extends_trans (a b c : VmixProcessor) : extends a b -> extends b c -> extends a c.
Proof.
  intros (Hm & Hd & [x Hx] & Ht) (Hm' & Hd' & [y Hy] & Ht').
  repeat split; try congruence.
  - exists (x ++ y). rewrite Hy, Hx, app_assoc. reflexivity.
  - eapply Qle_trans; eauto.
Qed.

Lemma extends_timestamp (this : VmixProcessor) (e : Q) :
  Resampler.Qltb (currentTranscriptTimestamp this) e = true ->
  extends this (set_currentTranscriptTimestamp this e).
Proof.
  intros H. repeat split; try reflexivity.
  - exists []. symmetry. apply app_nil_r.
  - apply Qlt_le_weak, ResamplerFacts.Qltb_lt, H.
Qed.

Lemma extends_push_words (this : VmixProcessor) (text : value) :
  extends this (state_of (push_words this text)).
Proof.
  destruct text; try apply extends_refl.
  repeat split; try reflexivity; [eexists; reflexivity | apply Qle_refl].
Qed.

Section Handlers.
Variable Number : value -> option Q.

Lemma extends_forEach_segment (segment : list value) (this : VmixProcessor) :
  extends this (state_of (forEach_segment Number this segment)).
Proof.
  revert this. induction segment as [|s rest IH]; intros this; cbn [forEach_segment].
  - apply extends_refl.
  - destruct (nullish s); [apply extends_refl|].
    destruct (later Number _ _); [|apply IH].
    pose proof (extends_push_words this (field s "text")) as Hp.
    destruct (push_words this (field s "text")) as [this1|this1]; cbn [state_of] in Hp.
    + eapply extends_trans; [exact Hp | apply IH].
    + exact Hp.
Qed.

Lemma extends_handle (this : VmixProcessor) (c : call) :
  extends this (handle Number this c).
Proof.
  destruct c as [segment|segment]; cbn [handle].
  - unfold _handleTranscription.
    destruct (truthy segment && truthy (field segment "text")).
    + unfold later. destruct (Number (field segment "end")) as [e|]; [|apply extends_refl].
      destruct (Resampler.Qltb _ e) eqn:E; [|apply extends_refl].
      eapply extends_trans; [apply (extends_timestamp this e E) | apply extends_push_words].
    + destruct (truthy segment && truthy (length_of segment)); [|apply extends_refl].
      destruct segment; try apply extends_refl. apply extends_forEach_segment.
  - unfold _handleFinalizedTimestamp.
    destruct (nullish segment); [apply extends_refl|].
    unfold later. destruct (Number (field segment "end")) as [e|]; [|apply extends_refl].
    destruct (Resampler.Qltb _ e) eqn:E; [|apply extends_refl].
    apply (extends_timestamp this e E).
Qed.

(** X20. Over any sequence of calls of the two listeners of
    [VmixProcessor], with any segments (also ones that make a listener
    throw), the timestamp of the latest caption never goes back, the words
    already buffered stay in the buffer in their order (words are only
    added after them), and the displayed words and the line limit are not
    touched. *)
Theorem handlers_only_append (calls : list call) (this : VmixProcessor) :
  let this' := fold_left (handle Number) calls this in
  (currentTranscriptTimestamp this <= currentTranscriptTimestamp this')%Q
  /\ (exists added, transcriptBuffer this' = transcriptBuffer this ++ added)
  /\ transcriptCurrentlyDisplayed this' = transcriptCurrentlyDisplayed this
  /\ maxLineLength this' = maxLineLength this.
Proof.
  cbv zeta.
  assert (H : extends this (fold_left (handle Number) calls this)).
  { revert this. induction calls as [|c calls IH]; intros this; cbn [fold_left].
    - apply extends_refl.
    - eapply extends_trans; [apply extends_handle | apply IH]. }
  destruct H as (Hm & Hd & Hb & Ht). auto.
Qed.

(** X21. A finalized segment is buffered once: when the listener is called
    again with the same segment object, the second call changes nothing
    (the timestamp that the first call stored is not earlier than the end
    of the segment). *)
Theorem finalized_segment_buffered_once (this : VmixProcessor)
    (fields : list (string * value)) :
  handle Number (handle Number this (Transcription (VObj fields)))
    (Transcription (VObj fields))
  = handle Number this (Transcription (VObj fields)).
Proof.
  cbn [handle].
  assert (Hstale : forall st,
            (truthy (assoc fields "text") = true ->
             later Number (assoc fields "end") (currentTranscriptTimestamp st) = false) ->
            state_of (_handleTranscription Number st (VObj fields)) = st).
  { intros st H. unfold _handleTranscription. cbn [truthy andb field length_of].
    destruct (truthy (assoc fields "text")).
    - rewrite H by reflexivity. reflexivity.
    - destruct (truthy (assoc fields "length")); reflexivity. }
  apply Hstale. intros Ht.
  unfold _handleTranscription. cbn [truthy andb field]. rewrite Ht.
  unfold later. destruct (Number (assoc fields "end")) as [e|]; [|reflexivity].
  destruct (Resampler.Qltb (currentTranscriptTimestamp this) e) eqn:E;
    [|cbn [state_of]; exact E].
  replace (currentTranscriptTimestamp
             (state_of (push_words (set_currentTranscriptTimestamp this e)
                          (assoc fields "text")))) with e
    by (destruct (assoc fields "text"); reflexivity).
  apply Qltb_irrefl.
Qed.

(** The words that a call with an array of segments buffers. *)
Lemma forEach_segment_words (segment : list value) (this : VmixProcessor) :
  forallb has_text segment = true ->
  forEach_segment Number this segment
  = Normal (set_transcriptBuffer this
              (transcriptBuffer this
               ++ flat_map text_words
                    (List.filter
                       (fun s => later Number (field s "start")
                                   (currentTranscriptTimestamp this))
                       segment))).
Proof.
  revert this. induction segment as [|s rest IH]; intros this Hall.
  - cbn. destruct this. unfold set_transcriptBuffer. cbn. rewrite app_nil_r. reflexivity.
  - cbn [forallb] in Hall. apply andb_true_iff in Hall as [Hs Hrest].
    cbn [forEach_segment List.filter].
    destruct s as [| | | | | |fields]; try discriminate. cbn [nullish].
    destruct (later Number (field (VObj fields) "start") (currentTranscriptTimestamp this)).
    + cbn [flat_map]. unfold text_words at 1. cbn [field] in *. cbn [has_text] in Hs.
      destruct (assoc fields "text"); try discriminate.
      cbn [push_words]. rewrite (IH _ Hrest).
      destruct this. unfold set_transcriptBuffer. cbn. rewrite app_assoc. reflexivity.
    + apply IH, Hrest.
Qed.

(** X22. An array of segments (an interim update) whose segments have a
    string as [text] buffers the words of every segment that starts after
    the current timestamp and leaves the timestamp as it is; so the same
    update delivered again buffers the same words again. *)
Theorem interim_update_buffers_again (this : VmixProcessor) (segment : list value) :
  forallb has_text segment = true ->
  let added :=
    flat_map text_words
      (List.filter
         (fun s => later Number (field s "start") (currentTranscriptTimestamp this))
         segment) in
  _handleTranscription Number this (VArr segment)
  = Normal (set_transcriptBuffer this (transcriptBuffer this ++ added))
  /\ _handleTranscription Number
       (set_transcriptBuffer this (transcriptBuffer this ++ added)) (VArr segment)
     = Normal (set_transcriptBuffer this (transcriptBuffer this ++ added ++ added)).
Proof.
  intros Hall added.
  assert (H : forall st, currentTranscriptTimestamp st = currentTranscriptTimestamp this ->
            _handleTranscription Number st (VArr segment)
            = Normal (set_transcriptBuffer st (transcriptBuffer st ++ added))).
  { intros st Hst. unfold _handleTranscription. cbn [truthy andb field length_of].
    destruct segment as [|s rest].
    - cbn. destruct st. unfold set_transcriptBuffer. cbn. rewrite app_nil_r. reflexivity.
    - replace (truthy (VNum (inject_Z (Z.of_nat (length (s :: rest)))))) with true
        by reflexivity.
      rewrite (forEach_segment_words _ _ Hall), Hst. reflexivity. }
  split; [apply H; reflexivity|].
  rewrite H by reflexivity.
  destruct this. unfold set_transcriptBuffer. cbn. rewrite app_assoc. reflexivity.
Qed.

End Handlers.

Lemma interim_update_buffers_again_witness :
  _handleTranscription (fun v => match v with VNum q => Some q | _ => None end)
    (mkVmix 40 ["hello"; "world"]%string 0 [])
    (VArr [VObj [("start", VNum 1); ("text", VStr "hello world")]%string])
  = Normal (mkVmix 40 ["hello"; "world"; "hello"; "world"]%string 0 []).
Proof.
  exact (proj2 (interim_update_buffers_again
                  (fun v => match v with VNum q => Some q | _ => None end)
                  (mkVmix 40 [] 0 [])
                  [VObj [("start", VNum 1); ("text", VStr "hello world")]%string]
                  eq_refl)).
Defined.


(** *** The formatter *)

Lemma is_break_LF (word : string) : is_break word = true -> word = LF.
Proof. apply String.eqb_eq. Qed.

Lemma lineBreakCount_app (a b : list string) :
  lineBreakCount (a ++ b) = (lineBreakCount a + lineBreakCount b)%nat.
Proof. unfold lineBreakCount. rewrite List.filter_app, length_app. reflexivity. Qed.

Lemma words_app (a b : list string) : words (a ++ b) = words a ++ words b.
Proof. apply List.filter_app. Qed.

Lemma lineBreakCount_splice_insert (a : list string) (i : nat) :
  lineBreakCount (splice_insert a i LF) = S (lineBreakCount a).
Proof.
  unfold splice_insert. rewrite <- (firstn_skipn i a) at 3.
  rewrite !lineBreakCount_app.
  change (lineBreakCount (LF :: skipn i a)) with (S (lineBreakCount (skipn i a))).
  lia.
Qed.

Lemma words_splice_insert (a : list string) (i : nat) :
  words (splice_insert a i LF) = words a.
Proof.
  unfold splice_insert. rewrite <- (firstn_skipn i a) at 3.
  rewrite !words_app. reflexivity.
Qed.

(** The first line break splits the words. *)
Lemma indexOf_Some (a : list string) (k : nat) :
  indexOf a = Some k ->
  lineBreakCount (firstn k a) = 0%nat
  /\ lineBreakCount a = S (lineBreakCount (skipn (k + 1) a))
  /\ words a = words (firstn k a) ++ words (skipn (k + 1) a).
Proof.
  revert k. induction a as [|word rest IH]; intros k; cbn [indexOf]; [discriminate|].
  destruct (is_break word) eqn:E.
  - intros [= <-]. cbn. unfold lineBreakCount, words. cbn. rewrite E. cbn. auto.
  - destruct (indexOf rest) as [i|]; [|discriminate]. intros [= <-].
    destruct (IH i eq_refl) as (H1 & H2 & H3).
    cbn [firstn skipn Nat.add]. unfold lineBreakCount, words in *. cbn [List.filter].
    rewrite E. cbn [negb]. rewrite H3. cbn [length app]. auto.
Qed.

Lemma indexOf_None (a : list string) : indexOf a = None -> lineBreakCount a = 0%nat.
Proof.
  induction a as [|word rest IH]; cbn [indexOf]; [reflexivity|].
  destruct (is_break word) eqn:E; [discriminate|].
  destruct (indexOf rest); [discriminate|]. intros _.
  unfold lineBreakCount in *. cbn [List.filter]. rewrite E. apply IH. reflexivity.
Qed.

Lemma lastIndexOf_None (a : list string) :
  lineBreakCount a = 0%nat -> lastIndexOf a = None.
Proof.
  induction a as [|word rest IH]; [reflexivity|].
  unfold lineBreakCount in *. cbn [List.filter lastIndexOf].
  destruct (is_break word) eqn:E; [discriminate|].
  intros H. rewrite (IH H). reflexivity.
Qed.

(** What the two-line limit does to the count of line breaks and to the
    words. *)
Lemma two_lines_spec (a : list string) :
  lineBreakCount (two_lines a)
  = (if (2 <=? lineBreakCount a)%nat then lineBreakCount a - 1 else lineBreakCount a)%nat
  /\ exists scrolled,
       words a = scrolled ++ words (two_lines a)
       /\ ((lineBreakCount a < 2)%nat -> scrolled = []).
Proof.
  unfold two_lines. fold (lineBreakCount a).
  destruct (2 <=? lineBreakCount a)%nat eqn:E.
  - apply Nat.leb_le in E.
    destruct (indexOf a) as [k|] eqn:Hk.
    + destruct (indexOf_Some a k Hk) as (H1 & H2 & H3).
      split; [lia|]. exists (words (firstn k a)). split; [exact H3 | lia].
    + apply indexOf_None in Hk. lia.
  - split; [reflexivity|]. exists []. auto.
Qed.

(** The wrapping loop either leaves the words alone or inserts one line
    break. *)
Lemma wrap_for_cases (maxLineLength : Q) (a : list string) (first : nat)
    (indices : list nat) :
  wrap_for maxLineLength a first indices = a
  \/ exists i, wrap_for maxLineLength a first indices = splice_insert a i LF.
Proof.
  induction indices as [|i rest IH]; cbn [wrap_for]; [left; reflexivity|].
  destruct (too_long _ _); [right; eauto | exact IH].
Qed.

Lemma wrap_cases (maxLineLength : Q) (a : list string) :
  wrap maxLineLength a = a \/ exists i, wrap maxLineLength a = splice_insert a i LF.
Proof. apply wrap_for_cases. Qed.

Lemma formatted (this : VmixProcessor) :
  _sendAndFormatCaptions this
  = mkVmix (maxLineLength this) [] (currentTranscriptTimestamp this)
      (two_lines (wrap (maxLineLength this)
                    (transcriptCurrentlyDisplayed this ++ transcriptBuffer this))).
Proof.
  unfold _sendAndFormatCaptions. destruct this as [m b t d]. cbn.
  destruct b; cbn; [rewrite app_nil_r|]; reflexivity.
Qed.

(** X23. The captions never hold more than two lines: when the displayed
    words together with the buffered ones contain at most one line break,
    the displayed words contain at most one line break after the formatter
    has run, and the buffer is empty. *)
Theorem captions_at_most_two_lines (this : VmixProcessor) :
  (lineBreakCount (transcriptCurrentlyDisplayed this ++ transcriptBuffer this) <= 1)%nat ->
  (lineBreakCount (transcriptCurrentlyDisplayed (_sendAndFormatCaptions this)) <= 1)%nat
  /\ transcriptBuffer (_sendAndFormatCaptions this) = [].
Proof.
  intros H. rewrite formatted. cbn [transcriptCurrentlyDisplayed transcriptBuffer].
  split; [|reflexivity].
  destruct (two_lines_spec
              (wrap (maxLineLength this)
                 (transcriptCurrentlyDisplayed this ++ transcriptBuffer this))) as [-> _].
  destruct (wrap_cases (maxLineLength this)
              (transcriptCurrentlyDisplayed this ++ transcriptBuffer this)) as [->|[i ->]].
  - match goal with |- context [(2 <=? ?n)%nat] => destruct (Nat.leb_spec 2 n) end; lia.
  - rewrite lineBreakCount_splice_insert.
    match goal with |- context [(2 <=? ?n)%nat] => destruct (Nat.leb_spec 2 n) end; lia.
Qed.

Lemma captions_at_most_two_lines_witness :
  (lineBreakCount
     (transcriptCurrentlyDisplayed
        (_sendAndFormatCaptions
           (mkVmix 5 ["ef"]%string 0 ["ab"; LF; "cd"]%string))) <= 1)%nat
  /\ transcriptBuffer
       (_sendAndFormatCaptions (mkVmix 5 ["ef"]%string 0 ["ab"; LF; "cd"]%string))
     = [].
Proof.
  apply (captions_at_most_two_lines (mkVmix 5 ["ef"]%string 0 ["ab"; LF; "cd"]%string)).
  vm_compute. lia.
Defined.

(** X24. The formatter never reorders, repeats or invents a word: the
    words displayed after it has run are the displayed and buffered words
    of before, in their order, without the words of the first line when
    that line scrolls off; nothing scrolls off while the words hold no line
    break yet. *)
Theorem formatter_keeps_words (this : VmixProcessor) :
  exists scrolled,
    words (transcriptCurrentlyDisplayed this ++ transcriptBuffer this)
    = scrolled ++ words (transcriptCurrentlyDisplayed (_sendAndFormatCaptions this))
    /\ (lineBreakCount (transcriptCurrentlyDisplayed this ++ transcriptBuffer this) = 0%nat ->
        scrolled = []).
Proof.
  rewrite formatted. cbn [transcriptCurrentlyDisplayed].
  set (a := transcriptCurrentlyDisplayed this ++ transcriptBuffer this).
  destruct (two_lines_spec (wrap (maxLineLength this) a)) as (_ & scrolled & Hw & Hs).
  exists scrolled.
  destruct (wrap_cases (maxLineLength this) a) as [E|[i E]]; rewrite E in *.
  - split; [exact Hw|]. intros H0. apply Hs. lia.
  - rewrite words_splice_insert in Hw. split; [exact Hw|].
    intros H0. apply Hs. rewrite lineBreakCount_splice_insert. lia.
Qed.


(** *** Where the line break goes *)

Lemma slice_open (a : list string) (first m : nat) :
  slice a first (first + m) = firstn m (skipn first a).
Proof. unfold slice. symmetry. apply firstn_skipn_comm. Qed.

Lemma splice_insert_open (a : list string) (first n : nat) :
  splice_insert a (first + n) LF
  = firstn first a ++ firstn n (skipn first a) ++ LF :: skipn n (skipn first a).
Proof.
  unfold splice_insert.
  rewrite <- (take_take_drop a first n), <- app_assoc, drop_drop. reflexivity.
Qed.

Lemma wrap_for_seq (maxLineLength : Q) (a : list string) (first k : nat) :
  forall n0 : nat,
  (forall m, (1 <= m <= n0)%nat ->
     too_long (join_space (slice a first (first + m))) maxLineLength = false) ->
  (wrap_for maxLineLength a first (seq (first + n0) k) = a
   /\ forall m, (1 <= m <= n0 + k)%nat ->
        too_long (join_space (slice a first (first + m))) maxLineLength = false)
  \/ exists n, (n0 <= n < n0 + k)%nat
       /\ wrap_for maxLineLength a first (seq (first + n0) k)
          = splice_insert a (first + n) LF
       /\ too_long (join_space (slice a first (first + (n + 1)))) maxLineLength = true
       /\ forall m, (1 <= m <= n)%nat ->
            too_long (join_space (slice a first (first + m))) maxLineLength = false.
Proof.
  induction k as [|k IH]; intros n0 Hfit.
  - left. split; [reflexivity|]. intros m Hm. apply Hfit. lia.
  - cbn [seq wrap_for].
    replace (first + n0 + 1)%nat with (first + (n0 + 1))%nat by lia.
    destruct (too_long (join_space (slice a first (first + (n0 + 1)))) maxLineLength) eqn:E.
    + right. exists n0. split; [lia|]. auto.
    + replace (S (first + n0)) with (first + (n0 + 1))%nat by lia.
      destruct (IH (n0 + 1)%nat) as [[Hw Hall]|(n & Hn & Hw & Hlong & Hall)].
      * intros m Hm. destruct (Nat.eq_dec m (n0 + 1)) as [->|]; [exact E | apply Hfit; lia].
      * left. split; [exact Hw|]. intros m Hm. apply Hall. lia.
      * right. exists n. split; [lia|]. auto.
Qed.

(** X25. The wrapping step inserts at most one line break, and only into
    the open line (the words after the last line break): it puts the break
    before the first word with which the open line would be longer than
    [maxLineLength]. So the line that it closes fits the limit or has no
    word at all (when the first word alone is too long); and when it
    inserts nothing, the whole open line fits. *)
Theorem wrap_closes_fitting_line (maxLineLength : Q) (a : list string) :
  (wrap maxLineLength a = a
   /\ forall m, (1 <= m <= length (open_line a))%nat ->
        too_long (join_space (firstn m (open_line a))) maxLineLength = false)
  \/ exists n, (n < length (open_line a))%nat
       /\ wrap maxLineLength a
          = closed_lines a ++ firstn n (open_line a) ++ LF :: skipn n (open_line a)
       /\ too_long (join_space (firstn (n + 1) (open_line a))) maxLineLength = true
       /\ forall m, (1 <= m <= n)%nat ->
            too_long (join_space (firstn m (open_line a))) maxLineLength = false.
Proof.
  unfold wrap, open_line, closed_lines.
  set (first := firstWordAfterLastLineBreakIndex a).
  rewrite length_skipn.
  pose proof (wrap_for_seq maxLineLength a first (length a - first) 0%nat) as H.
  rewrite Nat.add_0_r in H. cbn [Nat.add] in H.
  destruct H as [[Hw Hall]|(n & Hn & Hw & Hlong & Hall)].
  - intros m Hm. lia.
  - left. split; [exact Hw|]. intros m Hm. rewrite <- slice_open. apply Hall, Hm.
  - right. exists n. split; [lia|]. split; [|split].
    + rewrite Hw. apply splice_insert_open.
    + rewrite <- slice_open. exact Hlong.
    + intros m Hm. rewrite <- slice_open. apply Hall, Hm.
Qed.

(** *** A word longer than the limit *)

Lemma is_break_LF_true : is_break LF = true.
Proof. reflexivity. Qed.

Lemma lineBreakCount_cons (word : string) (a : list string) :
  lineBreakCount (word :: a)
  = ((if is_break word then 1 else 0) + lineBreakCount a)%nat.
Proof. unfold lineBreakCount. cbn [List.filter]. destruct (is_break word); reflexivity. Qed.

Lemma join_space_one (word : string) : join_space [word] = word.
Proof. reflexivity. Qed.

(** A too long first word gets a line break in front of it. *)
Lemma long_word_first (maxLineLength : Q) (word : string) (rest : list string) :
  too_long word maxLineLength = true ->
  is_break word = false ->
  lineBreakCount rest = 0%nat ->
  two_lines (wrap maxLineLength (word :: rest)) = LF :: word :: rest.
Proof.
  intros Hlong Hw Hrest.
  assert (Hc : lineBreakCount (word :: rest) = 0%nat)
    by (rewrite lineBreakCount_cons, Hw, Hrest; reflexivity).
  unfold wrap, firstWordAfterLastLineBreakIndex.
  rewrite (lastIndexOf_None _ Hc).
  cbn [length Nat.sub seq wrap_for Nat.add slice firstn skipn].
  rewrite join_space_one, Hlong.
  unfold splice_insert. cbn [firstn skipn app].
  unfold two_lines. fold (lineBreakCount (LF :: word :: rest)).
  rewrite lineBreakCount_cons, Hc. reflexivity.
Qed.

(** With the break in front of it, the word stays where it is. *)
Lemma long_word_stuck (maxLineLength : Q) (word : string) (rest : list string) :
  too_long word maxLineLength = true ->
  is_break word = false ->
  lineBreakCount rest = 0%nat ->
  two_lines (wrap maxLineLength (LF :: word :: rest)) = LF :: word :: rest.
Proof.
  intros Hlong Hw Hrest.
  assert (Hc : lineBreakCount (word :: rest) = 0%nat)
    by (rewrite lineBreakCount_cons, Hw, Hrest; reflexivity).
  unfold wrap, firstWordAfterLastLineBreakIndex.
  assert (Hl : lastIndexOf (LF :: word :: rest) = Some 0%nat).
  { change (lastIndexOf (LF :: word :: rest))
      with (match lastIndexOf (word :: rest) with
            | Some i => Some (S i)
            | None => if is_break LF then Some 0%nat else None
            end).
    rewrite (lastIndexOf_None _ Hc). reflexivity. }
  rewrite Hl.
  cbn [length Nat.sub seq wrap_for Nat.add slice firstn skipn].
  rewrite join_space_one, Hlong.
  unfold splice_insert. cbn [firstn skipn app].
  unfold two_lines. fold (lineBreakCount (LF :: LF :: word :: rest)).
  rewrite !lineBreakCount_cons, is_break_LF_true, Hw, Hrest. reflexivity.
Qed.

(** X26. A word longer than [maxLineLength] at the start of the captions
    stops the wrapping for good: the formatter puts a line break in front
    of it, and from then on, whatever words (other than line breaks) are
    buffered between its runs, it only appends them after that word; no
    further line break is inserted and nothing scrolls off. *)
Theorem long_word_stops_wrapping (this : VmixProcessor) (word : string)
    (rest : list string) (pushes : list (list string)) :
  too_long word (maxLineLength this) = true ->
  is_break word = false ->
  lineBreakCount rest = 0%nat ->
  lineBreakCount (concat pushes) = 0%nat ->
  transcriptCurrentlyDisplayed this ++ transcriptBuffer this = word :: rest
  \/ transcriptCurrentlyDisplayed this ++ transcriptBuffer this = LF :: word :: rest ->
  transcriptCurrentlyDisplayed
    (fold_left push_then_format pushes (_sendAndFormatCaptions this))
  = LF :: word :: rest ++ concat pushes.
Proof.
  intros Hlong Hw Hrest Hpushes Hstart.
  assert (H1 : _sendAndFormatCaptions this
               = mkVmix (maxLineLength this) [] (currentTranscriptTimestamp this)
                   (LF :: word :: rest)).
  { rewrite formatted. f_equal.
    destruct Hstart as [-> | ->]; [apply long_word_first | apply long_word_stuck]; auto. }
  rewrite H1. clear H1 Hstart.
  revert rest Hrest Hpushes.
  induction pushes as [|ws pushes IH]; intros rest Hrest Hpushes.
  - cbn. rewrite app_nil_r. reflexivity.
  - cbn [fold_left concat] in *. rewrite lineBreakCount_app in Hpushes.
    unfold push_then_format at 2. rewrite formatted.
    cbn [maxLineLength transcriptBuffer transcriptCurrentlyDisplayed
         currentTranscriptTimestamp set_transcriptBuffer app].
    change (LF :: word :: rest ++ ws) with (LF :: word :: (rest ++ ws)).
    rewrite long_word_stuck; auto; [|rewrite lineBreakCount_app; lia].
    rewrite IH; [|rewrite lineBreakCount_app; lia | lia].
    rewrite <- app_assoc. reflexivity.
Qed.

Lemma long_word_stops_wrapping_witness :
  transcriptCurrentlyDisplayed
    (fold_left push_then_format [["y"]; ["z"; "w"]]%string
       (_sendAndFormatCaptions (mkVmix 5 ["abcdefgh"; "x"]%string 0 [])))
  = [LF; "abcdefgh"; "x"; "y"; "z"; "w"]%string.
Proof.
  apply (long_word_stops_wrapping (mkVmix 5 ["abcdefgh"; "x"]%string 0 [])
           "abcdefgh" ["x"]%string [["y"]; ["z"; "w"]]%string);
    [reflexivity | reflexivity | reflexivity | reflexivity | left; reflexivity].
Defined.

End VmixFacts.
